(** * The price-extraction pipeline of [app.py]

    A shallow embedding of [SimpleCache] and [PriceScraper] and the
    properties of the tiered extraction strategy, followed by the routes
    [webhook] and [health] that serve it.

    Modelling conventions.
    - A Python [str] is a [string]; its characters are the code points
      below 256, so [\d] is the ten ASCII digits and [\s] is the white
      space of that range.  A [str] of a request body may also hold
      surrogates (the JSON escape [\ud800] gives one): it is a [pystr],
      which [str.encode()] refuses when it holds one.
    - Python objects that can be mutated in place ([dict], [list]) live in
      a heap and are referred to by location, so that two names for one
      object really are aliases.
    - [time.time()] readings are rationals (seconds).  A comparison or a
      difference of two readings is taken exactly, as the subtraction of
      two doubles is when neither is more than twice the other (so it is
      for readings of the time since 1970 taken less than decades
      apart); a product is rounded to the nearest double, as the code
      computes it.
    - Whatever the browser, the clock and [hashlib] answer is given from
      outside, by a [World]; every theorem holds for every world.
    - An exception is the message [str(e)] it carries; only the class
      [Exception] is modelled, which is what every handler of the file
      catches.
    - Requests are served one after the other, by one process with one
      cache. *)

From Stdlib Require Import ZArith QArith Qround Qabs Qpower String Ascii List Bool Lia Sorted
  DecimalString.
From stdpp Require Import gmap strings list fin_maps.

Open Scope string_scope.
Open Scope Z_scope.

(* ================================================================== *)
(** * Part I: definitions *)
(* ================================================================== *)

(** ** Python strings *)

Definition code (c : ascii) : N := N_of_ascii c.

(** [\d] *)
Definition is_digit (c : ascii) : bool :=
  ((48 <=? code c) && (code c <=? 57))%N.

(** [\s], and the characters [str.strip()] removes *)
Definition is_space (c : ascii) : bool :=
  (((9 <=? code c) && (code c <=? 13)) || ((28 <=? code c) && (code c <=? 32))
   || (code c =? 133) || (code c =? 160))%N.

(** [[\d,]] *)
Definition is_digit_or_comma (c : ascii) : bool :=
  is_digit c || (code c =? 44)%N.

(** One character of [str.lower()] *)
Definition lower_char (c : ascii) : ascii :=
  let n := code c in
  if (((65 <=? n) && (n <=? 90))
      || ((192 <=? n) && (n <=? 222) && negb (n =? 215)))%N
  then ascii_of_N (n + 32) else c.

Fixpoint lower (s : string) : string :=
  match s with
  | EmptyString => EmptyString
  | String c s' => String (lower_char c) (lower s')
  end.

Definition len (s : string) : Z := Z.of_nat (String.length s).

(** [sub in s] *)
Definition contains (sub s : string) : bool :=
  match String.index 0 sub s with Some _ => true | None => false end.

(** [s.find(sub)] *)
Definition find (sub s : string) : Z :=
  match String.index 0 sub s with Some i => Z.of_nat i | None => -1 end.

Fixpoint rindex (sub s : string) : option nat :=
  match s with
  | EmptyString => if String.prefix sub s then Some 0%nat else None
  | String _ s' =>
      match rindex sub s' with
      | Some i => Some (S i)
      | None => if String.prefix sub s then Some 0%nat else None
      end
  end.

(** [s.rfind(sub)] *)
Definition rfind (sub s : string) : Z :=
  match rindex sub s with Some i => Z.of_nat i | None => -1 end.

(** A slice bound as Python clips it: a negative bound counts from the
    end, and everything is brought back into [0 .. len s]. *)
Definition clip (s : string) (i : Z) : Z :=
  if i <? 0 then Z.max 0 (len s + i) else Z.min i (len s).

(** [s[lo:hi]] *)
Definition slice (s : string) (lo hi : Z) : string :=
  let a := clip s lo in
  let b := clip s hi in
  String.substring (Z.to_nat a) (Z.to_nat (b - a)) s.

(** [s[lo:]] *)
Definition slice_from (s : string) (lo : Z) : string := slice s lo (len s).

Fixpoint lstrip (s : string) : string :=
  match s with
  | EmptyString => EmptyString
  | String c s' => if is_space c then lstrip s' else s
  end.

Fixpoint rstrip (s : string) : string :=
  match s with
  | EmptyString => EmptyString
  | String c s' =>
      match rstrip s' with
      | EmptyString => if is_space c then EmptyString else String c EmptyString
      | t => String c t
      end
  end.

(** [s.strip()] *)
Definition strip (s : string) : string := rstrip (lstrip s).

(** [s.startswith(p)] *)
Definition startswith (p s : string) : bool := String.prefix p s.

(** ** Strings that cannot be encoded

    A [str] of a request body may hold surrogates, the code points from
    U+D800 to U+DFFF: [json.loads] reads an escape such as [\ud800] as
    one when no escape next to it pairs with it.  UTF-8 has no bytes for
    a surrogate, and [str.encode()] raises [UnicodeEncodeError] at the
    first one it meets. *)

(** The high byte of a surrogate. *)
Inductive surrogate_row : Type := D8 | D9 | DA | DB | DC | DD | DE | DF.

(** A surrogate, by its two bytes. *)
Inductive surrogate : Type :=
| Surrogate (high : surrogate_row) (low : ascii).

(** A character of a [str] as a request gives it. *)
Inductive pychar : Type :=
| Ch (c : ascii)
| Su (x : surrogate).

(** A [str] that holds a surrogate: the text before the first one, that
    one, and the characters after it. *)
Inductive surrogates : Type :=
| Surrogates (before : string) (first : surrogate) (rest : list pychar).

(** A [str] as a request gives it: text, every character of which UTF-8
    encodes, or a [str] that holds a surrogate. *)
Inductive pystr : Type :=
| Text (s : string)
| Unencodable (u : surrogates).

Coercion Text : string >-> pystr.

Definition hex_digit (n : N) : ascii :=
  ascii_of_N (if (n <? 10)%N then 48 + n else 87 + n)%N.

Definition hex_byte (c : ascii) : string :=
  String (hex_digit (code c / 16)%N) (String (hex_digit (code c mod 16)%N) EmptyString).

Definition row_hex (r : surrogate_row) : string :=
  match r with
  | D8 => "d8" | D9 => "d9" | DA => "da" | DB => "db"
  | DC => "dc" | DD => "dd" | DE => "de" | DF => "df"
  end.

(** [str(n)] *)
Definition decimal (n : nat) : string := NilEmpty.string_of_uint (Nat.to_uint n).

(** The number of surrogates [l] starts with. *)
Fixpoint run (l : list pychar) : nat :=
  match l with
  | Su _ :: l' => S (run l')
  | _ => O
  end.

(** [str(e)] for the [UnicodeEncodeError] that [u.encode()] raises: it
    names the first surrogate and its index, or the first and last index
    of the run of surrogates that starts there. *)
Definition UnicodeEncodeError (u : surrogates) : string :=
  let '(Surrogates before (Surrogate high low) rest) := u in
  let position := String.length before in
  match run rest with
  | O =>
      "'utf-8' codec can't encode character '\u" +:+ row_hex high +:+ hex_byte low
      +:+ "' in position " +:+ decimal position +:+ ": surrogates not allowed"
  | S more =>
      "'utf-8' codec can't encode characters in position " +:+ decimal position
      +:+ "-" +:+ decimal (position + S more) +:+ ": surrogates not allowed"
  end.

(** ** Regular expressions

    The fragment of [re] the file uses, matched the way [re] matches it:
    leftmost, greedy, backtracking.  [rmatch r pos s k] matches [r] at
    the front of [s], which starts at index [pos] of the subject, and
    hands the index and the text after the match to [k]; when [k] refuses
    them the matcher gives back characters and tries again. *)

Inductive regex : Type :=
| RBegin                           (* ^ *)
| REnd                             (* $ *)
| RChar (c : ascii)                (* one literal character *)
| RSet (p : ascii -> bool)         (* one character of a class *)
| RStar (p : ascii -> bool)        (* class*, greedy *)
| RPlus (p : ascii -> bool)        (* class+, greedy *)
| ROpt (r : regex)                 (* (?:r)?, greedy *)
| RSeq (r1 r2 : regex).

Infix ";;;" := RSeq (at level 60, right associativity).

Fixpoint RLit (s : string) : regex :=
  match s with
  | EmptyString => ROpt (RSet (fun _ => false))
  | String c EmptyString => RChar c
  | String c s' => RChar c ;;; RLit s'
  end.

Section Matcher.
Context {A : Type}.

Fixpoint star (p : ascii -> bool) (pos : nat) (s : string)
         (k : nat -> string -> option A) : option A :=
  match s with
  | EmptyString => k pos s
  | String c s' =>
      if p c then
        match star p (S pos) s' k with
        | Some r => Some r
        | None => k pos s
        end
      else k pos s
  end.

Fixpoint rmatch (r : regex) (pos : nat) (s : string)
         (k : nat -> string -> option A) : option A :=
  match r with
  | RBegin => if (pos =? 0)%nat then k pos s else None
  | REnd =>
      match s with
      | EmptyString => k pos s
      | String c EmptyString => if (code c =? 10)%N then k pos s else None
      | _ => None
      end
  | RChar c =>
      match s with
      | String c' s' => if Ascii.eqb c c' then k (S pos) s' else None
      | EmptyString => None
      end
  | RSet p =>
      match s with
      | String c' s' => if p c' then k (S pos) s' else None
      | EmptyString => None
      end
  | RStar p => star p pos s k
  | RPlus p =>
      match s with
      | String c' s' => if p c' then star p (S pos) s' k else None
      | EmptyString => None
      end
  | ROpt r1 =>
      match rmatch r1 pos s k with
      | Some x => Some x
      | None => k pos s
      end
  | RSeq r1 r2 => rmatch r1 pos s (fun pos' s' => rmatch r2 pos' s' k)
  end.
End Matcher.

(** The end index of the match of [r] at the front of [s], if there is one. *)
Definition match_at (r : regex) (pos : nat) (s : string) : option nat :=
  rmatch r pos s (fun e _ => Some e).

(** [re.match(r, s)]: the matched text, [None] when there is no match. *)
Definition re_match (r : regex) (s : string) : option string :=
  match match_at r 0 s with
  | Some e => Some (String.substring 0 e s)
  | None => None
  end.

(** The scan shared by [re.findall] and [re.search]: [skip] characters
    belong to the previous match and are passed over; an empty match
    yields the empty string and the scan moves on by one character. *)
Fixpoint scan (r : regex) (pos : nat) (s : string) (skip : nat) : list string :=
  match s with
  | EmptyString =>
      match skip, match_at r pos s with
      | O, Some _ => [EmptyString]
      | _, _ => []
      end
  | String _ s' =>
      match skip with
      | S n => scan r (S pos) s' n
      | O =>
          match match_at r pos s with
          | Some e => String.substring 0 (e - pos) s :: scan r (S pos) s' (e - pos - 1)
          | None => scan r (S pos) s' 0
          end
      end
  end.

(** [re.findall(r, s)] for a pattern without groups *)
Definition findall (r : regex) (s : string) : list string := scan r 0 s 0.

(** [re.search(r, s)]: [m.group()] of the leftmost match *)
Definition search (r : regex) (s : string) : option string :=
  head (findall r s).

(** [re.sub] of the class [[$,]] by the empty string *)
Fixpoint remove_dollar_comma (s : string) : string :=
  match s with
  | EmptyString => EmptyString
  | String c s' =>
      if ((code c =? 36) || (code c =? 44))%N then remove_dollar_comma s'
      else String c (remove_dollar_comma s')
  end.

(** The patterns of the file. *)

(** [\$[\d,]+\.?\d*] *)
Definition PRICE : regex :=
  RChar "$" ;;; RPlus is_digit_or_comma ;;; ROpt (RChar ".") ;;; RStar is_digit.

(** [\$[\d,]+\.?\d*\s*EASAVE] *)
Definition PRICE_EASAVE : regex :=
  RChar "$" ;;; RPlus is_digit_or_comma ;;; ROpt (RChar ".") ;;; RStar is_digit
  ;;; RStar is_space ;;; RLit "EASAVE".

(** [[\d,]+(?:\.\d{2})?] *)
Definition NUMBER : regex :=
  RPlus is_digit_or_comma ;;; ROpt (RChar "." ;;; RSet is_digit ;;; RSet is_digit).

(** [^[\d,]+(?:\.\d{2})?$] *)
Definition NUMERIC_ONLY : regex :=
  RBegin ;;; RPlus is_digit_or_comma
  ;;; ROpt (RChar "." ;;; RSet is_digit ;;; RSet is_digit) ;;; REnd.

(** [^[\d,]+\.?\d*$] *)
Definition NUMERIC_CONTENT : regex :=
  RBegin ;;; RPlus is_digit_or_comma ;;; ROpt (RChar ".") ;;; RStar is_digit ;;; REnd.

(** ** [float(...) > 100]

    [read_decimal s] reads a numeral made of digits with at most one
    point and answers [(m, k)] for the number [m / 10^k]; it answers
    [None] where [float] raises [ValueError] on such a string (no digit
    at all).  Every string the file hands to [float] is a match of
    [PRICE] without its [$] and commas, hence of this form; the other
    spellings [float] accepts (sign, exponent, [inf], [nan]) are outside
    the model and read as [None]. *)

Fixpoint read_digits (s : string) (acc : Z) (n : nat) : Z * nat * string :=
  match s with
  | String c s' =>
      if is_digit c
      then read_digits s' (10 * acc + Z.of_N (code c - 48)) (S n)
      else (acc, n, s)
  | EmptyString => (acc, n, s)
  end.

Definition read_decimal (s : string) : option (Z * nat) :=
  let '(ip, n1, rest) := read_digits s 0 0 in
  match rest with
  | EmptyString => if (n1 =? 0)%nat then None else Some (ip, 0%nat)
  | String c rest' =>
      if (code c =? 46)%N then
        let '(m, n2, rest2) := read_digits rest' ip 0 in
        match rest2 with
        | EmptyString => if (n1 + n2 =? 0)%nat then None else Some (m, n2)
        | _ => None
        end
      else None
  end.

(** [float] rounds to the nearest double, ties to even.  The doubles next
    to 100 are 100 and 100 + 2^-46, and 100 has an even significand, so
    the double of [m / 10^k] is above 100 exactly when [m / 10^k] is
    above the midpoint 100 + 2^-47. *)
Definition float_gt_100 (v : Z * nat) : bool :=
  let '(m, k) := v in
  (100 * 2 ^ 47 + 1) * 10 ^ Z.of_nat k <? m * 2 ^ 47.

(** The exact comparison, for reference. *)
Definition exact_gt_100 (v : Z * nat) : bool :=
  let '(m, k) := v in 100 * 10 ^ Z.of_nat k <? m.

(** One turn of the fallback loop: [float(re.sub(...)) > 100], [false]
    also when [float] raises. *)
Definition over_100 (price : string) : bool :=
  match read_decimal (remove_dollar_comma price) with
  | Some v => float_gt_100 v
  | None => false
  end.

(** ** The heuristic extractor: [PriceScraper._find_main_price] *)

Definition or_else {A : Type} (x y : option A) : option A :=
  match x with Some _ => x | None => y end.

Infix "orelse" := or_else (at level 65, right associativity).

Definition AVAILABLE_ON : string := "Available on".
Definition LOGIN_PROMPT : string := "Log in to see if you have coupons".
Definition WAYS_TO_GET : string := "Ways you can get it".

(** [easave = findall(...); if easave: prices = findall(PRICE, easave[-1]);
    if prices: return prices[0]] *)
Definition easave_pattern (search_text : string) : option string :=
  match last (findall PRICE_EASAVE search_text) with
  | Some e => head (findall PRICE e)
  | None => None
  end.

(** [if "FROM" in search_text: ...] *)
Definition from_pattern (search_text : string) : option string :=
  if contains "FROM" search_text then
    let from_idx := rfind "FROM" search_text in
    head (findall PRICE (slice_from search_text from_idx))
  else None.

(** [prices = findall(PRICE, window); if prices: return prices[-1]] *)
Definition last_price (window : string) : option string :=
  last (findall PRICE window).

Definition harvey_norman_window (text : string) : string :=
  let marker_index := find AVAILABLE_ON text in
  slice text (Z.max 0 (marker_index - 500)) marker_index.

Definition harvey_norman_patterns (url_lower text : string) : option string :=
  if contains "harveynorman" url_lower && contains AVAILABLE_ON text then
    let search_text := harvey_norman_window text in
    easave_pattern search_text orelse from_pattern search_text
      orelse last_price search_text
  else None.

Definition login_window (text : string) : string :=
  let idx := find LOGIN_PROMPT text in
  slice text (Z.max 0 (idx - 300)) idx.

Definition login_pattern (text : string) : option string :=
  if contains LOGIN_PROMPT text then last_price (login_window text) else None.

Definition ticket_window (text : string) : string :=
  let idx := find "Ticket" text in
  slice text idx (idx + 100).

Definition ticket_pattern (text : string) : option string :=
  if contains "Ticket" text then
    let numbers := findall NUMBER (ticket_window text) in
    match numbers with
    | _ :: n1 :: _ => Some ("$" +:+ n1)
    | [n0] => Some ("$" +:+ n0)
    | [] => None
    end
  else None.

Definition jbhifi_patterns (url_lower text : string) : option string :=
  if contains "jbhifi" url_lower then
    login_pattern text orelse ticket_pattern text
  else None.

Definition officeworks_window (text : string) : string :=
  let idx := find WAYS_TO_GET text in
  slice text (Z.max 0 (idx - 300)) idx.

Definition officeworks_pattern (url_lower text : string) : option string :=
  if contains "officeworks" url_lower && contains WAYS_TO_GET text then
    last_price (officeworks_window text)
  else None.

(** [for price in all_prices: ... if value > 100: return price] *)
Fixpoint first_over_100 (all_prices : list string) : option string :=
  match all_prices with
  | [] => None
  | price :: rest =>
      if over_100 price then Some price else first_over_100 rest
  end.

(** [return all_prices[0] if all_prices else the empty string] *)
Definition first_or_empty (all_prices : list string) : string :=
  match all_prices with
  | p :: _ => p
  | [] => EmptyString
  end.

(** The tail of the function from [# Fallback] on. *)
Definition generic_fallback (all_prices : list string) : string :=
  match first_over_100 all_prices with
  | Some p => p
  | None => first_or_empty all_prices
  end.

Definition _find_main_price (text : string) (all_prices : list string)
           (url : string) : string :=
  let url_lower := lower url in
  match harvey_norman_patterns url_lower text
        orelse jbhifi_patterns url_lower text
        orelse officeworks_pattern url_lower text with
  | Some p => p
  | None => generic_fallback all_prices
  end.

(** [list(dict.fromkeys(xs))]: the first occurrence of each element, in
    the order of the list. *)
Fixpoint fromkeys (seen : list string) (xs : list string) : list string :=
  match xs with
  | [] => []
  | x :: xs' =>
      if existsb (String.eqb x) seen then fromkeys seen xs'
      else x :: fromkeys (x :: seen) xs'
  end.

(** [list(dict.fromkeys(all_prices))[:10]] *)
Definition dedup_cap (all_prices : list string) : list string :=
  firstn 10 (fromkeys [] all_prices).

(** ** Outcomes of calls that may raise *)

Inductive outcome (A : Type) : Type :=
| Ok (a : A)
| Raise (e : string).
Arguments Ok {A} a.
Arguments Raise {A} e.

(** ** The rendered page, as Playwright answers *)

Record ElementHandle : Type := {
  (** [element.inner_text(timeout=...)], [None] for no timeout given *)
  inner_text : option Z -> outcome string;
  (** [element.get_attribute(name)] *)
  get_attribute : string -> outcome (option string)
}.

Record Page : Type := {
  route : outcome unit;
  goto : string -> Z -> outcome unit;
  wait_for_timeout : Z -> outcome unit;
  query_selector : string -> outcome (option ElementHandle);
  evaluate : string -> outcome string;
  page_close : outcome unit
}.

(** ** The structured extractor: [PriceScraper._extract_structured_price] *)

(** The double quote, kept out of the literals below. *)
Definition dq : string := String (ascii_of_N 34) EmptyString.

Definition JBHIFI_SELECTORS : list string :=
  [ "span[class*=" +:+ dq +:+ "PriceTag_actual" +:+ dq +:+ "]";
    "span[class*=" +:+ dq +:+ "PriceFont_fontStyle" +:+ dq +:+ "]";
    ".price__current";
    "[data-testid=" +:+ dq +:+ "price-display" +:+ dq +:+ "]" ].

Definition GENERIC_SELECTORS : list string :=
  [ "[itemprop=" +:+ dq +:+ "price" +:+ dq +:+ "]";
    "[data-testid*=" +:+ dq +:+ "price" +:+ dq +:+ "]";
    ".price";
    ".product-price";
    ".current-price";
    "meta[itemprop=" +:+ dq +:+ "price" +:+ dq +:+ "]" ].

(** The body of the [try] of the first loop; [Ok None] when it falls
    through to the next selector. *)
Definition jbhifi_probe (page : Page) (selector : string) : outcome (option string) :=
  match query_selector page selector with
  | Raise e => Raise e
  | Ok None => Ok None
  | Ok (Some element) =>
      match inner_text element None with
      | Raise e => Raise e
      | Ok t =>
          let text := strip t in
          match re_match NUMERIC_ONLY text with
          | Some _ => Ok (Some ("$" +:+ text))
          | None => Ok (search PRICE text)
          end
      end
  end.

(** The body of the [try] of the second loop. *)
Definition generic_probe (page : Page) (selector : string) : outcome (option string) :=
  if startswith "meta" selector then
    match query_selector page selector with
    | Raise e => Raise e
    | Ok None => Ok None
    | Ok (Some element) =>
        match get_attribute element "content" with
        | Raise e => Raise e
        | Ok None => Ok None
        | Ok (Some content) =>
            if negb (String.eqb content EmptyString) then
              match re_match NUMERIC_CONTENT content with
              | Some _ => Ok (Some ("$" +:+ content))
              | None => Ok None
              end
            else Ok None
        end
    end
  else
    match query_selector page selector with
    | Raise e => Raise e
    | Ok None => Ok None
    | Ok (Some element) =>
        match inner_text element (Some 200) with
        | Raise e => Raise e
        | Ok text => Ok (search PRICE text)
        end
    end.

(** [for selector in selectors: try: ... except Exception: continue] *)
Fixpoint probe_all (probe : string -> outcome (option string))
         (selectors : list string) : option string :=
  match selectors with
  | [] => None
  | selector :: rest =>
      match probe selector with
      | Ok (Some price) => Some price
      | Ok None => probe_all probe rest
      | Raise _ => probe_all probe rest
      end
  end.

Definition _extract_structured_price (page : Page) (url : string) : string :=
  let url_lower := lower url in
  match (if contains "jbhifi" url_lower
         then probe_all (jbhifi_probe page) JBHIFI_SELECTORS else None)
        orelse probe_all (generic_probe page) GENERIC_SELECTORS with
  | Some price => price
  | None => EmptyString
  end.

(** ** Python values and the heap *)

Inductive val : Type :=
| VNone
| VBool (b : bool)
| VInt (n : Z)
| VStr (s : string)
| VSurrogates (u : surrogates)     (* a str that holds a surrogate *)
| VRef (l : nat).            (* a reference to a dict or a list, by location *)

Inductive obj : Type :=
| ODict (d : gmap string val)
| OList (xs : list val).

(** ** [SimpleCache]

    [_store] is a Python dict, kept in insertion order; an entry is the
    pair [(value, timestamp)]. *)

Record SimpleCache : Type := {
  _ttl : Z;
  _store : list (string * (val * Q))
}.

Fixpoint store_get (key : string) (st : list (string * (val * Q))) : option (val * Q) :=
  match st with
  | [] => None
  | (k, e) :: rest => if String.eqb k key then Some e else store_get key rest
  end.

(** [del store[key]] *)
Fixpoint store_del (key : string) (st : list (string * (val * Q))) : list (string * (val * Q)) :=
  match st with
  | [] => []
  | (k, e) :: rest =>
      if String.eqb k key then store_del key rest else (k, e) :: store_del key rest
  end.

(** [store[key] = e]: an existing key keeps its place, a new one goes last. *)
Fixpoint store_put (key : string) (e : val * Q) (st : list (string * (val * Q))) : list (string * (val * Q)) :=
  match st with
  | [] => [(key, e)]
  | (k, x) :: rest =>
      if String.eqb k key then (k, e) :: rest else (k, x) :: store_put key e rest
  end.

Definition Qltb (a b : Q) : bool := negb (Qle_bool b a).

(** [sorted(items, key=lambda x: x[1][1])], a stable sort. *)
Fixpoint insert_by_time (x : string * (val * Q)) (l : list (string * (val * Q))) : list (string * (val * Q)) :=
  match l with
  | [] => [x]
  | y :: l' =>
      if Qltb (snd (snd y)) (snd (snd x)) then y :: insert_by_time x l'
      else x :: l
  end.

Definition sorted_by_time (l : list (string * (val * Q))) : list (string * (val * Q)) :=
  foldr insert_by_time [] l.

(** [for old_key, _ in items: del store[old_key]] *)
Definition evict (items : list (string * (val * Q))) (st : list (string * (val * Q))) : list (string * (val * Q)) :=
  foldl (fun acc it => store_del (fst it) acc) st items.

(** ** The world outside *)

Record World : Type := {
  (** [hashlib.md5(b).hexdigest()], of the bytes [b] that encode a text *)
  md5_hexdigest : string -> string;
  (** the n-th reading of the clock, as [time.time()] gives it *)
  clock : nat -> Q;
  (** the n-th reading, as [datetime.now(timezone.utc).isoformat()] gives it *)
  isoformat : nat -> string
}.

(** What Playwright does during one request. *)
Record Playwright : Type := {
  start : outcome unit;              (* sync_playwright().start() *)
  launch : outcome unit;             (* playwright.chromium.launch(...) *)
  new_context : outcome unit;        (* browser.new_context(...) *)
  new_page : outcome Page;           (* context.new_page() *)
  context_close : outcome unit;
  browser_close : outcome unit;
  stop : outcome unit
}.

(** Ghost: the components a request calls, in order. *)
Inductive event : Type :=
| Call_cache_get
| Call_cache_set
| Call_extract_structured_price
| Call_find_main_price.

Record state : Type := {
  heap : list obj;
  cache : SimpleCache;               (* the module-level [cache] *)
  ticks : nat;                       (* clock readings taken so far *)
  playwright : bool;                 (* the local [playwright] is set *)
  browser : bool;                    (* the local [browser] is set *)
  events : list event
}.

Definition set_heap (h : list obj) (s : state) : state :=
  {| heap := h; cache := cache s; ticks := ticks s;
     playwright := playwright s; browser := browser s; events := events s |}.

Definition set_store (st : list (string * (val * Q))) (s : state) : state :=
  {| heap := heap s; cache := {| _ttl := _ttl (cache s); _store := st |};
     ticks := ticks s; playwright := playwright s; browser := browser s;
     events := events s |}.

Definition tick (s : state) : state :=
  {| heap := heap s; cache := cache s; ticks := S (ticks s);
     playwright := playwright s; browser := browser s; events := events s |}.

Definition set_playwright (b : bool) (s : state) : state :=
  {| heap := heap s; cache := cache s; ticks := ticks s;
     playwright := b; browser := browser s; events := events s |}.

Definition set_browser (b : bool) (s : state) : state :=
  {| heap := heap s; cache := cache s; ticks := ticks s;
     playwright := playwright s; browser := b; events := events s |}.

Definition add_event (e : event) (s : state) : state :=
  {| heap := heap s; cache := cache s; ticks := ticks s;
     playwright := playwright s; browser := browser s;
     events := events s ++ [e] |}.

(** ** Computations: state, and exceptions that leave the state as it is *)

Definition M (A : Type) : Type := state -> outcome A * state.

Definition ret {A : Type} (a : A) : M A := fun s => (Ok a, s).

Definition bind {A B : Type} (m : M A) (f : A -> M B) : M B :=
  fun s =>
    match m s with
    | (Ok a, s') => f a s'
    | (Raise e, s') => (Raise e, s')
    end.

Notation "x <- m ;; k" := (bind m (fun x => k))
  (at level 100, m at next level, right associativity).
Notation "m ;; k" := (bind m (fun _ => k))
  (at level 100, right associativity).

Definition raise {A : Type} (e : string) : M A := fun s => (Raise e, s).

Definition lift {A : Type} (o : outcome A) : M A := fun s => (o, s).

Definition get_state : M state := fun s => (Ok s, s).

Definition modify (f : state -> state) : M unit := fun s => (Ok tt, f s).

(** [try: m  except Exception as e: h e] *)
Definition try_except {A : Type} (m : M A) (h : string -> M A) : M A :=
  fun s =>
    match m s with
    | (Ok a, s') => (Ok a, s')
    | (Raise e, s') => h e s'
    end.

(** [try: m  finally: f] *)
Definition try_finally {A : Type} (m : M A) (f : M unit) : M A :=
  fun s =>
    let '(r, s') := m s in
    match f s' with
    | (Ok _, s'') => (r, s'')
    | (Raise e, s'') => (Raise e, s'')
    end.

(** [try: m  except Exception: pass] *)
Definition suppress (m : M unit) : M unit := try_except m (fun _ => ret tt).

Definition when (b : bool) (m : M unit) : M unit := if b then m else ret tt.

(** ** Heap operations *)

Definition alloc (o : obj) : M val :=
  fun s => (Ok (VRef (length (heap s))), set_heap (heap s ++ [o]) s).

(** [isinstance(v, dict)] *)
Definition is_dict (h : list obj) (v : val) : bool :=
  match v with
  | VRef l => match h !! l with Some (ODict _) => true | _ => false end
  | _ => false
  end.

(** [bool(v)] *)
Definition truthy (h : list obj) (v : val) : bool :=
  match v with
  | VNone => false
  | VBool b => b
  | VInt n => negb (n =? 0)
  | VStr s => negb (String.eqb s EmptyString)
  | VSurrogates _ => true
  | VRef l =>
      match h !! l with
      | Some (ODict d) => negb (size d =? 0)%nat
      | Some (OList xs) => negb (length xs =? 0)%nat
      | None => true
      end
  end.

(** [value.copy() if isinstance(value, dict) else value] *)
Definition copy_if_dict (value : val) : M val :=
  s <- get_state ;;
  match value with
  | VRef l =>
      match heap s !! l with
      | Some (ODict d) => alloc (ODict d)
      | _ => ret value
      end
  | _ => ret value
  end.

(** [v[k] = x] *)
Definition dict_setitem (v : val) (k : string) (x : val) : M unit :=
  s <- get_state ;;
  match v with
  | VRef l =>
      match heap s !! l with
      | Some (ODict d) => modify (set_heap (<[l := ODict (<[k := x]> d)]> (heap s)))
      | _ => raise "TypeError"
      end
  | _ => raise "TypeError"
  end.

(** [v[k]] *)
Definition dict_getitem (v : val) (k : string) : M val :=
  s <- get_state ;;
  match v with
  | VRef l =>
      match heap s !! l with
      | Some (ODict d) =>
          match d !! k with Some x => ret x | None => raise "KeyError" end
      | _ => raise "TypeError"
      end
  | _ => raise "TypeError"
  end.

(** [v.append(x)] *)
Definition list_append (v : val) (x : val) : M unit :=
  s <- get_state ;;
  match v with
  | VRef l =>
      match heap s !! l with
      | Some (OList xs) => modify (set_heap (<[l := OList (xs ++ [x])]> (heap s)))
      | _ => raise "AttributeError"
      end
  | _ => raise "AttributeError"
  end.

(** ** The clock *)

Definition time_time (w : World) : M Q :=
  fun s => (Ok (clock w (ticks s)), tick s).

Definition utc_now_isoformat (w : World) : M string :=
  fun s => (Ok (isoformat w (ticks s)), tick s).

(** [int(x)]: towards zero *)
Definition py_int (x : Q) : Z := Z.quot (Qnum x) (Zpos (Qden x)).

(** The largest [k] with [2 ** k <= x], for a positive [x]. *)
Definition ilog2 (x : Q) : Z :=
  let k := Z.log2 (Qnum x) - Z.log2 (Zpos (Qden x)) in
  if Qle_bool (2 ^ k) x then k else k - 1.

(** The whole number nearest to [x], the even one of two nearest. *)
Definition round_half_even (x : Q) : Z :=
  let n := Qfloor x in
  match (x - inject_Z n ?= 1 # 2)%Q with
  | Lt => n
  | Gt => n + 1
  | Eq => if Z.even n then n else n + 1
  end.

(** The value of a floating-point operation whose exact result is [x]:
    the double nearest to [x], the even one of two nearest.  A double
    has 53 bits, scaled by a power of two that is not below [2 ** -1074].
    Overflow is left out: the readings of a clock are far from it. *)
Definition double (x : Q) : Q :=
  if Qeq_bool x 0 then 0%Q
  else
    let e := Z.max (-1074) (ilog2 (Qabs x) - 52) in
    (inject_Z (round_half_even (x / 2 ^ e)) * 2 ^ e)%Q.

(** ** [SimpleCache.get] and [SimpleCache.set], on the module-level cache *)

Definition cache_get (w : World) (key : string) : M val :=
  modify (add_event Call_cache_get) ;;
  s <- get_state ;;
  match store_get key (_store (cache s)) with
  | None => ret VNone
  | Some (value, timestamp) =>
      now <- time_time w ;;
      if Qltb (inject_Z (_ttl (cache s))) (now - timestamp) then
        modify (set_store (store_del key (_store (cache s)))) ;;
        ret VNone
      else copy_if_dict value
  end.

Definition cache_set (w : World) (key : string) (value : val) : M unit :=
  modify (add_event Call_cache_set) ;;
  s <- get_state ;;
  when (1000 <? Z.of_nat (length (_store (cache s))))
       (let sorted_items := sorted_by_time (_store (cache s)) in
        modify (set_store (evict (firstn 100 sorted_items) (_store (cache s))))) ;;
  copy <- copy_if_dict value ;;
  now <- time_time w ;;
  s' <- get_state ;;
  modify (set_store (store_put key (copy, now) (_store (cache s')))).

(** ** [ScraperConfig] *)

Definition CACHE_TTL_SECONDS : Z := 300.
Definition NAVIGATION_TIMEOUT : Z := 15000.
Definition DEFAULT_WAIT_MS : Z := 800.
Definition HARVEY_NORMAN_WAIT_MS : Z := 2000.

(** ** [PriceScraper.extract_price] *)

Definition BODY_TEXT_SCRIPT : string :=
  "() => document.body ? document.body.innerText : ''".
Definition TITLE_SCRIPT : string :=
  "() => document.querySelector('h1')?.innerText || document.title || ''".

Definition success_record (url title price : string) (all_prices : val)
           (timestamp : string) (load_time_ms : Z) : gmap string val :=
  <["load_time_ms" := VInt load_time_ms]>
  (<["timestamp" := VStr timestamp]>
  (<["all_prices" := all_prices]>
  (<["price" := VStr price]>
  (<["title" := VStr title]>
  (<["url" := VStr url]>
  (<["success" := VBool true]> ∅)))))).

Definition failure_record (url error timestamp : string) (load_time_ms : Z) : gmap string val :=
  <["load_time_ms" := VInt load_time_ms]>
  (<["timestamp" := VStr timestamp]>
  (<["error" := VStr error]>
  (<["url" := VStr url]>
  (<["success" := VBool false]> ∅)))).

(** The inner [try] block: from [page.route] to [return result]. *)
Definition scrape (w : World) (page : Page) (url cache_key : string) (start_time : Q) : M val :=
  lift (route page) ;;
  lift (goto page url NAVIGATION_TIMEOUT) ;;
  let wait_ms := if contains "harveynorman" (lower url)
                 then HARVEY_NORMAN_WAIT_MS else DEFAULT_WAIT_MS in
  lift (wait_for_timeout page wait_ms) ;;
  modify (add_event Call_extract_structured_price) ;;
  let structured_price := _extract_structured_price page url in
  page_text <- lift (evaluate page BODY_TEXT_SCRIPT) ;;
  title <- lift (evaluate page TITLE_SCRIPT) ;;
  let all_prices := findall PRICE page_text in
  main_price <-
    (if negb (String.eqb structured_price EmptyString) then ret structured_price
     else modify (add_event Call_find_main_price) ;;
          ret (_find_main_price page_text all_prices url)) ;;
  prices <- alloc (OList (map VStr (dedup_cap all_prices))) ;;
  timestamp <- utc_now_isoformat w ;;
  now <- time_time w ;;
  result <- alloc (ODict (success_record url (strip title) main_price prices timestamp
                            (py_int (double ((now - start_time) * 1000))))) ;;
  cache_set w cache_key result ;;
  ret result.

(** The handler [except Exception as e]. *)
Definition on_error (w : World) (url : string) (start_time : Q) (e : string) : M val :=
  timestamp <- utc_now_isoformat w ;;
  now <- time_time w ;;
  alloc (ODict (failure_record url e timestamp (py_int (double ((now - start_time) * 1000))))).

(** The outer [try] block. *)
Definition fetch (w : World) (pw : Playwright) (url cache_key : string) (start_time : Q) : M val :=
  lift (start pw) ;;
  modify (set_playwright true) ;;
  lift (launch pw) ;;
  modify (set_browser true) ;;
  lift (new_context pw) ;;
  page <- lift (new_page pw) ;;
  try_finally (scrape w page url cache_key start_time)
              (suppress (lift (page_close page)) ;;
               suppress (lift (context_close pw))).

(** The outer [finally]. *)
Definition cleanup (pw : Playwright) : M unit :=
  s <- get_state ;;
  when (browser s) (suppress (lift (browser_close pw))) ;;
  when (playwright s) (suppress (lift (stop pw))).

(** The function from [start_time = time.time()] on: what a request
    does when the cache has nothing for it. *)
Definition fetch_and_extract (w : World) (pw : Playwright) (url cache_key : string) : M val :=
  start_time <- time_time w ;;
  modify (set_playwright false) ;;
  modify (set_browser false) ;;
  try_finally
    (try_except (fetch w pw url cache_key start_time)
                (on_error w url start_time))
    (cleanup pw).

(** [url.encode()] comes first, before any [try]: a URL that holds a
    surrogate ends the call there. *)
Definition extract_price (w : World) (pw : Playwright) (url : pystr) : M val :=
  match url with
  | Unencodable u => raise (UnicodeEncodeError u)
  | Text url =>
      let cache_key := md5_hexdigest w url in
      cached <- cache_get w cache_key ;;
      s <- get_state ;;
      if truthy (heap s) cached then
        when (is_dict (heap s) cached) (dict_setitem cached "cache_hit" (VBool true)) ;;
        ret cached
      else fetch_and_extract w pw url cache_key
  end.

(** The loop body of [webhook]: the caller adds two keys to the record it
    is given. *)
Definition webhook_entry (w : World) (pw : Playwright) (pid : val)
           (comp_key : string) (url : pystr) : M val :=
  result <- extract_price w pw url ;;
  dict_setitem result "pid" pid ;;
  dict_setitem result "comp_key" (VStr comp_key) ;;
  ret result.

Definition initial_state : state :=
  {| heap := [];
     cache := {| _ttl := CACHE_TTL_SECONDS; _store := [] |};
     ticks := 0;
     playwright := false;
     browser := false;
     events := [] |}.

(** ** What a value looks like from outside

    [deep_value n h v] follows the references of [v] in the heap [h], to
    depth [n]: two values with the same deep value cannot be told apart
    by reading them. *)

#[warnings="-register-all"]
Inductive tree : Type :=
| TNone
| TBool (b : bool)
| TInt (n : Z)
| TStr (s : string)
| TSurrogates (u : surrogates)
| TDict (items : list (string * tree))
| TList (items : list tree)
| TDangling.

Fixpoint deep_value (depth : nat) (h : list obj) (v : val) : tree :=
  match v with
  | VNone => TNone
  | VBool b => TBool b
  | VInt n => TInt n
  | VStr s => TStr s
  | VSurrogates u => TSurrogates u
  | VRef l =>
      match depth with
      | O => TDangling
      | S depth' =>
          match h !! l with
          | Some (ODict d) =>
              TDict (map (fun kv => (fst kv, deep_value depth' h (snd kv)))
                         (map_to_list d))
          | Some (OList xs) => TList (map (deep_value depth' h) xs)
          | None => TDangling
          end
      end
  end.

(** ** The states the service can be in *)

(** A cache entry as [extract_price] leaves it: a dict with the seven
    keys of a success, whose [all_prices] is a list of its own. *)
Definition entry_ok (h : list obj) (v : val) : Prop :=
  exists l url title price pl ts ms text,
    v = VRef l /\
    h !! l = Some (ODict (success_record url title price (VRef pl) ts ms)) /\
    h !! pl = Some (OList (map VStr (dedup_cap (findall PRICE text)))).

Definition state_ok (s : state) : Prop :=
  Forall (fun kv => entry_ok (heap s) (fst (snd kv))) (_store (cache s)).

(** The states reached from the start of the process by requests, each
    with a browser of its own. *)
Inductive reachable (w : World) : state -> Prop :=
| reachable_start : reachable w initial_state
| reachable_extract s pw url r s' :
    reachable w s ->
    extract_price w pw url s = (r, s') ->
    reachable w s'
| reachable_webhook s pw pid comp_key url r s' :
    reachable w s ->
    webhook_entry w pw pid comp_key url s = (r, s') ->
    reachable w s'.

(** [cache.get(key)] finds an entry that has not expired. *)
Definition served_from_cache (w : World) (url : string) (s : state) : bool :=
  match store_get (md5_hexdigest w url) (_store (cache s)) with
  | Some (_, timestamp) =>
      negb (Qltb (inject_Z (_ttl (cache s))) (clock w (ticks s) - timestamp))
  | None => false
  end.

(** The first exception of the fetch and extract phase, if any step
    raises: the steps of [fetch] and [scrape] in their order. *)
Definition page_failure (page : Page) (url : string) : option string :=
  match route page with
  | Raise e => Some e
  | Ok _ =>
  match goto page url NAVIGATION_TIMEOUT with
  | Raise e => Some e
  | Ok _ =>
  match wait_for_timeout page
          (if contains "harveynorman" (lower url)
           then HARVEY_NORMAN_WAIT_MS else DEFAULT_WAIT_MS) with
  | Raise e => Some e
  | Ok _ =>
  match evaluate page BODY_TEXT_SCRIPT with
  | Raise e => Some e
  | Ok _ =>
  match evaluate page TITLE_SCRIPT with
  | Raise e => Some e
  | Ok _ => None
  end end end end end.

Definition fetch_failure (pw : Playwright) (url : string) : option string :=
  match start pw with
  | Raise e => Some e
  | Ok _ =>
  match launch pw with
  | Raise e => Some e
  | Ok _ =>
  match new_context pw with
  | Raise e => Some e
  | Ok _ =>
  match new_page pw with
  | Raise e => Some e
  | Ok page => page_failure page url
  end end end end.

(** ** Names for what the theorems speak of *)

(** [v[k]] read in the heap [h]; [None] when [v] is no dict or has no
    such key. *)
Definition field (h : list obj) (v : val) (k : string) : option val :=
  match v with
  | VRef l => match h !! l with Some (ODict d) => d !! k | _ => None end
  | _ => None
  end.

(** The items of the list [v] in the heap [h]. *)
Definition list_items (h : list obj) (v : val) : option (list val) :=
  match v with
  | VRef l => match h !! l with Some (OList xs) => Some xs | _ => None end
  | _ => None
  end.

(** The value the cache holds for [key]. *)
Definition stored (key : string) (s : state) : option val :=
  fst <$> store_get key (_store (cache s)).

(** The store as [cache.set] leaves it before it inserts. *)
Definition pruned (st : list (string * (val * Q))) : list (string * (val * Q)) :=
  if 1000 <? Z.of_nat (length st) then evict (firstn 100 (sorted_by_time st)) st else st.

(** [structured_price or _find_main_price(...)] *)
Definition main_price_of (page : Page) (text url : string) : string :=
  if String.eqb (_extract_structured_price page url) EmptyString
  then _find_main_price text (findall PRICE text) url
  else _extract_structured_price page url.

(** Every step of the fetch and extract phase succeeds, and the page
    has this text and this title. *)
Definition fetch_ok (pw : Playwright) (url : string) (page : Page) (text title : string) : Prop :=
  start pw = Ok tt /\ launch pw = Ok tt /\ new_context pw = Ok tt /\ new_page pw = Ok page /\
  route page = Ok tt /\ goto page url NAVIGATION_TIMEOUT = Ok tt /\
  wait_for_timeout page (if contains "harveynorman" (lower url)
                         then HARVEY_NORMAN_WAIT_MS else DEFAULT_WAIT_MS) = Ok tt /\
  evaluate page BODY_TEXT_SCRIPT = Ok text /\
  evaluate page TITLE_SCRIPT = Ok title.

(** The state [cache.get] leaves when it reports absent. *)
Definition after_miss (w : World) (url : string) (s : state) : state :=
  match store_get (md5_hexdigest w url) (_store (cache s)) with
  | None => add_event Call_cache_get s
  | Some _ =>
      set_store (store_del (md5_hexdigest w url) (_store (cache s)))
                (tick (add_event Call_cache_get s))
  end.

(** What a probe yields for a selector: a price, or nothing when the
    element is absent, holds no price, or the query raises. *)
Definition yield (probe : string -> outcome (option string)) (selector : string) : option string :=
  match probe selector with
  | Ok (Some price) => Some price
  | _ => None
  end.

(** A caller that takes a record from the cache and appends to its
    [all_prices] in place. *)
Definition append_to_all_prices (w : World) (key : string) (x : val) : M unit :=
  copy <- cache_get w key ;;
  prices <- dict_getitem copy "all_prices" ;;
  list_append prices x.

(** ** Worlds for the examples *)

(** A clock that advances by one second at each reading, and a
    fingerprint that is the URL itself. *)
Definition demo_world : World :=
  {| md5_hexdigest := fun url => url;
     clock := fun n => inject_Z (Z.of_nat n);
     isoformat := fun _ => "2024-05-01T10:00:00+00:00" |}.

(** The same with a clock that advances by a thousand seconds. *)
Definition slow_world : World :=
  {| md5_hexdigest := fun url => url;
     clock := fun n => inject_Z (1000 * Z.of_nat n);
     isoformat := fun _ => "2024-05-01T10:00:00+00:00" |}.


Definition demo_element (text : string) : ElementHandle :=
  {| inner_text := fun _ => Ok text;
     get_attribute := fun _ => Ok (Some text) |}.

(** A page with a body text, a title, and an element with text for the
    selectors [elements] answers. *)
Definition demo_page (text title : string) (elements : string -> option string) : Page :=
  {| route := Ok tt;
     goto := fun _ _ => Ok tt;
     wait_for_timeout := fun _ => Ok tt;
     query_selector := fun selector => Ok (demo_element <$> elements selector);
     evaluate := fun script => if String.eqb script BODY_TEXT_SCRIPT then Ok text else Ok title;
     page_close := Ok tt |}.

Definition no_element : string -> option string := fun _ => None.

Definition one_element (selector text : string) : string -> option string :=
  fun sel => if String.eqb sel selector then Some text else None.

(** A browser that opens [page] and closes without trouble. *)
Definition demo_browser (page : Page) : Playwright :=
  {| start := Ok tt;
     launch := Ok tt;
     new_context := Ok tt;
     new_page := Ok page;
     context_close := Ok tt;
     browser_close := Ok tt;
     stop := Ok tt |}.

(** A browser whose navigation times out. *)
Definition timeout_page : Page :=
  {| route := Ok tt;
     goto := fun _ _ => Raise "Timeout 15000ms exceeded.";
     wait_for_timeout := fun _ => Ok tt;
     query_selector := fun _ => Ok None;
     evaluate := fun _ => Ok EmptyString;
     page_close := Ok tt |}.

(** The state of the service after one successful request. *)
Definition state_after_first_request : state :=
  snd (extract_price demo_world
         (demo_browser (demo_page "now $250" "Item" no_element))
         "https://shop.example.com/item" initial_state).

(** The items of the [all_prices] of the value the cache holds for [key]. *)
Definition stored_all_prices (key : string) (s : state) : option (list val) :=
  match stored key s with
  | Some v =>
      match field (heap s) v "all_prices" with
      | Some p => list_items (heap s) p
      | None => None
      end
  | None => None
  end.

(** ** The specification's wording, for comparison

    These definitions follow the sentences of the specification, not the
    code; they are what the code is compared with. *)

(** The numeric value of a token exceeds 100. *)
Definition spec_over_100 (price : string) : bool :=
  match read_decimal (remove_dollar_comma price) with
  | Some v => exact_gt_100 v
  | None => false
  end.

(** allPrices(text): all currency tokens, deduplicated in first-occurrence
    order, capped at 10. *)
Definition spec_allPrices (text : string) : list string :=
  dedup_cap (findall PRICE text).

(** Generic fallback: the first token of allPrices above 100, else the
    first token of allPrices, else the empty string. *)
Definition spec_generic_fallback (text : string) : string :=
  let allPrices := spec_allPrices text in
  match List.find spec_over_100 allPrices with
  | Some p => p
  | None => first_or_empty allPrices
  end.

(** Purely numeric: digits and thousands separators, with at most two
    decimal digits. *)
Definition SPEC_NUMERIC : regex :=
  RBegin ;;; RPlus is_digit_or_comma
  ;;; ROpt (RChar "." ;;; ROpt (RSet is_digit ;;; ROpt (RSet is_digit))) ;;; REnd.

(** Steps 3 and 4 of the structured extractor, the same for every
    selector, on the text read for it. *)
Definition spec_steps (text : string) : option string :=
  match re_match SPEC_NUMERIC text with
  | Some _ => Some ("$" +:+ text)
  | None => search PRICE text
  end.

(** Steps 1 and 2: the text of the element, or its content attribute for
    a metadata selector; nothing when the query finds nothing or fails. *)
Definition spec_read (site_specific : bool) (page : Page) (selector : string) : option string :=
  match query_selector page selector with
  | Ok (Some element) =>
      if startswith "meta" selector then
        match get_attribute element "content" with
        | Ok (Some content) => Some content
        | _ => None
        end
      else
        match inner_text element (if site_specific then None else Some 200) with
        | Ok t => Some (if site_specific then strip t else t)
        | Raise _ => None
        end
  | _ => None
  end.

Definition spec_probe (site_specific : bool) (page : Page) (selector : string) : option string :=
  match spec_read site_specific page selector with
  | Some text => spec_steps text
  | None => None
  end.

(** First successful selector wins, site-specific selectors first. *)
Definition spec_structured (page : Page) (url : string) : string :=
  let site := if contains "jbhifi" (lower url) then JBHIFI_SELECTORS else [] in
  match head (omap (spec_probe true page) site ++ omap (spec_probe false page) GENERIC_SELECTORS) with
  | Some p => p
  | None => EmptyString
  end.

(** Class B as the specification words it: the 300 characters before the
    login prompt; else the numeric tokens in the 100 characters after the
    label. *)
Definition spec_class_B (text : string) : option string :=
  if contains LOGIN_PROMPT text then
    let idx := find LOGIN_PROMPT text in
    last (findall PRICE (slice text (Z.max 0 (idx - 300)) idx))
  else if contains "Ticket" text then
    let after := find "Ticket" text + len "Ticket" in
    match findall NUMBER (slice text after (after + 100)) with
    | _ :: n1 :: _ => Some ("$" +:+ n1)
    | [n0] => Some ("$" +:+ n0)
    | [] => None
    end
  else None.

(** Class A as the specification words it: three preferences inside the
    500 characters before the anchor, else the generic fallback. *)
Definition spec_class_A (text : string) (all_prices : list string) : string :=
  let idx := find AVAILABLE_ON text in
  let window := slice text (Z.max 0 (idx - 500)) idx in
  match easave_pattern window orelse from_pattern window orelse last_price window with
  | Some p => p
  | None => generic_fallback all_prices
  end.

(** The index of the first occurrence of [x] in [l]. *)
Fixpoint first_index (x : string) (l : list string) : option nat :=
  match l with
  | [] => None
  | y :: l' =>
      if String.eqb y x then Some 0%nat
      else match first_index x l' with Some i => Some (S i) | None => None end
  end.

(** ** The routes

    A parsed JSON value, as [request.get_json()] returns it: the members
    of an object come in the order of the text and have distinct keys;
    numbers are the integers; a string value may hold surrogates. *)

#[warnings="-register-all"]
Inductive json : Type :=
| JNull
| JBool (b : bool)
| JInt (n : Z)
| JStr (s : pystr)
| JArr (items : list json)
| JObj (members : list (string * json)).

(** [type(j).__name__], as the messages of [AttributeError] and
    [TypeError] spell it *)
Definition type_name (j : json) : string :=
  match j with
  | JNull => "NoneType"
  | JBool _ => "bool"
  | JInt _ => "int"
  | JStr _ => "str"
  | JArr _ => "list"
  | JObj _ => "dict"
  end.

(** [bool(j)] *)
Definition json_truthy (j : json) : bool :=
  match j with
  | JNull => false
  | JBool b => b
  | JInt n => negb (n =? 0)
  | JStr (Text s) => negb (String.eqb s EmptyString)
  | JStr (Unencodable _) => true
  | JArr items => match items with [] => false | _ => true end
  | JObj members => match members with [] => false | _ => true end
  end.

Fixpoint member (key : string) (members : list (string * json)) : option json :=
  match members with
  | [] => None
  | (k, v) :: rest => if String.eqb k key then Some v else member key rest
  end.

(** [data.get(key, default)] *)
Definition json_get (data : json) (key : string) (default : json) : outcome json :=
  match data with
  | JObj members =>
      Ok (match member key members with Some v => v | None => default end)
  | _ => Raise ("'" +:+ type_name data +:+ "' object has no attribute 'get'")
  end.

(** The characters of a [str], each a [str] of length one. *)
Definition character (c : pychar) : pystr :=
  match c with
  | Ch a => Text (String a EmptyString)
  | Su x => Unencodable (Surrogates EmptyString x [])
  end.

Definition characters (s : pystr) : list pystr :=
  match s with
  | Text t => map (fun a => character (Ch a)) (list_ascii_of_string t)
  | Unencodable (Surrogates before first rest) =>
      (map (fun a => character (Ch a)) (list_ascii_of_string before)
       ++ character (Su first) :: map character rest)%list
  end.

(** What [for url_entry in urls] goes through: the items of a list, the
    characters of a string, the keys of a dict. *)
Definition json_iter (urls : json) : outcome (list json) :=
  match urls with
  | JArr items => Ok items
  | JStr s => Ok (map JStr (characters s))
  | JObj members => Ok (map (fun kv : string * json => JStr (fst kv)) members)
  | _ => Raise ("'" +:+ type_name urls +:+ "' object is not iterable")
  end.

(** A parsed value enters the heap where a record comes to hold it. *)
Definition intern_items (intern : json -> list obj -> val * list obj) :
  list json -> list obj -> list val * list obj :=
  fix go l h :=
    match l with
    | [] => ([], h)
    | x :: l' =>
        let '(v, h1) := intern x h in
        let '(vs, h2) := go l' h1 in
        (v :: vs, h2)
    end.

Definition intern_members (intern : json -> list obj -> val * list obj) :
  list (string * json) -> list obj -> gmap string val * list obj :=
  fix go l h :=
    match l with
    | [] => (∅, h)
    | (k, x) :: l' =>
        let '(v, h1) := intern x h in
        let '(d, h2) := go l' h1 in
        (<[k := v]> d, h2)
    end.

Fixpoint intern (j : json) (h : list obj) : val * list obj :=
  match j with
  | JNull => (VNone, h)
  | JBool b => (VBool b, h)
  | JInt n => (VInt n, h)
  | JStr (Text s) => (VStr s, h)
  | JStr (Unencodable u) => (VSurrogates u, h)
  | JArr items =>
      let '(vs, h') := intern_items intern items h in
      (VRef (length h'), (h' ++ [OList vs])%list)
  | JObj members =>
      let '(d, h') := intern_members intern members h in
      (VRef (length h'), (h' ++ [ODict d])%list)
  end.

Definition store_json (j : json) : M val :=
  fun s => let '(v, h) := intern j (heap s) in (Ok v, set_heap h s).

(** What the route reads of the request. *)
Record Request : Type := {
  method : string;                   (* request.method *)
  x_api_key : option string;         (* request.headers.get("X-API-Key") *)
  get_json : outcome json            (* request.get_json() *)
}.

(** What a route returns: the value handed to [jsonify], or the text, and
    the status code. *)
Record response : Type := {
  body : val;
  status : Z
}.

(** [API_KEY and request.headers.get("X-API-Key") != API_KEY]; [API_KEY]
    is [os.environ.get("API_KEY")]. *)
Definition unauthorized (API_KEY : option string) (request : Request) : bool :=
  match API_KEY with
  | None => false
  | Some key =>
      negb (String.eqb key EmptyString)
      && negb (match x_api_key request with
               | Some given => String.eqb given key
               | None => false
               end)
  end.

(** The loop of [webhook]; the i-th element of [urls] is scraped with the
    browser [pw i].  The local list [results] is kept as a list of values
    and enters the heap when the response is built. *)
Fixpoint scrape_urls (w : World) (pw : nat -> Playwright) (pid : val) (i : nat)
         (urls : list json) : M (list val) :=
  match urls with
  | [] => ret []
  | url_entry :: rest =>
      match url_entry with
      | JObj ((comp_key, JStr url) :: _) =>
          result <- webhook_entry w (pw i) pid comp_key url ;;
          results <- scrape_urls w pw pid (S i) rest ;;
          ret (result :: results)
      | JObj ((_, first_value) :: _) =>
          (* [url.encode()] in [extract_price], where [url] is no [str] *)
          raise ("'" +:+ type_name first_value +:+ "' object has no attribute 'encode'")
      | _ => scrape_urls w pw pid (S i) rest
      end
  end.

Definition webhook (w : World) (API_KEY : option string) (pw : nat -> Playwright)
           (request : Request) : M response :=
  if String.eqb (method request) "OPTIONS" then
    ret {| body := VStr EmptyString; status := 204 |}
  else if unauthorized API_KEY request then
    payload <- alloc (ODict (<["error" := VStr "Unauthorized"]>
                            (<["success" := VBool false]> ∅))) ;;
    ret {| body := payload; status := 401 |}
  else
    try_except
      (parsed <- lift (get_json request) ;;
       let data := if json_truthy parsed then parsed else JObj [] in
       pid <- lift (json_get data "pid" JNull) ;;
       urls <- lift (json_get data "urls" (JArr [])) ;;
       if negb (json_truthy urls) then
         received_data <- store_json data ;;
         payload <- alloc (ODict (<["received_data" := received_data]>
                                 (<["error" := VStr "No URLs provided"]>
                                 (<["success" := VBool false]> ∅)))) ;;
         ret {| body := payload; status := 400 |}
       else
         pid <- store_json pid ;;
         entries <- lift (json_iter urls) ;;
         results <- scrape_urls w pw pid 0 entries ;;
         listed <- alloc (OList results) ;;
         timestamp <- utc_now_isoformat w ;;
         payload <- alloc (ODict (<["timestamp" := VStr timestamp]>
                                 (<["results" := listed]>
                                 (<["pid" := pid]> ∅)))) ;;
         ret {| body := payload; status := 200 |})
      (fun e =>
         timestamp <- utc_now_isoformat w ;;
         payload <- alloc (ODict (<["timestamp" := VStr timestamp]>
                                 (<["error" := VStr e]>
                                 (<["success" := VBool false]> ∅)))) ;;
         ret {| body := payload; status := 500 |}).

Definition health (w : World) : M response :=
  s <- get_state ;;
  let cache_size := Z.of_nat (length (_store (cache s))) in
  timestamp <- utc_now_isoformat w ;;
  payload <- alloc (ODict (<["timestamp" := VStr timestamp]>
                          (<["cache_size" := VInt cache_size]>
                          (<["status" := VStr "healthy"]> ∅)))) ;;
  ret {| body := payload; status := 200 |}.

(** The states of the service: from the start of the process, any
    sequence of calls of [webhook] and [health], one after the other.
    The route [home] answers with a constant and takes no part in the
    state. *)
Inductive serving (w : World) (API_KEY : option string) : state -> Prop :=
| serving_start : serving w API_KEY initial_state
| serving_webhook s pw request r s' :
    serving w API_KEY s ->
    webhook w API_KEY pw request s = (r, s') ->
    serving w API_KEY s'
| serving_health s r s' :
    serving w API_KEY s ->
    health w s = (r, s') ->
    serving w API_KEY s'.

(** ** More names for what the theorems speak of *)

(** [a] was stored no later than [b]. *)
Definition older (a b : string * (val * Q)) : Prop := (snd (snd a) <= snd (snd b))%Q.

(** Distinct keys, as in a dict, and no more entries than the limit of
    [set] lets in. *)
Definition store_bounded (st : list (string * (val * Q))) : Prop :=
  NoDup (fst <$> st) /\ (length st <= 1001)%nat.

(** The invariant of the service. *)
Definition service_ok (s : state) : Prop :=
  state_ok s /\ store_bounded (_store (cache s)) /\ _ttl (cache s) = CACHE_TTL_SECONDS.

(** A computation keeps [I], however it ends. *)
Definition preserves (I : state -> Prop) {A : Type} (m : M A) : Prop :=
  forall s, I s -> I (snd (m s)).

(** A price as the service reports it: none, or one that starts with the
    currency symbol. *)
Definition currency_prefixed (price : string) : Prop :=
  price = EmptyString \/ exists rest, price = String "$" rest.

(** [p] occurs in [s]. *)
Definition occurs_in (p s : string) : Prop :=
  exists before after, s = before +:+ p +:+ after.

(** No character of [s] is [c]. *)
Definition chars_differ (c : ascii) (s : string) : Prop :=
  Forall (fun x => x <> c) (list_ascii_of_string s).

(** [page] and [pw], with every call that closes something made to
    succeed. *)
Definition quiet_page (page : Page) : Page :=
  {| route := route page;
     goto := goto page;
     wait_for_timeout := wait_for_timeout page;
     query_selector := query_selector page;
     evaluate := evaluate page;
     page_close := Ok tt |}.

Definition closing_quietly (pw : Playwright) : Playwright :=
  {| start := start pw;
     launch := launch pw;
     new_context := new_context pw;
     new_page := match new_page pw with
                 | Ok page => Ok (quiet_page page)
                 | Raise e => Raise e
                 end;
     context_close := Ok tt;
     browser_close := Ok tt;
     stop := Ok tt |}.

(** The elements of [urls] the loop of [webhook] scrapes: the objects
    that are not empty, each with its first key and first value. *)
Fixpoint scraped (urls : list json) : list (string * json) :=
  match urls with
  | [] => []
  | JObj (first :: _) :: rest => first :: scraped rest
  | _ :: rest => scraped rest
  end.

(** The first value of a scraped entry is a string, and one that can be
    encoded. *)
Definition names_url (kv : string * json) : Prop := exists url : string, snd kv = JStr url.

(** [str(e)] for what [extract_price] raises at [url.encode()] when it
    is given a first value that is no such string. *)
Definition encode_error (first_value : json) : string :=
  match first_value with
  | JStr (Unencodable u) => UnicodeEncodeError u
  | _ => "'" +:+ type_name first_value +:+ "' object has no attribute 'encode'"
  end.

(** A record as the loop of [webhook] leaves it. *)
Definition tagged (h : list obj) (pid : val) (comp_key : string) (r : val) : Prop :=
  field h r "pid" = Some pid /\
  field h r "comp_key" = Some (VStr comp_key) /\
  exists b, field h r "success" = Some (VBool b).

(** ** More examples *)

(** A store at the size where [set] evicts: 1001 entries, the i-th put
    at second i. *)
Definition key_of (i : nat) : string :=
  String (ascii_of_nat (i / 256)) (String (ascii_of_nat (i mod 256)) EmptyString).

Definition full_store : list (string * (val * Q)) :=
  map (fun i => (key_of i, (VNone, inject_Z (Z.of_nat i)))) (seq 0 1001).

Definition full_state : state := set_store full_store initial_state.

(** A POST without a key, with this body. *)
Definition demo_request (parsed : json) : Request :=
  {| method := "POST"; x_api_key := None; get_json := Ok parsed |}.

Definition demo_body : json :=
  JObj [("pid", JStr "P-1");
        ("urls", JArr [JObj [("comp1_url", JStr "https://shop.example.com/item")];
                       JStr "not an entry";
                       JObj []])].


(** A URL that ends with the surrogate U+D800, as the JSON text
    ["https://shop.example.com/\ud800"] gives it, and a body that names
    it after a URL that can be encoded. *)
Definition surrogate_url : pystr :=
  Unencodable (Surrogates "https://shop.example.com/" (Surrogate D8 Ascii.zero) []).

Definition demo_body_with_surrogate : json :=
  JObj [("pid", JStr "P-1");
        ("urls", JArr [JObj [("comp1_url", JStr "https://shop.example.com/item")];
                       JObj [("comp2_url", JStr surrogate_url)]])].

Definition demo_browsers : nat -> Playwright :=
  fun _ => demo_browser (demo_page "now $250" "Item" no_element).

(** The state of the service after one call of the webhook. *)
Definition state_after_webhook : state :=
  snd (webhook demo_world None demo_browsers (demo_request demo_body) initial_state).

(* ================================================================== *)
(** * Part II: properties *)
(* ================================================================== *)

Open Scope list_scope.

Arguments success_record : simpl never.
Arguments failure_record : simpl never.
Arguments findall : simpl never.
Arguments dedup_cap : simpl never.
Arguments _find_main_price : simpl never.
Arguments _extract_structured_price : simpl never.
Arguments strip : simpl never.
Arguments py_int : simpl never.
Arguments double : simpl never.
Arguments contains : simpl never.
Arguments lower : simpl never.
Arguments Qltb : simpl never.
Arguments sorted_by_time : simpl never.
Arguments evict : simpl never.
Arguments store_put : simpl never.
Arguments store_del : simpl never.
Arguments store_get : simpl never.
Arguments field : simpl never.
Arguments deep_value : simpl never.

(** ** Lists of tokens *)

Section Tokens.
Implicit Types (x y : string) (seen xs raw : list string).

Lemma seen_true x seen : existsb (String.eqb x) seen = true <-> x ∈ seen.
Proof.
  rewrite existsb_exists. split.
  - intros (y & Hy & E). apply String.eqb_eq in E. subst y. by apply list_elem_of_In.
  - intros H. exists x. split; [by apply list_elem_of_In | apply String.eqb_refl].
Qed.

Lemma seen_false x seen : existsb (String.eqb x) seen = false <-> x ∉ seen.
Proof.
  rewrite <- seen_true. destruct (existsb (String.eqb x) seen); split; congruence.
Qed.

Lemma fromkeys_elem x seen xs :
  x ∈ fromkeys seen xs <-> x ∈ xs /\ x ∉ seen.
Proof.
  revert seen. induction xs as [|z xs IH]; intros seen; simpl.
  - split; [intros H; inversion H | intros [H _]; inversion H].
  - destruct (existsb (String.eqb z) seen) eqn:E.
    + apply seen_true in E. rewrite IH, elem_of_cons. split.
      * intros [H1 H2]. auto.
      * intros [[-> | H1] H2]; [contradiction | auto].
    + apply seen_false in E. rewrite !elem_of_cons, IH, elem_of_cons. split.
      * intros [-> | [H1 H2]]; [auto | ]. split; [auto | ]. intros H. apply H2. auto.
      * intros [[-> | H1] H2]; [auto | ].
        destruct (decide (x = z)) as [-> | Hne]; [auto | ]. right. split; [done | ].
        intros [? | ?]; contradiction.
Qed.

Lemma fromkeys_NoDup seen xs : NoDup (fromkeys seen xs).
Proof.
  revert seen. induction xs as [|z xs IH]; intros seen; simpl.
  - constructor.
  - destruct (existsb (String.eqb z) seen); [apply IH | ].
    apply NoDup_cons. split; [ | apply IH].
    rewrite fromkeys_elem. intros [_ H]. apply H. left.
Qed.

Lemma first_index_cons_ne x z xs :
  z <> x -> first_index x (z :: xs) = S <$> first_index x xs.
Proof.
  intros Hne. simpl. destruct (String.eqb z x) eqn:E.
  - apply String.eqb_eq in E. contradiction.
  - by destruct (first_index x xs).
Qed.

Lemma first_index_Some x xs a :
  first_index x xs = Some a ->
  xs !! a = Some x /\ forall b, (b < a)%nat -> xs !! b <> Some x.
Proof.
  revert a. induction xs as [|z xs IH]; intros a; simpl; [discriminate | ].
  destruct (String.eqb z x) eqn:E.
  - intros [= <-]. apply String.eqb_eq in E. subst. split; [done | lia].
  - destruct (first_index x xs) as [i|]; [ | discriminate].
    intros [= <-]. destruct (IH i eq_refl) as [H1 H2]. split; [done | ].
    intros [|b] Hb; simpl.
    + intros [= ->]. rewrite String.eqb_refl in E. discriminate.
    + apply H2. lia.
Qed.

Lemma fromkeys_order seen xs i j x y :
  fromkeys seen xs !! i = Some x ->
  fromkeys seen xs !! j = Some y ->
  (i < j)%nat ->
  exists a b, first_index x xs = Some a /\ first_index y xs = Some b /\ (a < b)%nat.
Proof.
  revert seen i j. induction xs as [|z xs IH]; intros seen i j; simpl; [discriminate | ].
  destruct (existsb (String.eqb z) seen) eqn:E.
  - intros Hx Hy Hlt. apply seen_true in E.
    destruct (IH _ _ _ Hx Hy Hlt) as (a & b & Ha & Hb & Hab).
    assert (Hzx : z <> x).
    { intros ->. apply list_elem_of_lookup_2 in Hx. apply fromkeys_elem in Hx. tauto. }
    assert (Hzy : z <> y).
    { intros ->. apply list_elem_of_lookup_2 in Hy. apply fromkeys_elem in Hy. tauto. }
    exists (S a), (S b).
    change (first_index x (z :: xs) = Some (S a) /\ first_index y (z :: xs) = Some (S b) /\ (S a < S b)%nat).
    rewrite !first_index_cons_ne, Ha, Hb by done. simpl. repeat split; lia.
  - intros Hx Hy Hlt. destruct j as [|j]; [lia | ]. simpl in Hy.
    assert (Hzy : z <> y).
    { intros ->. apply list_elem_of_lookup_2 in Hy. apply fromkeys_elem in Hy.
      destruct Hy as [_ Hy]. apply Hy. left. }
    destruct i as [|i]; simpl in Hx.
    + injection Hx as ->. rewrite String.eqb_refl.
      assert (Hin : y ∈ xs).
      { apply list_elem_of_lookup_2 in Hy. apply fromkeys_elem in Hy. tauto. }
      assert (exists b, first_index y xs = Some b) as [b Hb].
      { clear -Hin. induction Hin as [y xs | y z xs Hin IH]; simpl.
        - rewrite String.eqb_refl. eauto.
        - destruct (String.eqb z y); [eauto | ]. destruct IH as [b ->]. eauto. }
      exists 0%nat, (S b). destruct (String.eqb x y) eqn:E2.
      * apply String.eqb_eq in E2. contradiction.
      * rewrite Hb. repeat split; lia.
    + destruct (IH _ _ _ Hx Hy ltac:(lia)) as (a & b & Ha & Hb & Hab).
      assert (Hzx : z <> x).
      { intros ->. apply list_elem_of_lookup_2 in Hx. apply fromkeys_elem in Hx.
        destruct Hx as [_ Hx]. apply Hx. left. }
      exists (S a), (S b).
      change (first_index x (z :: xs) = Some (S a) /\ first_index y (z :: xs) = Some (S b) /\ (S a < S b)%nat).
      rewrite !first_index_cons_ne, Ha, Hb by done. simpl. repeat split; lia.
Qed.

(** What [list(dict.fromkeys(raw))[:10]] keeps of [raw]. *)
Lemma dedup_cap_spec raw :
  NoDup (dedup_cap raw) /\
  (length (dedup_cap raw) <= 10)%nat /\
  (forall x, x ∈ dedup_cap raw -> x ∈ raw) /\
  (forall i j x y,
      dedup_cap raw !! i = Some x -> dedup_cap raw !! j = Some y -> (i < j)%nat ->
      exists a b, first_index x raw = Some a /\ first_index y raw = Some b /\ (a < b)%nat) /\
  (forall x, x ∈ raw -> x ∈ dedup_cap raw \/ length (dedup_cap raw) = 10%nat).
Proof.
  unfold dedup_cap. repeat split.
  - eapply sublist_NoDup; [apply fromkeys_NoDup | apply sublist_take].
  - rewrite length_take. lia.
  - intros x Hx. apply elem_of_take in Hx as (i & Hx & _).
    apply list_elem_of_lookup_2 in Hx. apply fromkeys_elem in Hx. tauto.
  - intros i j x y Hx Hy Hlt.
    apply lookup_take_Some in Hx as [Hx _]. apply lookup_take_Some in Hy as [Hy _].
    eapply fromkeys_order; eauto.
  - intros x Hx.
    destruct (decide (length (fromkeys [] raw) <= 10)%nat) as [Hle | Hgt].
    + left. rewrite take_ge by done. apply fromkeys_elem. split; [done | ]. inversion 1.
    + right. rewrite length_take. lia.
Qed.

Lemma first_or_empty_dedup_cap raw :
  first_or_empty (dedup_cap raw) = first_or_empty raw.
Proof. destruct raw as [|x raw]; reflexivity. Qed.

Lemma first_over_100_Some all_prices p :
  first_over_100 all_prices = Some p <->
  exists i, all_prices !! i = Some p /\ over_100 p = true /\
            forall j q, (j < i)%nat -> all_prices !! j = Some q -> over_100 q = false.
Proof.
  induction all_prices as [|z l IH]; simpl.
  - split; [discriminate | intros (i & H & _); discriminate].
  - destruct (over_100 z) eqn:E.
    + split.
      * intros [= <-]. exists 0%nat. repeat split; [done | ]. intros; lia.
      * intros ([|i] & H & Hp & Hmin); simpl in H; [congruence | ].
        specialize (Hmin 0%nat z ltac:(lia) eq_refl). congruence.
    + rewrite IH. split.
      * intros (i & H & Hp & Hmin). exists (S i). repeat split; [done.. | ].
        intros [|j] q Hj Hq; simpl in Hq; [congruence | ]. eapply Hmin; [ | done]. lia.
      * intros ([|i] & H & Hp & Hmin); simpl in H; [congruence | ].
        exists i. repeat split; [done.. | ]. intros j q Hj Hq. apply (Hmin (S j)); [lia | done].
Qed.

Lemma first_over_100_None all_prices :
  first_over_100 all_prices = None <-> forall p, p ∈ all_prices -> over_100 p = false.
Proof.
  induction all_prices as [|z l IH]; simpl.
  - split; [intros _ p H; inversion H | done].
  - destruct (over_100 z) eqn:E.
    + split; [discriminate | ]. intros H. specialize (H z ltac:(left)). congruence.
    + rewrite IH. split.
      * intros H p Hp. apply elem_of_cons in Hp as [-> | Hp]; auto.
      * intros H p Hp. apply H. by right.
Qed.
End Tokens.

(** ** Slices and windows *)

Section Slices.
Implicit Types (s needle text : string) (a b c e m : nat).

Lemma substring_all s : String.substring 0 (String.length s) s = s.
Proof. induction s as [|ch s IH]; simpl; [reflexivity | by rewrite IH]. Qed.

Lemma substring_length s a m :
  String.length (String.substring a m s) = Nat.min m (String.length s - a).
Proof.
  revert a m. induction s as [|ch s IH]; intros a m.
  - destruct a, m; simpl; lia.
  - destruct a as [|a].
    + destruct m as [|m]; simpl; [reflexivity | ]. rewrite IH. lia.
    + simpl. rewrite IH. reflexivity.
Qed.

(** The part from [b] to [e] is the part from [b] to [c] followed by
    the part from [c] to [e]. *)
Lemma substring_cut s b c e :
  (b <= c)%nat -> (c <= e)%nat -> (e <= String.length s)%nat ->
  String.substring b (e - b) s
  = String.substring b (c - b) s +:+ String.substring c (e - c) s.
Proof.
  revert b c e. induction s as [|ch s IH]; intros b c e Hbc Hce He.
  - simpl in He. assert (e = 0%nat) by lia. assert (c = 0%nat) by lia.
    assert (b = 0%nat) by lia. subst. reflexivity.
  - destruct b as [|b].
    + destruct c as [|c].
      * rewrite Nat.sub_0_r. reflexivity.
      * destruct e as [|e]; [lia | ]. simpl in He. simpl.
        specialize (IH 0%nat c e ltac:(lia) ltac:(lia) ltac:(lia)).
        rewrite !Nat.sub_0_r in IH. rewrite IH. reflexivity.
    + destruct c as [|c]; [lia | ]. destruct e as [|e]; [lia | ].
      simpl in He. simpl. apply IH; lia.
Qed.

(** A string is the part before [a], the part from [a] to [b] and the
    rest. *)
Lemma substring_split s a b :
  (a <= b)%nat -> (b <= String.length s)%nat ->
  s = String.substring 0 a s +:+ String.substring a (b - a) s
      +:+ String.substring b (String.length s - b) s.
Proof.
  intros Hab Hb.
  rewrite <- (substring_cut s a b (String.length s)) by lia.
  pose proof (substring_cut s 0 a (String.length s) ltac:(lia) ltac:(lia) ltac:(lia)) as H.
  rewrite !Nat.sub_0_r, substring_all in H. exact H.
Qed.

Lemma find_occurrence needle text :
  needle <> EmptyString ->
  contains needle text = true ->
  exists i, find needle text = Z.of_nat i /\
            String.substring i (String.length needle) text = needle /\
            (i + String.length needle <= String.length text)%nat /\
            forall j, (j < i)%nat -> String.substring j (String.length needle) text <> needle.
Proof.
  intros Hne Hc. unfold contains, find in *.
  destruct (String.index 0 needle text) as [i|] eqn:E; [ | discriminate].
  exists i. split; [reflexivity | ].
  pose proof (index_correct1 _ _ _ _ E) as H1.
  split; [exact H1 | ]. split.
  - pose proof (substring_length text i (String.length needle)) as HL.
    rewrite H1 in HL.
    assert (0 < String.length needle)%nat by (destruct needle; [contradiction | simpl; lia]).
    lia.
  - intros j Hj. eapply index_correct2; [exact E | lia | exact Hj].
Qed.

(** [text[max(0, i - n):i]], for [i] the place of the first [needle],
    is the text of the [n] characters that end where the needle starts
    (fewer when the needle comes earlier than [n]). *)
Lemma window_before needle text (n : Z) :
  needle <> EmptyString -> 0 <= n ->
  contains needle text = true ->
  let i := find needle text in
  let window := slice text (Z.max 0 (i - n)) i in
  exists before after,
    text = before +:+ window +:+ needle +:+ after /\
    len before + len window = i /\
    len window = Z.min n i /\
    forall j, (j < Z.to_nat i)%nat ->
              String.substring j (String.length needle) text <> needle.
Proof.
  intros Hne Hn Hc i window.
  destruct (find_occurrence needle text Hne Hc) as (k & Hk & Hsub & Hlen & Hfirst).
  subst i window. rewrite Hk.
  set (L := String.length needle) in *.
  set (a := Z.to_nat (Z.max 0 (Z.of_nat k - n))).
  assert (Hw : slice text (Z.max 0 (Z.of_nat k - n)) (Z.of_nat k)
               = String.substring a (k - a) text).
  { unfold slice, clip, len.
    destruct (Z.ltb_spec (Z.max 0 (Z.of_nat k - n)) 0); [lia | ].
    destruct (Z.ltb_spec (Z.of_nat k) 0); [lia | ].
    rewrite !Z.min_l by lia. f_equal. lia. }
  rewrite Hw.
  exists (String.substring 0 a text),
         (String.substring (k + L) (String.length text - (k + L)) text).
  split.
  { pose proof (substring_split text a k ltac:(lia) ltac:(lia)) as H.
    rewrite (substring_cut text k (k + L) (String.length text)) in H by lia.
    replace (k + L - k)%nat with L in H by lia.
    rewrite Hsub in H. exact H. }
  unfold len. rewrite !substring_length. repeat split; try lia.
  intros j Hj. apply Hfirst. lia.
Qed.

(** [text[i:i + n]], for [i] the place of the first [needle], starts
    with the needle: these are [n] characters from the start of the
    needle on, the needle counted. *)
Lemma window_from needle text (n : Z) :
  needle <> EmptyString -> len needle <= n ->
  contains needle text = true ->
  let i := find needle text in
  let window := slice text i (i + n) in
  exists before rest after,
    text = before +:+ window +:+ after /\
    window = needle +:+ rest /\
    len before = i /\
    len window = Z.min n (len text - i).
Proof.
  intros Hne Hn Hc i window.
  destruct (find_occurrence needle text Hne Hc) as (k & Hk & Hsub & Hlen & _).
  subst i window. rewrite Hk. unfold len in Hn.
  set (L := String.length needle) in *.
  set (e := Nat.min (k + Z.to_nat n) (String.length text)).
  assert (He : slice text (Z.of_nat k) (Z.of_nat k + n)
               = String.substring k (e - k) text).
  { unfold slice, clip, len.
    destruct (Z.ltb_spec (Z.of_nat k) 0); [lia | ].
    destruct (Z.ltb_spec (Z.of_nat k + n) 0); [lia | ].
    f_equal; lia. }
  rewrite He.
  exists (String.substring 0 k text),
         (String.substring (k + L) (e - (k + L)) text),
         (String.substring e (String.length text - e) text).
  split; [apply substring_split; lia | ].
  split.
  { rewrite (substring_cut text k (k + L) e) by lia.
    replace (k + L - k)%nat with L by lia. by rewrite Hsub. }
  unfold len. rewrite !substring_length. split; lia.
Qed.
End Slices.

(** ** [float] and the threshold *)

(** For a numeral with at most fourteen decimals the double is above 100
    exactly when the number is. *)
Lemma float_gt_100_exact (m : Z) (k : nat) :
  (k <= 14)%nat -> float_gt_100 (m, k) = exact_gt_100 (m, k).
Proof.
  intros Hk. unfold float_gt_100, exact_gt_100.
  assert (H0 : 0 < 10 ^ Z.of_nat k) by (apply Z.pow_pos_nonneg; lia).
  assert (H1 : 10 ^ Z.of_nat k <= 10 ^ 14) by (apply Z.pow_le_mono_r; lia).
  assert (H2 : 10 ^ 14 < 2 ^ 47) by reflexivity.
  set (p := 10 ^ Z.of_nat k) in *. set (q := 2 ^ 47) in *.
  assert (Hq : 0 < q) by reflexivity.
  destruct (Z.ltb_spec (100 * p) m) as [Hm | Hm];
    destruct (Z.ltb_spec ((100 * q + 1) * p) (m * q)) as [Hf | Hf];
    try reflexivity; exfalso; nia.
Qed.

Example float_rounds_to_100 :
  over_100 "$100.000000000000001" = false /\
  spec_over_100 "$100.000000000000001" = true /\
  over_100 "$100.01" = true.
Proof. repeat split; vm_compute; reflexivity. Qed.

(** ** The heuristic extractor *)

Lemma or_else_None {A : Type} (x y : option A) :
  x orelse y = None <-> x = None /\ y = None.
Proof.
  destruct x; simpl.
  - split; [discriminate | intros [H _]; discriminate].
  - tauto.
Qed.

Lemma or_else_Some_l {A : Type} (x y : option A) (a : A) :
  x = Some a -> x orelse y = Some a.
Proof. intros ->. reflexivity. Qed.

Lemma or_else_None_l {A : Type} (x y : option A) :
  x = None -> x orelse y = y.
Proof. intros ->. reflexivity. Qed.

(** The windows of the site rules: the 500 characters before the first
    anchor of class A, the 300 characters before the first login prompt,
    and the 100 characters that begin with the first [Ticket] label. *)
Lemma harvey_norman_window_before (text : string) :
  contains AVAILABLE_ON text = true ->
  exists before after,
    text = before +:+ harvey_norman_window text +:+ AVAILABLE_ON +:+ after /\
    len (harvey_norman_window text) = Z.min 500 (find AVAILABLE_ON text).
Proof.
  intros H.
  destruct (window_before AVAILABLE_ON text 500 ltac:(discriminate) ltac:(lia) H)
    as (before & after & E & _ & L & _).
  exists before, after. split; [exact E | exact L].
Qed.

Lemma login_window_before (text : string) :
  contains LOGIN_PROMPT text = true ->
  exists before after,
    text = before +:+ login_window text +:+ LOGIN_PROMPT +:+ after /\
    len (login_window text) = Z.min 300 (find LOGIN_PROMPT text).
Proof.
  intros H.
  destruct (window_before LOGIN_PROMPT text 300 ltac:(discriminate) ltac:(lia) H)
    as (before & after & E & _ & L & _).
  exists before, after. split; [exact E | exact L].
Qed.

Lemma ticket_window_from (text : string) :
  contains "Ticket" text = true ->
  exists before rest after,
    text = before +:+ ticket_window text +:+ after /\
    ticket_window text = "Ticket" +:+ rest /\
    len before = find "Ticket" text /\
    len (ticket_window text) = Z.min 100 (len text - find "Ticket" text).
Proof.
  intros H.
  exact (window_from "Ticket" text 100 ltac:(discriminate) ltac:(vm_compute; discriminate) H).
Qed.

Section Heuristic.
Variables (text : string) (all_prices : list string) (url : string).

(** When no site rule yields a price the result is the generic fallback. *)
Lemma find_main_price_fallback :
  harvey_norman_patterns (lower url) text = None ->
  jbhifi_patterns (lower url) text = None ->
  officeworks_pattern (lower url) text = None ->
  _find_main_price text all_prices url = generic_fallback all_prices.
Proof. unfold _find_main_price. intros -> -> ->. reflexivity. Qed.

Lemma find_main_price_harvey_norman p :
  harvey_norman_patterns (lower url) text = Some p ->
  _find_main_price text all_prices url = p.
Proof. unfold _find_main_price. intros ->. reflexivity. Qed.

Lemma find_main_price_jbhifi p :
  harvey_norman_patterns (lower url) text = None ->
  jbhifi_patterns (lower url) text = Some p ->
  _find_main_price text all_prices url = p.
Proof. unfold _find_main_price. intros -> ->. reflexivity. Qed.
End Heuristic.

(** C3, as amended: when no site rule yields a price, the heuristic
    extractor, called as [extract_price] calls it, returns the first token
    of the whole sequence of currency tokens of the text (in text order,
    neither deduplicated nor capped) that [float] reads above 100; when no
    token is above 100, the first token of the sequence, which is also the
    first token of the capped sequence; and the empty string when the text
    has no token. *)
Theorem generic_fallback_first_over_100 (text url : string) :
  harvey_norman_patterns (lower url) text = None ->
  jbhifi_patterns (lower url) text = None ->
  officeworks_pattern (lower url) text = None ->
  let raw := findall PRICE text in
  let result := _find_main_price text raw url in
  (forall i p,
      raw !! i = Some p -> over_100 p = true ->
      (forall j q, (j < i)%nat -> raw !! j = Some q -> over_100 q = false) ->
      result = p) /\
  ((forall p, p ∈ raw -> over_100 p = false) ->
      result = first_or_empty raw /\ result = first_or_empty (dedup_cap raw)) /\
  (raw = [] -> result = EmptyString).
Proof.
  intros HA HB HC raw result.
  assert (E : result = generic_fallback raw)
    by (apply find_main_price_fallback; assumption).
  rewrite E. unfold generic_fallback. repeat split.
  - intros i p Hi Hp Hmin.
    assert (H : first_over_100 raw = Some p)
      by (apply first_over_100_Some; exists i; auto).
    rewrite H. reflexivity.
  - apply first_over_100_None in H. rewrite H. reflexivity.
  - apply first_over_100_None in H. rewrite H. symmetry. apply first_or_empty_dedup_cap.
  - intros ->. reflexivity.
Qed.

(** C3, an instance: three tokens, the second is the first above 100. *)
Lemma generic_fallback_first_over_100_witness :
  _find_main_price "was $45.00 now $199.99 plus $12.50 delivery"
    (findall PRICE "was $45.00 now $199.99 plus $12.50 delivery")
    "https://shop.example.com/item" = "$199.99".
Proof.
  refine (proj1 (generic_fallback_first_over_100
                   "was $45.00 now $199.99 plus $12.50 delivery"
                   "https://shop.example.com/item" _ _ _) 1%nat "$199.99" _ _ _).
  - reflexivity.
  - reflexivity.
  - reflexivity.
  - reflexivity.
  - reflexivity.
  - intros [|[|j]] q Hj Hq; [ | lia | lia].
    vm_compute in Hq. injection Hq as <-. reflexivity.
Defined.

(** C3, as stated, fails: with eleven distinct tokens below 100 before
    one above, no site rule applies, the code returns the twelfth token
    and the capped sequence of the specification gives its first. *)
Lemma generic_fallback_cap_counterexample :
  harvey_norman_patterns (lower "https://shop.example.com/item")
    "$1 $2 $3 $4 $5 $6 $7 $8 $9 $10 $11 $250" = None /\
  jbhifi_patterns (lower "https://shop.example.com/item")
    "$1 $2 $3 $4 $5 $6 $7 $8 $9 $10 $11 $250" = None /\
  officeworks_pattern (lower "https://shop.example.com/item")
    "$1 $2 $3 $4 $5 $6 $7 $8 $9 $10 $11 $250" = None /\
  _find_main_price "$1 $2 $3 $4 $5 $6 $7 $8 $9 $10 $11 $250"
    (findall PRICE "$1 $2 $3 $4 $5 $6 $7 $8 $9 $10 $11 $250")
    "https://shop.example.com/item" = "$250" /\
  spec_generic_fallback "$1 $2 $3 $4 $5 $6 $7 $8 $9 $10 $11 $250" = "$1".
Proof. repeat split; vm_compute; reflexivity. Qed.

(** C5, as amended: for a URL of class B on which the class A rule
    yields nothing, the last currency token of the 300 characters before
    the first login prompt is returned when there is one; when the prompt
    is absent or that window holds no token, the numeric tokens of the 100
    characters that start at the first [Ticket] label (the label counted)
    decide: the second one, or the only one, prefixed with the currency
    symbol. *)
Theorem class_B_rules (text : string) (all_prices : list string) (url : string) :
  contains "jbhifi" (lower url) = true ->
  harvey_norman_patterns (lower url) text = None ->
  let result := _find_main_price text all_prices url in
  let login := find LOGIN_PROMPT text in
  let login_tokens := findall PRICE (slice text (Z.max 0 (login - 300)) login) in
  let ticket := find "Ticket" text in
  let numbers := findall NUMBER (slice text ticket (ticket + 100)) in
  (contains LOGIN_PROMPT text = true ->
     forall p, last login_tokens = Some p -> result = p) /\
  ((contains LOGIN_PROMPT text = false \/ login_tokens = []) ->
     contains "Ticket" text = true ->
     (forall n0 n1 rest, numbers = n0 :: n1 :: rest -> result = "$" +:+ n1) /\
     (forall n0, numbers = [n0] -> result = "$" +:+ n0)).
Proof.
  intros Hjb HA result login login_tokens ticket numbers.
  assert (Hlogin : forall p, login_pattern text = Some p -> result = p).
  { intros p Hp. apply find_main_price_jbhifi; [done | ].
    unfold jbhifi_patterns. rewrite Hjb, Hp. reflexivity. }
  assert (Hticket : forall p, login_pattern text = None -> ticket_pattern text = Some p -> result = p).
  { intros p Hl Hp. apply find_main_price_jbhifi; [done | ].
    unfold jbhifi_patterns. rewrite Hjb, Hl, Hp. reflexivity. }
  split.
  - intros Hc p Hp. apply Hlogin. unfold login_pattern. rewrite Hc. exact Hp.
  - intros Hno Ht.
    assert (Hl : login_pattern text = None).
    { unfold login_pattern. destruct Hno as [-> | Hnil]; [done | ].
      destruct (contains LOGIN_PROMPT text); [ | done].
      unfold last_price, login_window. fold login. fold login_tokens. rewrite Hnil. reflexivity. }
    split.
    + intros n0 n1 rest E. apply Hticket; [done | ].
      unfold ticket_pattern. rewrite Ht. unfold ticket_window. fold ticket. fold numbers.
      rewrite E. reflexivity.
    + intros n0 E. apply Hticket; [done | ].
      unfold ticket_pattern. rewrite Ht. unfold ticket_window. fold ticket. fold numbers.
      rewrite E. reflexivity.
Qed.

(** C5, an instance: scenario B of the specification. *)
Lemma class_B_rules_witness :
  _find_main_price "Ticket $129.00 $89.00 save now" [] "https://www.jbhifi.com.au/products/tv"
  = "$89.00".
Proof.
  refine (proj1 (proj2 (class_B_rules "Ticket $129.00 $89.00 save now" []
                          "https://www.jbhifi.com.au/products/tv" _ _) _ _)
                "129.00" "89.00" [] _).
  - reflexivity.
  - reflexivity.
  - left. reflexivity.
  - reflexivity.
  - reflexivity.
Defined.

(** C5, as stated, fails: the window of the code is the 100 characters
    from the label on, not the 100 characters after it.  Here the number
    [99] lies in the second window and not in the first. *)
Lemma class_B_window_counterexample :
  contains "jbhifi" (lower "https://www.jbhifi.com.au/products/tv") = true /\
  _find_main_price
    "Ticket price as marked in store today and may differ online hence please ask our staff for help 1234 99"
    (findall PRICE
       "Ticket price as marked in store today and may differ online hence please ask our staff for help 1234 99")
    "https://www.jbhifi.com.au/products/tv" = "$1234" /\
  spec_class_B
    "Ticket price as marked in store today and may differ online hence please ask our staff for help 1234 99"
  = Some "$99".
Proof. repeat split; vm_compute; reflexivity. Qed.

(** C6, as amended: for a URL of class A whose text holds the anchor, the
    search is confined to the 500 characters before the first anchor, and
    the result is, in this order of preference: the price of the last
    match of a price followed by [EASAVE]; the first price after the last
    [FROM]; the last price of the window.  When none of the three yields
    a price the later rules decide: those of class B and class C if the
    URL names these sites too, and then the generic fallback, which is
    reached at once when the URL names neither. *)
Theorem class_A_rules (text : string) (all_prices : list string) (url : string) :
  contains "harveynorman" (lower url) = true ->
  contains AVAILABLE_ON text = true ->
  let result := _find_main_price text all_prices url in
  let anchor := find AVAILABLE_ON text in
  let window := slice text (Z.max 0 (anchor - 500)) anchor in
  let easave := match last (findall PRICE_EASAVE window) with
                | Some e => head (findall PRICE e)
                | None => None
                end in
  let from := if contains "FROM" window
              then head (findall PRICE (slice_from window (rfind "FROM" window)))
              else None in
  let latest := last (findall PRICE window) in
  (forall p, easave = Some p -> result = p) /\
  (easave = None -> forall p, from = Some p -> result = p) /\
  (easave = None -> from = None -> forall p, latest = Some p -> result = p) /\
  (easave = None -> from = None -> latest = None ->
     result = match jbhifi_patterns (lower url) text
                    orelse officeworks_pattern (lower url) text with
              | Some p => p
              | None => generic_fallback all_prices
              end) /\
  (easave = None -> from = None -> latest = None ->
     contains "jbhifi" (lower url) = false ->
     contains "officeworks" (lower url) = false ->
     result = generic_fallback all_prices).
Proof.
  intros Hhn Hav result anchor window easave from latest.
  assert (E : harvey_norman_patterns (lower url) text = easave orelse from orelse latest).
  { unfold harvey_norman_patterns. rewrite Hhn, Hav. reflexivity. }
  repeat split.
  - intros p Hp. apply find_main_price_harvey_norman. rewrite E, Hp. reflexivity.
  - intros H1 p Hp. apply find_main_price_harvey_norman. rewrite E, H1, Hp. reflexivity.
  - intros H1 H2 p Hp. apply find_main_price_harvey_norman. rewrite E, H1, H2, Hp. reflexivity.
  - intros H1 H2 H3. subst result. unfold _find_main_price. rewrite E, H1, H2, H3. reflexivity.
  - intros H1 H2 H3 Hjb How. subst result. unfold _find_main_price.
    rewrite E, H1, H2, H3. unfold jbhifi_patterns, officeworks_pattern.
    rewrite Hjb, How. reflexivity.
Qed.

(** C6, an instance: a price with the suffix wins over a later price. *)
Lemma class_A_rules_witness :
  _find_main_price "TV $499.00 EASAVE was $649.00 Available on eBay" []
    "https://www.harveynorman.com.au/tv" = "$499.00".
Proof.
  refine (proj1 (class_A_rules "TV $499.00 EASAVE was $649.00 Available on eBay" []
                   "https://www.harveynorman.com.au/tv" _ _) "$499.00" _).
  - reflexivity.
  - reflexivity.
  - reflexivity.
Defined.

(** C6, as stated, fails where it says the generic fallback comes next:
    the URL below names class A and class B, the window holds no price,
    and the result is that of the [Ticket] rule. *)
Lemma class_A_fall_through_counterexample :
  contains "harveynorman" (lower "https://www.harveynorman.com.au/jbhifi-gift-card") = true /\
  contains AVAILABLE_ON "Ticket 5 Available on eBay" = true /\
  _find_main_price "Ticket 5 Available on eBay" (findall PRICE "Ticket 5 Available on eBay")
    "https://www.harveynorman.com.au/jbhifi-gift-card" = "$5" /\
  spec_class_A "Ticket 5 Available on eBay" (findall PRICE "Ticket 5 Available on eBay")
  = EmptyString.
Proof. repeat split; vm_compute; reflexivity. Qed.

(** Scenario A of the specification, on the code: the [FROM] of the text
    stands after the anchor, outside the window, and the last price
    before the anchor is returned. *)
Example scenario_A_on_the_code :
  _find_main_price "...$499.00 stuff... Available on eBay FROM $399.00 more text"
    (findall PRICE "...$499.00 stuff... Available on eBay FROM $399.00 more text")
    "https://www.harveynorman.com.au/tv" = "$499.00".
Proof. vm_compute. reflexivity. Qed.

(** ** The structured extractor *)

Lemma probe_all_head probe selectors :
  probe_all probe selectors = head (omap (yield probe) selectors).
Proof.
  induction selectors as [|sel rest IH]; [reflexivity | ].
  simpl. unfold yield at 1. destruct (probe sel) as [[price|]|e]; simpl; auto.
Qed.

Lemma head_app_or_else {A : Type} (l1 l2 : list A) :
  head (l1 ++ l2) = head l1 orelse head l2.
Proof. by destruct l1. Qed.

(** C4, as amended: what one selector yields depends on its kind.  A
    site-specific selector: the text of the element, stripped, prefixed
    with the currency symbol when it is digits and commas with no decimal
    part or one of exactly two digits, else the first currency token of
    the text.  A generic selector: the first currency token of the text,
    and nothing for a text that is only a number.  The metadata selector:
    the content attribute prefixed with the currency symbol when it is
    digits and commas, an optional point and any number of digits.  An
    absent element or a query that raises yields nothing.  The result is
    what the first selector that yields a price yields, the site-specific
    selectors first, and the empty string when none does. *)
Theorem structured_extractor_steps (page : Page) (url : string) :
  (forall selector element t,
      query_selector page selector = Ok (Some element) ->
      inner_text element None = Ok t ->
      yield (jbhifi_probe page) selector =
        match re_match NUMERIC_ONLY (strip t) with
        | Some _ => Some ("$" +:+ strip t)
        | None => search PRICE (strip t)
        end) /\
  (forall selector element t,
      startswith "meta" selector = false ->
      query_selector page selector = Ok (Some element) ->
      inner_text element (Some 200) = Ok t ->
      yield (generic_probe page) selector = search PRICE t) /\
  (forall selector element content,
      startswith "meta" selector = true ->
      query_selector page selector = Ok (Some element) ->
      get_attribute element "content" = Ok (Some content) ->
      yield (generic_probe page) selector =
        match re_match NUMERIC_CONTENT content with
        | Some _ => Some ("$" +:+ content)
        | None => None
        end) /\
  (forall selector,
      query_selector page selector = Ok None \/
      (exists e, query_selector page selector = Raise e) ->
      yield (jbhifi_probe page) selector = None /\
      yield (generic_probe page) selector = None) /\
  _extract_structured_price page url =
    default EmptyString
      (head (omap (yield (jbhifi_probe page))
                  (if contains "jbhifi" (lower url) then JBHIFI_SELECTORS else [])
             ++ omap (yield (generic_probe page)) GENERIC_SELECTORS)).
Proof.
  repeat split.
  - intros selector element t Hq Ht. unfold yield, jbhifi_probe. rewrite Hq, Ht.
    destruct (re_match NUMERIC_ONLY (strip t)); [reflexivity | ].
    by destruct (search PRICE (strip t)).
  - intros selector element t Hm Hq Ht. unfold yield, generic_probe. rewrite Hm, Hq, Ht.
    by destruct (search PRICE t).
  - intros selector element content Hm Hq Hc. unfold yield, generic_probe.
    rewrite Hm, Hq, Hc.
    destruct (String.eqb content EmptyString) eqn:E.
    + apply String.eqb_eq in E. subst content. reflexivity.
    + simpl. by destruct (re_match NUMERIC_CONTENT content).
  - unfold yield, jbhifi_probe. destruct H as [-> | [e ->]]; reflexivity.
  - unfold yield, generic_probe.
    destruct H as [-> | [e ->]]; by destruct (startswith "meta" selector).
  - unfold _extract_structured_price. rewrite head_app_or_else, <- !probe_all_head.
    destruct (contains "jbhifi" (lower url)); [ | reflexivity].
    by destruct (probe_all (jbhifi_probe page) JBHIFI_SELECTORS).
Qed.

(** C4, an instance: the normalisation example of the specification, on
    a site-specific selector. *)
Lemma structured_extractor_steps_witness :
  _extract_structured_price
    (demo_page "about this TV" "TV" (one_element ".price__current" "1,299.00"))
    "https://www.jbhifi.com.au/products/tv" = "$1,299.00".
Proof.
  rewrite (proj2 (proj2 (proj2 (proj2 (structured_extractor_steps
             (demo_page "about this TV" "TV" (one_element ".price__current" "1,299.00"))
             "https://www.jbhifi.com.au/products/tv"))))).
  vm_compute. reflexivity.
Defined.

(** C4, as stated, fails: the steps are not the same for every selector.
    On a generic selector a text that is only a number is not turned into
    a price, and with no other element on the page the result is empty. *)
Lemma generic_selector_numeric_text_counterexample :
  _extract_structured_price
    (demo_page "about this TV" "TV" (one_element ".price" "1,299.00"))
    "https://shop.example.com/item" = EmptyString /\
  spec_structured
    (demo_page "about this TV" "TV" (one_element ".price" "1,299.00"))
    "https://shop.example.com/item" = "$1,299.00".
Proof. split; vm_compute; reflexivity. Qed.

(** The two numeric patterns of the code and that of the specification
    differ on a single decimal digit. *)
Example one_decimal_digit :
  re_match NUMERIC_ONLY "12.5" = None /\
  re_match NUMERIC_CONTENT "12.5" = Some "12.5" /\
  re_match SPEC_NUMERIC "12.5" = Some "12.5".
Proof. repeat split; vm_compute; reflexivity. Qed.

Lemma Qltb_true (a b : Q) : Qltb a b = true <-> (a < b)%Q.
Proof.
  unfold Qltb. rewrite negb_true_iff. split.
  - intros H. apply Qnot_le_lt. intros Hle. apply Qle_bool_iff in Hle. congruence.
  - intros H. destruct (Qle_bool b a) eqn:E; [ | done].
    apply Qle_bool_iff in E. apply Qlt_not_le in H. contradiction.
Qed.

Lemma Qltb_false (a b : Q) : Qltb a b = false <-> ~ (a < b)%Q.
Proof. rewrite <- Qltb_true. destruct (Qltb a b); split; congruence. Qed.

(** ** The store *)
Section Store.
Implicit Types (st : list (string * (val * Q))) (key k : string).

Lemma store_get_del_eq key st : store_get key (store_del key st) = None.
Proof.
  induction st as [|[k e] st IH]; [done | ].
  unfold store_del; fold store_del. destruct (String.eqb k key) eqn:E; [done | ].
  unfold store_get; fold store_get. rewrite E. exact IH.
Qed.

Lemma store_get_del_ne key k st : k <> key -> store_get k (store_del key st) = store_get k st.
Proof.
  intros Hne. induction st as [|[k' e] st IH]; [done | ].
  unfold store_del; fold store_del. destruct (String.eqb k' key) eqn:E.
  - apply String.eqb_eq in E. subst k'. unfold store_get at 2; fold store_get.
    destruct (String.eqb key k) eqn:E2; [ | done].
    apply String.eqb_eq in E2. congruence.
  - unfold store_get; fold store_get. destruct (String.eqb k' k); [done | exact IH].
Qed.

Lemma store_get_put_eq key e st : store_get key (store_put key e st) = Some e.
Proof.
  induction st as [|[k x] st IH].
  - unfold store_put, store_get. by rewrite String.eqb_refl.
  - unfold store_put; fold store_put. destruct (String.eqb k key) eqn:E.
    + unfold store_get; fold store_get. by rewrite E.
    + unfold store_get; fold store_get. rewrite E. exact IH.
Qed.

Lemma store_get_put_ne key k e st : k <> key -> store_get k (store_put key e st) = store_get k st.
Proof.
  intros Hne. induction st as [|[k' x] st IH].
  - unfold store_put, store_get. destruct (String.eqb key k) eqn:E; [ | done].
    apply String.eqb_eq in E. congruence.
  - unfold store_put; fold store_put. destruct (String.eqb k' key) eqn:E.
    + apply String.eqb_eq in E. subst k'. unfold store_get; fold store_get.
      destruct (String.eqb key k) eqn:E2; [ | done]. apply String.eqb_eq in E2. congruence.
    + unfold store_get; fold store_get. destruct (String.eqb k' k); [done | exact IH].
Qed.

Lemma store_get_elem key e st : store_get key st = Some e -> (key, e) ∈ st.
Proof.
  induction st as [|[k x] st IH]; [done | ].
  unfold store_get; fold store_get. destruct (String.eqb k key) eqn:E.
  - apply String.eqb_eq in E. intros [= ->]. subst. left.
  - intros H. right. auto.
Qed.

Lemma store_del_Forall (P : string * (val * Q) -> Prop) key st :
  Forall P st -> Forall P (store_del key st).
Proof.
  induction 1 as [|[k e] st HP H IH]; [constructor | ].
  unfold store_del; fold store_del. destruct (String.eqb k key); [done | by constructor].
Qed.

Lemma store_put_Forall (P : string * (val * Q) -> Prop) key e st :
  (forall k, P (k, e)) -> Forall P st -> Forall P (store_put key e st).
Proof.
  intros He. induction 1 as [|[k x] st HP H IH].
  - unfold store_put. constructor; [apply He | constructor].
  - unfold store_put; fold store_put. destruct (String.eqb k key); constructor; auto.
Qed.

Lemma evict_Forall (P : string * (val * Q) -> Prop) items st :
  Forall P st -> Forall P (evict items st).
Proof.
  unfold evict. revert st. induction items as [|it items IH]; intros st H; simpl; [done | ].
  apply IH. by apply store_del_Forall.
Qed.
Lemma store_del_filter key st :
  store_del key st = filter (fun kv => fst kv <> key) st.
Proof.
  induction st as [|[k e] st IH]; [done | ].
  unfold store_del; fold store_del. rewrite IH.
  destruct (String.eqb k key) eqn:E.
  - apply String.eqb_eq in E. subst k. rewrite filter_cons_False; [done | ]. simpl. auto.
  - apply String.eqb_neq in E. rewrite filter_cons_True; done.
Qed.

Lemma store_get_NoDup st kv :
  NoDup (fst <$> st) -> kv ∈ st -> store_get (fst kv) st = Some (snd kv).
Proof.
  induction st as [|[k e] st IH]; intros Hnd Hin.
  - by apply elem_of_nil in Hin.
  - simpl in Hnd. apply NoDup_cons in Hnd as [Hk Hnd].
    unfold store_get; fold store_get.
    apply elem_of_cons in Hin as [-> | Hin].
    + simpl. by rewrite String.eqb_refl.
    + destruct (String.eqb k (fst kv)) eqn:E.
      * apply String.eqb_eq in E. subst k. exfalso. apply Hk.
        apply list_elem_of_fmap. by exists kv.
      * by apply IH.
Qed.

Lemma store_get_None key st : store_get key st = None <-> key ∉ fst <$> st.
Proof.
  induction st as [|[k e] st IH]; simpl.
  - split; [intros _; apply not_elem_of_nil | done].
  - unfold store_get; fold store_get. rewrite not_elem_of_cons.
    destruct (String.eqb k key) eqn:E.
    + apply String.eqb_eq in E. split; [discriminate | intros [H _]; congruence].
    + apply String.eqb_neq in E. rewrite IH. split; [intros H; split; [congruence | exact H] | tauto].
Qed.
End Store.

(** ** Running the primitives *)

Lemma bind_Ok {A B : Type} (m : M A) (f : A -> M B) s a s' :
  m s = (Ok a, s') -> bind m f s = f a s'.
Proof. unfold bind. intros ->. reflexivity. Qed.

Lemma bind_Raise {A B : Type} (m : M A) (f : A -> M B) s e s' :
  m s = (Raise e, s') -> bind m f s = (Raise e, s').
Proof. unfold bind. intros ->. reflexivity. Qed.

Lemma suppress_lift (o : outcome unit) s : suppress (lift o) s = (Ok tt, s).
Proof. unfold suppress, try_except, lift, ret. destruct o as [[]|e]; reflexivity. Qed.

Lemma try_finally_quiet {A : Type} (m : M A) (f : M unit) s :
  (forall s', f s' = (Ok tt, s')) -> try_finally m f s = m s.
Proof. intros Hf. unfold try_finally. destruct (m s) as [r s']. rewrite Hf. reflexivity. Qed.

Lemma cleanup_quiet pw s : cleanup pw s = (Ok tt, s).
Proof.
  unfold cleanup. rewrite (bind_Ok _ _ s s s) by reflexivity.
  destruct (browser s), (playwright s); unfold when.
  - rewrite (bind_Ok _ _ _ _ _ (suppress_lift _ _)). apply suppress_lift.
  - rewrite (bind_Ok _ _ _ _ _ (suppress_lift _ _)). reflexivity.
  - rewrite (bind_Ok _ _ s tt s) by reflexivity. apply suppress_lift.
  - reflexivity.
Qed.

Lemma page_cleanup_quiet (page : Page) pw s :
  (suppress (lift (page_close page)) ;; suppress (lift (context_close pw))) s = (Ok tt, s).
Proof. rewrite (bind_Ok _ _ _ _ _ (suppress_lift _ _)). apply suppress_lift. Qed.

Lemma copy_if_dict_dict l d s :
  heap s !! l = Some (ODict d) ->
  copy_if_dict (VRef l) s = (Ok (VRef (length (heap s))), set_heap (heap s ++ [ODict d]) s).
Proof.
  intros H. unfold copy_if_dict. rewrite (bind_Ok _ _ s s s) by reflexivity.
  rewrite H. reflexivity.
Qed.

Lemma copy_if_dict_other value s :
  is_dict (heap s) value = false -> copy_if_dict value s = (Ok value, s).
Proof.
  intros H. unfold copy_if_dict. rewrite (bind_Ok _ _ s s s) by reflexivity.
  destruct value as [| | | | |l]; try reflexivity.
  unfold is_dict in H. destruct (heap s !! l) as [[d|xs]|]; [discriminate | reflexivity..].
Qed.

(** ** [SimpleCache.get] *)

Lemma cache_get_absent w key s :
  store_get key (_store (cache s)) = None ->
  cache_get w key s = (Ok VNone, add_event Call_cache_get s).
Proof.
  intros H. unfold cache_get.
  rewrite (bind_Ok _ _ s tt (add_event Call_cache_get s)) by reflexivity.
  rewrite (bind_Ok _ _ _ (add_event Call_cache_get s) (add_event Call_cache_get s)) by reflexivity.
  simpl. rewrite H. reflexivity.
Qed.

Lemma cache_get_expired w key s value timestamp :
  store_get key (_store (cache s)) = Some (value, timestamp) ->
  Qltb (inject_Z (_ttl (cache s))) (clock w (ticks s) - timestamp) = true ->
  cache_get w key s =
    (Ok VNone, set_store (store_del key (_store (cache s))) (tick (add_event Call_cache_get s))).
Proof.
  intros H Hexp. unfold cache_get.
  rewrite (bind_Ok _ _ s tt (add_event Call_cache_get s)) by reflexivity.
  rewrite (bind_Ok _ _ _ (add_event Call_cache_get s) (add_event Call_cache_get s)) by reflexivity.
  simpl. rewrite H.
  rewrite (bind_Ok _ _ _ (clock w (ticks s)) (tick (add_event Call_cache_get s))) by reflexivity.
  rewrite Hexp. reflexivity.
Qed.

Lemma cache_get_fresh w key s value timestamp :
  store_get key (_store (cache s)) = Some (value, timestamp) ->
  Qltb (inject_Z (_ttl (cache s))) (clock w (ticks s) - timestamp) = false ->
  cache_get w key s = copy_if_dict value (tick (add_event Call_cache_get s)).
Proof.
  intros H Hexp. unfold cache_get.
  rewrite (bind_Ok _ _ s tt (add_event Call_cache_get s)) by reflexivity.
  rewrite (bind_Ok _ _ _ (add_event Call_cache_get s) (add_event Call_cache_get s)) by reflexivity.
  simpl. rewrite H.
  rewrite (bind_Ok _ _ _ (clock w (ticks s)) (tick (add_event Call_cache_get s))) by reflexivity.
  rewrite Hexp. reflexivity.
Qed.

(** C9: the store is a dict, so its keys are distinct.  For a key that
    is not among them [cache.get(key)] reports absent and leaves the
    store as it is.  For a key the store holds with a value and a time of
    insertion, the age is the clock reading of the call less that time:
    when it exceeds the time to live the store loses this entry, and no
    other, and the call reports absent; otherwise the store stays as it
    is and the call returns the value held for the key: that very value,
    or, when it is a dict, a new dict with the same entries. *)
Theorem cache_get_spec (w : World) (key : string) (s : state) :
  let store := _store (cache s) in
  let age timestamp := (clock w (ticks s) - timestamp)%Q in
  NoDup (fst <$> store) ->
  (key ∉ fst <$> store ->
     exists s', cache_get w key s = (Ok VNone, s') /\
                _store (cache s') = store /\ heap s' = heap s) /\
  (forall value timestamp,
     (key, (value, timestamp)) ∈ store ->
     (inject_Z (_ttl (cache s)) < age timestamp)%Q ->
     exists s', cache_get w key s = (Ok VNone, s') /\
                _store (cache s') = filter (fun kv => fst kv <> key) store /\
                (key ∉ fst <$> _store (cache s')) /\
                heap s' = heap s) /\
  (forall value timestamp,
     (key, (value, timestamp)) ∈ store ->
     ~ (inject_Z (_ttl (cache s)) < age timestamp)%Q ->
     exists v s', cache_get w key s = (Ok v, s') /\
                  _store (cache s') = store /\
                  match value with
                  | VRef l =>
                      match heap s !! l with
                      | Some (ODict d) =>
                          v = VRef (length (heap s)) /\ heap s' = (heap s ++ [ODict d])%list
                      | _ => v = value /\ heap s' = heap s
                      end
                  | _ => v = value /\ heap s' = heap s
                  end).
Proof.
  intros store age Hnd. split; [ | split].
  - intros H. apply store_get_None in H.
    eexists. split; [apply cache_get_absent; exact H | ]. split; reflexivity.
  - intros value timestamp Hin Hexp. apply Qltb_true in Hexp.
    pose proof (store_get_NoDup _ _ Hnd Hin) as H. simpl in H.
    eexists. split; [eapply cache_get_expired; eassumption | ]. simpl.
    split; [apply store_del_filter | ]. split; [ | reflexivity].
    apply store_get_None, store_get_del_eq.
  - intros value timestamp Hin Hexp. apply Qltb_false in Hexp.
    pose proof (store_get_NoDup _ _ Hnd Hin) as H. simpl in H.
    rewrite (cache_get_fresh w key s value timestamp H Hexp).
    destruct value as [| | | | |l];
      try (eexists; eexists; split; [apply copy_if_dict_other; reflexivity | ]; simpl; auto).
    destruct (heap s !! l) as [[d|xs]|] eqn:El.
    + eexists; eexists. split; [apply copy_if_dict_dict; exact El | ]. simpl. auto.
    + eexists; eexists. split; [apply copy_if_dict_other; simpl; rewrite El; reflexivity | ]. simpl. auto.
    + eexists; eexists. split; [apply copy_if_dict_other; simpl; rewrite El; reflexivity | ]. simpl. auto.
Qed.

(** C9, three instances, on the store that holds one entry, put at
    second 3 under the key of a URL, with the time to live of 300
    seconds: another key; that key read 3997 seconds later, which removes
    the entry; and that key read one second later, which returns a new
    dict, the fourth object of the heap, with the entries of the stored
    one, the third. *)
Lemma cache_get_spec_witness :
  _store (cache state_after_first_request)
  = [("https://shop.example.com/item", (VRef 2%nat, inject_Z 3))] /\
  (exists s', cache_get demo_world "https://other.example.com/" state_after_first_request
              = (Ok VNone, s') /\
              _store (cache s') = _store (cache state_after_first_request)) /\
  (exists s', cache_get slow_world "https://shop.example.com/item" state_after_first_request
              = (Ok VNone, s') /\
              _store (cache s') = []) /\
  (exists s', cache_get demo_world "https://shop.example.com/item" state_after_first_request
              = (Ok (VRef 3%nat), s') /\
              _store (cache s') = _store (cache state_after_first_request) /\
              heap s' !! 3%nat = heap state_after_first_request !! 2%nat).
Proof.
  assert (Hnd : NoDup (fst <$> _store (cache state_after_first_request))).
  { refine (@bool_decide_unpack _ (NoDup_dec _) _). vm_compute. reflexivity. }
  split; [reflexivity | ]. split; [ | split].
  - destruct (proj1 (cache_get_spec demo_world "https://other.example.com/"
                       state_after_first_request Hnd)) as (s' & H & Hsame & _).
    + refine (@bool_decide_unpack _ _ _). vm_compute. reflexivity.
    + exists s'. split; [exact H | exact Hsame].
  - destruct (proj1 (proj2 (cache_get_spec slow_world "https://shop.example.com/item"
                              state_after_first_request Hnd))
                    (VRef 2%nat) (inject_Z 3)) as (s' & H & Hgone & _).
    + left.
    + vm_compute. reflexivity.
    + exists s'. split; [exact H | ]. rewrite Hgone. reflexivity.
  - destruct (proj2 (proj2 (cache_get_spec demo_world "https://shop.example.com/item"
                              state_after_first_request Hnd))
                    (VRef 2%nat) (inject_Z 3)) as (v & s' & H & Hsame & Hv).
    + left.
    + vm_compute. intros H. discriminate H.
    + simpl in Hv. destruct Hv as [-> Hheap].
      exists s'. split; [exact H | ]. split; [exact Hsame | ].
      rewrite Hheap. reflexivity.
Defined.


Lemma cache_set_dict w key r d s :
  heap s !! r = Some (ODict d) ->
  cache_set w key (VRef r) s =
    (Ok tt,
     {| heap := heap s ++ [ODict d];
        cache := {| _ttl := _ttl (cache s);
                    _store := store_put key (VRef (length (heap s)), clock w (ticks s))
                                (pruned (_store (cache s))) |};
        ticks := S (ticks s);
        playwright := playwright s;
        browser := browser s;
        events := events s ++ [Call_cache_set] |}).
Proof.
  intros H. unfold cache_set, pruned.
  rewrite (bind_Ok _ _ s tt (add_event Call_cache_set s)) by reflexivity.
  rewrite (bind_Ok _ _ _ (add_event Call_cache_set s) (add_event Call_cache_set s)) by reflexivity.
  destruct (1000 <? Z.of_nat (length (_store (cache (add_event Call_cache_set s))))) eqn:E;
    simpl in E; rewrite E; unfold when.
  - erewrite bind_Ok by reflexivity.
    erewrite bind_Ok by (apply copy_if_dict_dict; simpl; exact H).
    reflexivity.
  - erewrite bind_Ok by reflexivity.
    erewrite bind_Ok by (apply copy_if_dict_dict; simpl; exact H).
    reflexivity.
Qed.

Lemma scrape_success w page url key start_time s text title :
  route page = Ok tt ->
  goto page url NAVIGATION_TIMEOUT = Ok tt ->
  wait_for_timeout page (if contains "harveynorman" (lower url)
                         then HARVEY_NORMAN_WAIT_MS else DEFAULT_WAIT_MS) = Ok tt ->
  evaluate page BODY_TEXT_SCRIPT = Ok text ->
  evaluate page TITLE_SCRIPT = Ok title ->
  let n := length (heap s) in
  let record :=
    success_record url (strip title) (main_price_of page text url) (VRef n)
      (isoformat w (ticks s))
      (py_int (double ((clock w (S (ticks s)) - start_time) * 1000))) in
  scrape w page url key start_time s =
    (Ok (VRef (S n)),
     {| heap := heap s ++ [OList (map VStr (dedup_cap (findall PRICE text)));
                           ODict record; ODict record];
        cache := {| _ttl := _ttl (cache s);
                    _store := store_put key (VRef (S (S n)), clock w (S (S (ticks s))))
                                (pruned (_store (cache s))) |};
        ticks := S (S (S (ticks s)));
        playwright := playwright s;
        browser := browser s;
        events := events s ++ [Call_extract_structured_price]
                  ++ (if String.eqb (_extract_structured_price page url) EmptyString
                      then [Call_find_main_price] else [])
                  ++ [Call_cache_set] |}).
Proof.
  intros H1 H2 H3 H4 H5 n record. unfold scrape.
  erewrite bind_Ok by (unfold lift; rewrite H1; reflexivity).
  erewrite bind_Ok by (unfold lift; rewrite H2; reflexivity).
  erewrite bind_Ok by (unfold lift; rewrite H3; reflexivity).
  erewrite bind_Ok by reflexivity.
  erewrite bind_Ok by (unfold lift; rewrite H4; reflexivity).
  erewrite bind_Ok by (unfold lift; rewrite H5; reflexivity).
  unfold main_price_of in record. subst record.
  destruct (String.eqb (_extract_structured_price page url) EmptyString) eqn:E; simpl negb; cbv iota.
  - erewrite bind_Ok by (erewrite bind_Ok by reflexivity; reflexivity).
    do 4 (erewrite bind_Ok by reflexivity).
    erewrite bind_Ok by (apply cache_set_dict; simpl; apply list_lookup_middle; reflexivity).
    unfold ret. simpl. rewrite !length_app. simpl. rewrite !Nat.add_1_r.
    rewrite <- !app_assoc. reflexivity.
  - erewrite bind_Ok by reflexivity.
    do 4 (erewrite bind_Ok by reflexivity).
    erewrite bind_Ok by (apply cache_set_dict; simpl; apply list_lookup_middle; reflexivity).
    unfold ret. simpl. rewrite !length_app. simpl. rewrite !Nat.add_1_r.
    rewrite <- !app_assoc. reflexivity.
Qed.

Lemma fetch_failure_None pw url :
  fetch_failure pw url = None <-> exists page text title, fetch_ok pw url page text title.
Proof.
  unfold fetch_failure, page_failure, fetch_ok. split.
  - destruct (start pw) as [[]|]; [ | discriminate].
    destruct (launch pw) as [[]|]; [ | discriminate].
    destruct (new_context pw) as [[]|]; [ | discriminate].
    destruct (new_page pw) as [page|]; [ | discriminate].
    destruct (route page) as [[]|] eqn:E5; [ | discriminate].
    destruct (goto page url NAVIGATION_TIMEOUT) as [[]|] eqn:E6; [ | discriminate].
    destruct (wait_for_timeout page _) as [[]|] eqn:E7; [ | discriminate].
    destruct (evaluate page BODY_TEXT_SCRIPT) as [text|] eqn:E8; [ | discriminate].
    destruct (evaluate page TITLE_SCRIPT) as [title|] eqn:E9; [ | discriminate].
    intros _. exists page, text, title. repeat split; assumption.
  - intros (page & text & title & -> & -> & -> & -> & -> & -> & -> & -> & ->). reflexivity.
Qed.

Lemma fetch_and_extract_success w pw url key s page text title :
  fetch_ok pw url page text title ->
  let n := length (heap s) in
  let record :=
    success_record url (strip title) (main_price_of page text url) (VRef n)
      (isoformat w (S (ticks s)))
      (py_int (double ((clock w (S (S (ticks s))) - clock w (ticks s)) * 1000))) in
  fetch_and_extract w pw url key s =
    (Ok (VRef (S n)),
     {| heap := heap s ++ [OList (map VStr (dedup_cap (findall PRICE text)));
                           ODict record; ODict record];
        cache := {| _ttl := _ttl (cache s);
                    _store := store_put key (VRef (S (S n)), clock w (S (S (S (ticks s)))))
                                (pruned (_store (cache s))) |};
        ticks := S (S (S (S (ticks s))));
        playwright := true;
        browser := true;
        events := events s ++ [Call_extract_structured_price]
                  ++ (if String.eqb (_extract_structured_price page url) EmptyString
                      then [Call_find_main_price] else [])
                  ++ [Call_cache_set] |}).
Proof.
  intros (H1 & H2 & H3 & H4 & H5 & H6 & H7 & H8 & H9) n record.
  unfold fetch_and_extract.
  do 3 (erewrite bind_Ok by reflexivity).
  rewrite try_finally_quiet by apply cleanup_quiet.
  unfold try_except, fetch.
  erewrite bind_Ok by (unfold lift; rewrite H1; reflexivity).
  erewrite bind_Ok by reflexivity.
  erewrite bind_Ok by (unfold lift; rewrite H2; reflexivity).
  erewrite bind_Ok by reflexivity.
  erewrite bind_Ok by (unfold lift; rewrite H3; reflexivity).
  erewrite bind_Ok by (unfold lift; rewrite H4; reflexivity).
  rewrite try_finally_quiet by apply page_cleanup_quiet.
  erewrite scrape_success by eassumption.
  reflexivity.
Qed.

Lemma fetch_and_extract_failure w pw url key s e :
  fetch_failure pw url = Some e ->
  exists s',
    fetch_and_extract w pw url key s = (Ok (VRef (length (heap s))), s') /\
    heap s' = (heap s ++ [ODict (failure_record url e (isoformat w (S (ticks s)))
                 (py_int (double ((clock w (S (S (ticks s))) - clock w (ticks s)) * 1000))))])%list /\
    cache s' = cache s /\
    ticks s' = S (S (S (ticks s))) /\
    (forall ev, ev ∈ events s' -> ev ∈ events s \/ ev = Call_extract_structured_price).
Proof.
  unfold fetch_failure, page_failure. intros H.
  unfold fetch_and_extract.
  do 3 (erewrite bind_Ok by reflexivity).
  rewrite try_finally_quiet by apply cleanup_quiet.
  unfold try_except, fetch.
  destruct (start pw) as [[]|e1] eqn:E1.
  2: { injection H as ->. erewrite bind_Raise by reflexivity.
       eexists. split; [reflexivity | ]. simpl. auto. }
  erewrite bind_Ok by reflexivity.
  erewrite bind_Ok by reflexivity.
  destruct (launch pw) as [[]|e2] eqn:E2.
  2: { injection H as ->. erewrite bind_Raise by reflexivity.
       eexists. split; [reflexivity | ]. simpl. auto. }
  erewrite bind_Ok by reflexivity.
  erewrite bind_Ok by reflexivity.
  destruct (new_context pw) as [[]|e3] eqn:E3.
  2: { injection H as ->. erewrite bind_Raise by reflexivity.
       eexists. split; [reflexivity | ]. simpl. auto. }
  erewrite bind_Ok by reflexivity.
  destruct (new_page pw) as [page|e4] eqn:E4.
  2: { injection H as ->. erewrite bind_Raise by reflexivity.
       eexists. split; [reflexivity | ]. simpl. auto. }
  erewrite bind_Ok by reflexivity.
  rewrite try_finally_quiet by apply page_cleanup_quiet.
  unfold scrape.
  destruct (route page) as [[]|e5] eqn:E5.
  2: { injection H as ->. erewrite bind_Raise by reflexivity.
       eexists. split; [reflexivity | ]. simpl. auto. }
  erewrite bind_Ok by reflexivity.
  destruct (goto page url NAVIGATION_TIMEOUT) as [[]|e6] eqn:E6.
  2: { injection H as ->. erewrite bind_Raise by reflexivity.
       eexists. split; [reflexivity | ]. simpl. auto. }
  erewrite bind_Ok by reflexivity.
  destruct (wait_for_timeout page _) as [[]|e7] eqn:E7.
  2: { injection H as ->. erewrite bind_Raise by reflexivity.
       eexists. split; [reflexivity | ]. simpl. auto. }
  erewrite bind_Ok by reflexivity.
  erewrite bind_Ok by reflexivity.
  destruct (evaluate page BODY_TEXT_SCRIPT) as [text|e8] eqn:E8.
  2: { injection H as ->. erewrite bind_Raise by reflexivity.
       eexists. split; [reflexivity | ]. simpl. repeat split; try reflexivity.
       intros ev Hev. apply elem_of_app in Hev as [?|Hev]; [auto | ].
       apply list_elem_of_singleton in Hev. auto. }
  erewrite bind_Ok by reflexivity.
  destruct (evaluate page TITLE_SCRIPT) as [title|e9] eqn:E9; [discriminate | ].
  injection H as ->. erewrite bind_Raise by reflexivity.
  eexists. split; [reflexivity | ]. simpl. repeat split; try reflexivity.
  intros ev Hev. apply elem_of_app in Hev as [?|Hev]; [auto | ].
  apply list_elem_of_singleton in Hev. auto.
Qed.

(** ** Records *)

Lemma success_record_keys url title price prices ts ms :
  let d := success_record url title price prices ts ms in
  d !! "success" = Some (VBool true) /\
  d !! "url" = Some (VStr url) /\
  d !! "title" = Some (VStr title) /\
  d !! "price" = Some (VStr price) /\
  d !! "all_prices" = Some prices /\
  d !! "timestamp" = Some (VStr ts) /\
  d !! "load_time_ms" = Some (VInt ms) /\
  d !! "error" = None /\
  d !! "cache_hit" = None.
Proof.
  unfold success_record. simpl.
  repeat split;
    repeat (first [rewrite lookup_insert_eq | rewrite lookup_insert_ne by done]);
    first [reflexivity | apply lookup_empty].
Qed.

Lemma failure_record_keys url e ts ms :
  let d := failure_record url e ts ms in
  d !! "success" = Some (VBool false) /\
  d !! "url" = Some (VStr url) /\
  d !! "error" = Some (VStr e) /\
  d !! "timestamp" = Some (VStr ts) /\
  d !! "load_time_ms" = Some (VInt ms) /\
  d !! "title" = None /\
  d !! "price" = None /\
  d !! "all_prices" = None /\
  d !! "cache_hit" = None.
Proof.
  unfold failure_record. simpl.
  repeat split;
    repeat (first [rewrite lookup_insert_eq | rewrite lookup_insert_ne by done]);
    first [reflexivity | apply lookup_empty].
Qed.

Lemma success_record_truthy url title price prices ts ms :
  negb (size (success_record url title price prices ts ms) =? 0)%nat = true.
Proof.
  destruct (size (success_record url title price prices ts ms)) eqn:E; [ | reflexivity].
  apply map_size_empty_iff in E.
  pose proof (success_record_keys url title price prices ts ms) as [H _].
  simpl in H. rewrite E, lookup_empty in H. discriminate.
Qed.

(** ** [extract_price], case by case *)

Lemma served_from_cache_false w url s :
  served_from_cache w url s = false ->
  cache_get w (md5_hexdigest w url) s = (Ok VNone, after_miss w url s).
Proof.
  unfold served_from_cache, after_miss.
  destruct (store_get (md5_hexdigest w url) (_store (cache s))) as [[value ts]|] eqn:E.
  - intros H. apply negb_false_iff in H. by eapply cache_get_expired.
  - intros _. by apply cache_get_absent.
Qed.

Lemma extract_price_miss w pw url s :
  served_from_cache w url s = false ->
  extract_price w pw url s =
    fetch_and_extract w pw url (md5_hexdigest w url) (after_miss w url s).
Proof.
  intros H. unfold extract_price.
  erewrite bind_Ok by (apply served_from_cache_false; exact H).
  erewrite bind_Ok by reflexivity. reflexivity.
Qed.

Lemma extract_price_hit w pw url s l ts d :
  store_get (md5_hexdigest w url) (_store (cache s)) = Some (VRef l, ts) ->
  served_from_cache w url s = true ->
  heap s !! l = Some (ODict d) ->
  negb (size d =? 0)%nat = true ->
  extract_price w pw url s =
    (Ok (VRef (length (heap s))),
     {| heap := heap s ++ [ODict (<["cache_hit" := VBool true]> d)];
        cache := cache s;
        ticks := S (ticks s);
        playwright := playwright s;
        browser := browser s;
        events := events s ++ [Call_cache_get] |}).
Proof.
  intros Hget Hserved Hl Hd. unfold served_from_cache in Hserved. rewrite Hget in Hserved.
  apply negb_true_iff in Hserved.
  unfold extract_price.
  erewrite bind_Ok.
  2: { rewrite (cache_get_fresh _ _ _ _ _ Hget Hserved). apply copy_if_dict_dict. exact Hl. }
  erewrite bind_Ok by reflexivity.
  simpl.
  match goal with
  | |- context [?h !! ?n] =>
      assert (Hn : h !! n = Some (ODict d)) by (apply list_lookup_middle; reflexivity)
  end.
  rewrite !Hn, Hd. unfold when.
  erewrite bind_Ok.
  2: { unfold dict_setitem. erewrite bind_Ok by reflexivity. simpl. rewrite Hn. reflexivity. }
  unfold ret. rewrite insert_app_r_alt by lia. rewrite Nat.sub_diag.
  unfold set_heap, tick, add_event. simpl. reflexivity.
Qed.

(** ** The invariant of the store *)

Lemma entry_ok_frame h h' v :
  entry_ok h v -> (forall j, (j < length h)%nat -> h' !! j = h !! j) -> entry_ok h' v.
Proof.
  intros (l & url & title & price & pl & ts & ms & text & -> & Hl & Hpl) Hsame.
  exists l, url, title, price, pl, ts, ms, text. repeat split.
  - rewrite Hsame; [done | ]. by eapply lookup_lt_Some.
  - rewrite Hsame; [done | ]. by eapply lookup_lt_Some.
Qed.

Lemma store_ok_frame h h' (st : list (string * (val * Q))) :
  Forall (fun kv => entry_ok h (fst (snd kv))) st ->
  (forall j, (j < length h)%nat -> h' !! j = h !! j) ->
  Forall (fun kv => entry_ok h' (fst (snd kv))) st.
Proof.
  intros H Hsame. eapply Forall_impl; [exact H | ].
  intros kv Hkv. eapply entry_ok_frame; [exact Hkv | exact Hsame].
Qed.

Lemma pruned_Forall (P : string * (val * Q) -> Prop) st :
  Forall P st -> Forall P (pruned st).
Proof.
  unfold pruned. destruct (1000 <? Z.of_nat (length st)); [ | done]. apply evict_Forall.
Qed.

Lemma after_miss_ok w url s : state_ok s -> state_ok (after_miss w url s).
Proof.
  unfold state_ok, after_miss. intros H.
  destruct (store_get (md5_hexdigest w url) (_store (cache s))); simpl; [ | done].
  by apply store_del_Forall.
Qed.

Lemma after_miss_heap w url s : heap (after_miss w url s) = heap s.
Proof.
  unfold after_miss. by destruct (store_get (md5_hexdigest w url) (_store (cache s))).
Qed.

Lemma lookup_insert_app_below (h ext : list obj) (r : nat) (o : obj) (j : nat) :
  (j < length h)%nat -> (length h <= r)%nat -> (<[r := o]> (h ++ ext)) !! j = h !! j.
Proof.
  intros Hj Hr. rewrite list_lookup_insert_ne by lia. by apply lookup_app_l.
Qed.

Lemma lookup_ext0 (h : list obj) a rest : (h ++ a :: rest) !! length h = Some a.
Proof. by apply list_lookup_middle. Qed.

Lemma lookup_ext1 (h : list obj) a b rest :
  (h ++ a :: b :: rest) !! S (length h) = Some b.
Proof. rewrite lookup_app_r by lia. by replace (S (length h) - length h)%nat with 1%nat by lia. Qed.

Lemma lookup_ext2 (h : list obj) a b c rest :
  (h ++ a :: b :: c :: rest) !! S (S (length h)) = Some c.
Proof. rewrite lookup_app_r by lia. by replace (S (S (length h)) - length h)%nat with 2%nat by lia. Qed.

(** What a request does to a state that satisfies the invariant: it
    returns a dict of its own, which the caller may change at will. *)
Lemma extract_price_ok w pw (url : string) s :
  state_ok s ->
  exists r d s',
    extract_price w pw url s = (Ok (VRef r), s') /\
    heap s' !! r = Some (ODict d) /\
    state_ok s' /\
    (forall o, state_ok (set_heap (<[r := o]> (heap s')) s')).
Proof.
  intros Hok.
  destruct (served_from_cache w url s) eqn:Hserved.
  - pose proof Hserved as Hs. unfold served_from_cache in Hs.
    destruct (store_get (md5_hexdigest w url) (_store (cache s))) as [[value ts]|] eqn:Hget;
      [ | discriminate].
    pose proof (store_get_elem _ _ _ Hget) as Hin.
    pose proof Hok as Hall. unfold state_ok in Hall.
    unfold state_ok in Hok. rewrite Forall_forall in Hok. specialize (Hok _ Hin). simpl in Hok.
    destruct Hok as (l & u & title & price & pl & t & ms & text & -> & Hl & Hpl).
    eexists _, _, _. split.
    { eapply extract_price_hit; [exact Hget | exact Hserved | exact Hl | apply success_record_truthy]. }
    simpl. split; [apply list_lookup_middle; reflexivity | ].
    split.
    + unfold state_ok. simpl. eapply store_ok_frame; [exact Hall | ].
      intros j Hj. by apply lookup_app_l.
    + intros o. unfold state_ok. simpl. eapply store_ok_frame; [exact Hall | ].
      intros j Hj. apply lookup_insert_app_below; [done | lia].
  - rewrite (extract_price_miss _ _ _ _ Hserved).
    pose proof (after_miss_ok w url s Hok) as Hok1.
    set (s1 := after_miss w url s) in *.
    destruct (fetch_failure pw url) as [e|] eqn:Hf.
    + destruct (fetch_and_extract_failure w pw url (md5_hexdigest w url) s1 e Hf)
        as (s' & Hrun & Hheap & Hcache & _).
      eexists _, _, s'. split; [exact Hrun | ].
      rewrite Hheap. split; [apply list_lookup_middle; reflexivity | ].
      split.
      * unfold state_ok. rewrite Hheap, Hcache. eapply store_ok_frame; [exact Hok1 | ].
        intros j Hj. by apply lookup_app_l.
      * intros o. unfold state_ok. simpl. rewrite Hcache. eapply store_ok_frame; [exact Hok1 | ].
        intros j Hj. apply lookup_insert_app_below; [done | lia].
    + apply fetch_failure_None in Hf as (page & text & title & Hfetch).
      rewrite (fetch_and_extract_success w pw url _ s1 page text title Hfetch).
      eexists _, _, _. split; [reflexivity | ]. simpl.
      split; [apply lookup_ext1 | ].
      split.
      * unfold state_ok. simpl. apply store_put_Forall.
        { intros k. simpl. eexists _, _, _, _, _, _, _, text. split; [reflexivity | ]. split.
          - apply lookup_ext2.
          - apply lookup_ext0. }
        apply pruned_Forall. eapply store_ok_frame; [exact Hok1 | ].
        intros j Hj. by apply lookup_app_l.
      * intros o. unfold state_ok. simpl. apply store_put_Forall.
        { intros k. simpl. eexists _, _, _, _, _, _, _, text. split; [reflexivity | ]. split.
          - rewrite list_lookup_insert_ne by lia. apply lookup_ext2.
          - rewrite list_lookup_insert_ne by lia. apply lookup_ext0. }
        apply pruned_Forall. eapply store_ok_frame; [exact Hok1 | ].
        intros j Hj. apply lookup_insert_app_below; [done | lia].
Qed.

(** ** Totality *)

Lemma cache_get_total w key s : exists v s', cache_get w key s = (Ok v, s').
Proof.
  destruct (store_get key (_store (cache s))) as [[value ts]|] eqn:E.
  - destruct (Qltb (inject_Z (_ttl (cache s))) (clock w (ticks s) - ts)) eqn:Q.
    + eexists _, _. by eapply cache_get_expired.
    + rewrite (cache_get_fresh _ _ _ _ _ E Q).
      destruct (is_dict (heap (tick (add_event Call_cache_get s))) value) eqn:D.
      * destruct value as [| | | | |l]; try discriminate. simpl in D.
        destruct (heap s !! l) as [[d|xs]|] eqn:El; try discriminate.
        eexists _, _. by apply copy_if_dict_dict.
      * eexists _, _. by apply copy_if_dict_other.
  - eexists _, _. by apply cache_get_absent.
Qed.

Lemma fetch_and_extract_total w pw url key s :
  exists v s', fetch_and_extract w pw url key s = (Ok v, s').
Proof.
  destruct (fetch_failure pw url) as [e|] eqn:Hf.
  - destruct (fetch_and_extract_failure w pw url key s e Hf) as (s' & H & _). eauto.
  - apply fetch_failure_None in Hf as (page & text & title & Hfetch).
    eexists _, _. by apply fetch_and_extract_success.
Qed.

Lemma extract_price_total w pw (url : string) s :
  exists v s', extract_price w pw url s = (Ok v, s').
Proof.
  unfold extract_price.
  destruct (cache_get_total w (md5_hexdigest w url) s) as (cached & s1 & Hget).
  erewrite bind_Ok by exact Hget.
  erewrite bind_Ok by reflexivity.
  destruct (truthy (heap s1) cached); [ | apply fetch_and_extract_total].
  destruct (is_dict (heap s1) cached) eqn:D; unfold when.
  - destruct cached as [| | | | |l]; try discriminate. simpl in D.
    destruct (heap s1 !! l) as [[d|xs]|] eqn:El; try discriminate.
    erewrite bind_Ok.
    2: { unfold dict_setitem. erewrite bind_Ok by reflexivity. rewrite El. reflexivity. }
    eexists _, _. reflexivity.
  - erewrite bind_Ok by reflexivity. eexists _, _. reflexivity.
Qed.

(** ** The three ways a request ends *)

Lemma extract_price_cases w pw url s :
  state_ok s ->
  let key := md5_hexdigest w url in
  let s1 := after_miss w url s in
  let n := length (heap s) in
  let timestamp := isoformat w (S (ticks s1)) in
  let load_time_ms := py_int (double ((clock w (S (S (ticks s1))) - clock w (ticks s1)) * 1000)) in
  (served_from_cache w url s = true /\
   exists l ts u title price pl t ms text,
     store_get key (_store (cache s)) = Some (VRef l, ts) /\
     heap s !! l = Some (ODict (success_record u title price (VRef pl) t ms)) /\
     heap s !! pl = Some (OList (map VStr (dedup_cap (findall PRICE text)))) /\
     extract_price w pw url s =
       (Ok (VRef n),
        {| heap := heap s ++ [ODict (<["cache_hit" := VBool true]>
                                       (success_record u title price (VRef pl) t ms))];
           cache := cache s;
           ticks := S (ticks s);
           playwright := playwright s;
           browser := browser s;
           events := events s ++ [Call_cache_get] |}))
  \/
  (served_from_cache w url s = false /\
   exists e s',
     fetch_failure pw url = Some e /\
     extract_price w pw url s = (Ok (VRef n), s') /\
     heap s' = heap s ++ [ODict (failure_record url e timestamp load_time_ms)] /\
     cache s' = cache s1 /\
     (forall ev, ev ∈ events s' -> ev ∈ events s1 \/ ev = Call_extract_structured_price))
  \/
  (served_from_cache w url s = false /\
   exists page text title,
     fetch_ok pw url page text title /\
     let record := success_record url (strip title) (main_price_of page text url) (VRef n)
                     timestamp load_time_ms in
     extract_price w pw url s =
       (Ok (VRef (S n)),
        {| heap := heap s ++ [OList (map VStr (dedup_cap (findall PRICE text)));
                              ODict record; ODict record];
           cache := {| _ttl := _ttl (cache s1);
                       _store := store_put key (VRef (S (S n)), clock w (S (S (S (ticks s1)))))
                                   (pruned (_store (cache s1))) |};
           ticks := S (S (S (S (ticks s1))));
           playwright := true;
           browser := true;
           events := events s1 ++ [Call_extract_structured_price]
                     ++ (if String.eqb (_extract_structured_price page url) EmptyString
                         then [Call_find_main_price] else [])
                     ++ [Call_cache_set] |})).
Proof.
  intros Hok key s1 n timestamp load_time_ms.
  destruct (served_from_cache w url s) eqn:Hserved.
  - left. split; [reflexivity | ].
    pose proof Hserved as Hs. unfold served_from_cache in Hs.
    destruct (store_get (md5_hexdigest w url) (_store (cache s))) as [[value ts]|] eqn:Hget;
      [ | discriminate].
    pose proof (store_get_elem _ _ _ Hget) as Hin.
    unfold state_ok in Hok. rewrite Forall_forall in Hok. specialize (Hok _ Hin). simpl in Hok.
    destruct Hok as (l & u & title & price & pl & t & ms & text & -> & Hl & Hpl).
    exists l, ts, u, title, price, pl, t, ms, text. repeat split; try assumption.
    eapply extract_price_hit; [exact Hget | exact Hserved | exact Hl | apply success_record_truthy].
  - right. rewrite (extract_price_miss _ _ _ _ Hserved).
    assert (Hh : heap s1 = heap s) by apply after_miss_heap.
    destruct (fetch_failure pw url) as [e|] eqn:Hf.
    + left. split; [reflexivity | ].
      destruct (fetch_and_extract_failure w pw url (md5_hexdigest w url) s1 e Hf)
        as (s' & Hrun & Hheap & Hcache & _ & Hev).
      exists e, s'. rewrite Hh in Hrun, Hheap. repeat split; assumption.
    + right. split; [reflexivity | ].
      apply fetch_failure_None in Hf as (page & text & title & Hfetch).
      exists page, text, title. split; [exact Hfetch | ].
      rewrite (fetch_and_extract_success w pw url _ s1 page text title Hfetch).
      rewrite Hh. reflexivity.
Qed.

Lemma field_ext0 (h : list obj) d rest k :
  field (h ++ ODict d :: rest) (VRef (length h)) k = d !! k.
Proof. unfold field. by rewrite lookup_ext0. Qed.

Lemma field_ext1 (h : list obj) a d rest k :
  field (h ++ a :: ODict d :: rest) (VRef (S (length h))) k = d !! k.
Proof. unfold field. by rewrite lookup_ext1. Qed.

Lemma after_miss_events w url s :
  events (after_miss w url s) = events s ++ [Call_cache_get].
Proof.
  unfold after_miss. by destruct (store_get (md5_hexdigest w url) (_store (cache s))).
Qed.

Lemma dict_setitem_dict r d k x s :
  heap s !! r = Some (ODict d) ->
  dict_setitem (VRef r) k x s = (Ok tt, set_heap (<[r := ODict (<[k := x]> d)]> (heap s)) s).
Proof.
  intros H. unfold dict_setitem. erewrite bind_Ok by reflexivity. rewrite H. reflexivity.
Qed.

(** ** Reachable states satisfy the invariant *)

Lemma extract_price_unencodable w pw u s :
  extract_price w pw (Unencodable u) s = (Raise (UnicodeEncodeError u), s).
Proof. reflexivity. Qed.

Lemma webhook_entry_unencodable w pw pid comp_key u s :
  webhook_entry w pw pid comp_key (Unencodable u) s = (Raise (UnicodeEncodeError u), s).
Proof. reflexivity. Qed.

Lemma webhook_entry_ok w pw pid comp_key url s r s' :
  state_ok s -> webhook_entry w pw pid comp_key url s = (r, s') -> state_ok s'.
Proof.
  intros Hok. destruct url as [url|u].
  2: { rewrite webhook_entry_unencodable. by intros [= _ <-]. }
  unfold webhook_entry.
  destruct (extract_price_ok w pw url s Hok) as (l & d & s1 & Hrun & Hl & Hok1 & Hany).
  erewrite bind_Ok by exact Hrun.
  erewrite bind_Ok by (apply dict_setitem_dict; exact Hl).
  erewrite bind_Ok.
  2: { apply dict_setitem_dict. simpl. apply list_lookup_insert_eq. by eapply lookup_lt_Some. }
  unfold ret. intros [= _ <-]. simpl.
  rewrite list_insert_insert_eq.
  apply Hany.
Qed.

Lemma reachable_state_ok w s : reachable w s -> state_ok s.
Proof.
  induction 1 as [ | s pw url r s' _ IH Hrun | s pw pid comp_key url r s' _ IH Hrun].
  - constructor.
  - destruct url as [url|u].
    2: { rewrite extract_price_unencodable in Hrun. by injection Hrun as _ <-. }
    destruct (extract_price_ok w pw url s IH) as (l & d & s1 & Hrun1 & _ & Hok1 & _).
    rewrite Hrun in Hrun1. by injection Hrun1 as -> ->.
  - by eapply webhook_entry_ok.
Qed.

(** ** The result of a request *)

(** C1, which the code does not meet: [extract_price] raises for a URL
    that holds a surrogate.  [url.encode()] stands before the [try], so
    the [UnicodeEncodeError] leaves the function: whatever the state and
    the browser, no record is returned and nothing else is done.  So it
    is for the URL that ends with U+D800; the webhook, given that URL in
    its body after one that it scrapes, answers with status 500 and the
    message of the error. *)
Theorem extract_price_raises_on_surrogate :
  (forall w pw u s,
     extract_price w pw (Unencodable u) s = (Raise (UnicodeEncodeError u), s)) /\
  (forall w pw s,
     extract_price w pw surrogate_url s
     = (Raise "'utf-8' codec can't encode character '\ud800' in position 25: surrogates not allowed",
        s)) /\
  (exists payload s',
     webhook demo_world None demo_browsers (demo_request demo_body_with_surrogate)
       initial_state
     = (Ok {| body := payload; status := 500 |}, s') /\
     field (heap s') payload "success" = Some (VBool false) /\
     field (heap s') payload "error"
     = Some (VStr "'utf-8' codec can't encode character '\ud800' in position 25: surrogates not allowed")).
Proof.
  split; [reflexivity | ]. split; [reflexivity | ].
  eexists _, _. split; [vm_compute; reflexivity | ].
  split; vm_compute; reflexivity.
Qed.

(** X22: for a URL that can be encoded, [extract_price] returns a record
    from every state and does not raise.  From a state of the service
    the record has one of two shapes: a success, with [url], [title],
    [price], [all_prices], [timestamp] and [load_time_ms] and no [error];
    or a failure, with [success] false, [url], [error], [timestamp] and
    [load_time_ms], and without [title], [price] and [all_prices].  When
    the cache has nothing for the URL and a step of the fetch and extract
    phase raises, the record is the failure whose [error] is the message
    raised, nothing is cached, and [timestamp] and [load_time_ms] are
    taken from the same clock readings as those of a success. *)
Theorem extract_price_returns_a_record (w : World) (pw : Playwright) (url : string) (s : state) :
  (exists v s', extract_price w pw url s = (Ok v, s')) /\
  (state_ok s ->
   exists v s',
     extract_price w pw url s = (Ok v, s') /\
     ((field (heap s') v "success" = Some (VBool true) /\
       (exists u t p pl ts ms,
           field (heap s') v "url" = Some (VStr u) /\
           field (heap s') v "title" = Some (VStr t) /\
           field (heap s') v "price" = Some (VStr p) /\
           field (heap s') v "all_prices" = Some (VRef pl) /\
           field (heap s') v "timestamp" = Some (VStr ts) /\
           field (heap s') v "load_time_ms" = Some (VInt ms)) /\
       field (heap s') v "error" = None)
      \/
      (field (heap s') v "success" = Some (VBool false) /\
       (exists e ts ms,
           field (heap s') v "url" = Some (VStr url) /\
           field (heap s') v "error" = Some (VStr e) /\
           field (heap s') v "timestamp" = Some (VStr ts) /\
           field (heap s') v "load_time_ms" = Some (VInt ms)) /\
       field (heap s') v "title" = None /\
       field (heap s') v "price" = None /\
       field (heap s') v "all_prices" = None))) /\
  (served_from_cache w url s = false ->
   let s1 := after_miss w url s in
   let timestamp := isoformat w (S (ticks s1)) in
   let load_time_ms := py_int (double ((clock w (S (S (ticks s1))) - clock w (ticks s1)) * 1000)) in
   (forall e,
       fetch_failure pw url = Some e ->
       exists v s',
         extract_price w pw url s = (Ok v, s') /\
         field (heap s') v "success" = Some (VBool false) /\
         field (heap s') v "url" = Some (VStr url) /\
         field (heap s') v "error" = Some (VStr e) /\
         field (heap s') v "timestamp" = Some (VStr timestamp) /\
         field (heap s') v "load_time_ms" = Some (VInt load_time_ms) /\
         cache s' = cache s1) /\
   (fetch_failure pw url = None ->
       exists v s',
         extract_price w pw url s = (Ok v, s') /\
         field (heap s') v "success" = Some (VBool true) /\
         field (heap s') v "timestamp" = Some (VStr timestamp) /\
         field (heap s') v "load_time_ms" = Some (VInt load_time_ms))).
Proof.
  split; [apply extract_price_total | ]. split.
  - intros Hok.
    destruct (extract_price_cases w pw url s Hok)
      as [(_ & l & ts & u & title & price & pl & t & ms & text & _ & _ & _ & Hrun)
         | [(_ & e & s' & _ & Hrun & Hheap & _)
           | (_ & page & text & title & _ & Hrun)]].
    + eexists _, _. split; [exact Hrun | ]. left. simpl.
      destruct (success_record_keys u title price (VRef pl) t ms)
        as (K1 & K2 & K3 & K4 & K5 & K6 & K7 & K8 & _).
      rewrite !field_ext0. rewrite !lookup_insert_ne by done.
      split; [exact K1 | ]. split; [ | exact K8].
      exists u, title, price, pl, t, ms. repeat split; assumption.
    + eexists _, _. split; [exact Hrun | ]. right. rewrite Hheap.
      match goal with |- context [failure_record ?a ?b ?c ?d] =>
        destruct (failure_record_keys a b c d) as (K1 & K2 & K3 & K4 & K5 & K6 & K7 & K8 & _)
      end.
      rewrite !field_ext0.
      split; [exact K1 | ]. split; [ | auto].
      eexists _, _, _. repeat split; eassumption.
    + eexists _, _. split; [exact Hrun | ]. left. simpl.
      match goal with |- context [success_record ?a ?b ?c ?d ?e ?f] =>
        destruct (success_record_keys a b c d e f) as (K1 & K2 & K3 & K4 & K5 & K6 & K7 & K8 & _)
      end.
      rewrite !field_ext1.
      split; [exact K1 | ]. split; [ | exact K8].
      eexists _, _, _, _, _, _. repeat split; eassumption.
  - intros Hserved s1 timestamp load_time_ms.
    rewrite (extract_price_miss _ _ _ _ Hserved). fold s1. split.
    + intros e Hf.
      destruct (fetch_and_extract_failure w pw url (md5_hexdigest w url) s1 e Hf)
        as (s' & Hrun & Hheap & Hcache & _).
      eexists _, _. split; [exact Hrun | ]. rewrite Hheap.
      destruct (failure_record_keys url e timestamp load_time_ms)
        as (K1 & K2 & K3 & K4 & K5 & _).
      rewrite !field_ext0. repeat split; assumption.
    + intros Hf. apply fetch_failure_None in Hf as (page & text & title & Hfetch).
      rewrite (fetch_and_extract_success w pw url _ s1 page text title Hfetch).
      eexists _, _. split; [reflexivity | ]. simpl.
      match goal with |- context [success_record ?a ?b ?c ?d ?e ?f] =>
        destruct (success_record_keys a b c d e f) as (K1 & K2 & K3 & K4 & K5 & K6 & K7 & _)
      end.
      rewrite !field_ext1. repeat split; assumption.
Qed.

(** X22, an instance: a navigation that times out. *)
Lemma extract_price_returns_a_record_witness :
  exists v s',
    extract_price demo_world (demo_browser timeout_page)
      "https://shop.example.com/item" initial_state = (Ok v, s') /\
    field (heap s') v "success" = Some (VBool false) /\
    field (heap s') v "error" = Some (VStr "Timeout 15000ms exceeded.").
Proof.
  destruct (proj1 (proj2 (proj2 (extract_price_returns_a_record demo_world
              (demo_browser timeout_page) "https://shop.example.com/item" initial_state))
              eq_refl) "Timeout 15000ms exceeded." eq_refl)
    as (v & s' & Hrun & Hs & _ & He & _).
  exists v, s'. auto.
Defined.

(** The record of that failure has no [title], no [price] and no
    [all_prices]. *)
Lemma failure_record_shape :
  fst (extract_price demo_world (demo_browser timeout_page)
         "https://shop.example.com/item" initial_state) = Ok (VRef 0%nat) /\
  field (heap (snd (extract_price demo_world (demo_browser timeout_page)
                      "https://shop.example.com/item" initial_state)))
        (VRef 0%nat) "success" = Some (VBool false) /\
  field (heap (snd (extract_price demo_world (demo_browser timeout_page)
                      "https://shop.example.com/item" initial_state)))
        (VRef 0%nat) "title" = None /\
  field (heap (snd (extract_price demo_world (demo_browser timeout_page)
                      "https://shop.example.com/item" initial_state)))
        (VRef 0%nat) "price" = None /\
  field (heap (snd (extract_price demo_world (demo_browser timeout_page)
                      "https://shop.example.com/item" initial_state)))
        (VRef 0%nat) "all_prices" = None.
Proof. repeat split; vm_compute; reflexivity. Qed.

(** C7: for a request that reaches extraction (the cache has nothing for
    the URL and every step of the fetch succeeds), the price of the
    result is that of the structured extractor when it is not empty, and
    then the heuristic extractor is not called at all; it is that of the
    heuristic extractor otherwise, called after the structured one. *)
Theorem structured_price_wins (w : World) (pw : Playwright) (url : string) (s : state)
        (page : Page) (text title : string) :
  served_from_cache w url s = false ->
  fetch_ok pw url page text title ->
  exists v s',
    extract_price w pw url s = (Ok v, s') /\
    (_extract_structured_price page url <> EmptyString ->
       field (heap s') v "price" = Some (VStr (_extract_structured_price page url)) /\
       events s' = events s ++ [Call_cache_get; Call_extract_structured_price;
                                Call_cache_set]) /\
    (_extract_structured_price page url = EmptyString ->
       field (heap s') v "price"
         = Some (VStr (_find_main_price text (findall PRICE text) url)) /\
       events s' = events s ++ [Call_cache_get; Call_extract_structured_price;
                                Call_find_main_price; Call_cache_set]).
Proof.
  intros Hserved Hfetch.
  rewrite (extract_price_miss _ _ _ _ Hserved).
  rewrite (fetch_and_extract_success w pw url _ _ page text title Hfetch).
  eexists _, _. split; [reflexivity | ]. simpl.
  match goal with |- context [success_record ?a ?b ?c ?d ?e ?f] =>
    destruct (success_record_keys a b c d e f) as (_ & _ & _ & K4 & _)
  end.
  rewrite !field_ext1, K4, after_miss_events. unfold main_price_of.
  split.
  - intros Hne. destruct (String.eqb (_extract_structured_price page url) EmptyString) eqn:E.
    + apply String.eqb_eq in E. contradiction.
    + split; [reflexivity | ]. by rewrite <- app_assoc.
  - intros ->. simpl. split; [reflexivity | ]. by rewrite <- app_assoc.
Qed.

(** C7, an instance: scenario E of the specification. *)
Lemma structured_price_wins_witness :
  exists v s',
    extract_price demo_world
      (demo_browser (demo_page "Was $1,099 now less" "TV"
                       (one_element ".price__current" "899")))
      "https://www.jbhifi.com.au/products/tv" initial_state = (Ok v, s') /\
    field (heap s') v "price" = Some (VStr "$899") /\
    events s' = [Call_cache_get; Call_extract_structured_price; Call_cache_set].
Proof.
  destruct (structured_price_wins demo_world
              (demo_browser (demo_page "Was $1,099 now less" "TV"
                               (one_element ".price__current" "899")))
              "https://www.jbhifi.com.au/products/tv" initial_state
              (demo_page "Was $1,099 now less" "TV" (one_element ".price__current" "899"))
              "Was $1,099 now less" "TV" eq_refl)
    as (v & s' & Hrun & Hs & _).
  - repeat split.
  - exists v, s'. split; [exact Hrun | ].
    apply Hs. vm_compute. discriminate.
Defined.

(** C8: the [all_prices] of a successful result, fresh or served from the
    cache, is the list of the currency tokens of a page text (the text of
    the page when the result is fresh) without duplicates, in the order
    of their first appearance in the text, cut after ten. *)
Theorem all_prices_dedup_order_cap (w : World) (pw : Playwright) (url : string) (s : state) :
  state_ok s ->
  exists v s',
    extract_price w pw url s = (Ok v, s') /\
    (field (heap s') v "success" = Some (VBool true) ->
     exists pl text,
       field (heap s') v "all_prices" = Some (VRef pl) /\
       list_items (heap s') (VRef pl)
         = Some (map VStr (dedup_cap (findall PRICE text))) /\
       (forall page text0 title,
           served_from_cache w url s = false ->
           fetch_ok pw url page text0 title -> text = text0) /\
       NoDup (dedup_cap (findall PRICE text)) /\
       (length (dedup_cap (findall PRICE text)) <= 10)%nat /\
       (forall x, x ∈ dedup_cap (findall PRICE text) -> x ∈ findall PRICE text) /\
       (forall i j x y,
           dedup_cap (findall PRICE text) !! i = Some x ->
           dedup_cap (findall PRICE text) !! j = Some y ->
           (i < j)%nat ->
           exists a b, first_index x (findall PRICE text) = Some a /\
                       first_index y (findall PRICE text) = Some b /\ (a < b)%nat) /\
       (forall x, x ∈ findall PRICE text ->
                  x ∈ dedup_cap (findall PRICE text) \/
                  length (dedup_cap (findall PRICE text)) = 10%nat)).
Proof.
  intros Hok.
  destruct (extract_price_cases w pw url s Hok)
    as [(Hserved & l & ts & u & title & price & pl & t & ms & text & _ & _ & Hpl & Hrun)
       | [(_ & e & s' & _ & Hrun & Hheap & _)
         | (Hserved & page & text & title & Hfetch & Hrun)]].
  - eexists _, _. split; [exact Hrun | ]. intros _. exists pl, text. simpl.
    destruct (success_record_keys u title price (VRef pl) t ms) as (_ & _ & _ & _ & K5 & _).
    rewrite field_ext0, lookup_insert_ne, K5 by done.
    split; [reflexivity | ]. split.
    { unfold list_items. erewrite lookup_app_l_Some by exact Hpl. reflexivity. }
    split; [intros ? ? ? Hs; congruence | ].
    apply dedup_cap_spec.
  - eexists _, _. split; [exact Hrun | ]. rewrite Hheap.
    match goal with |- context [failure_record ?a ?b ?c ?d] =>
      destruct (failure_record_keys a b c d) as (K1 & _)
    end.
    rewrite field_ext0, K1. discriminate.
  - eexists _, _. split; [exact Hrun | ]. intros _. exists (length (heap s)), text. simpl.
    match goal with |- context [success_record ?a ?b ?c ?d ?e ?f] =>
      destruct (success_record_keys a b c d e f) as (_ & _ & _ & _ & K5 & _)
    end.
    rewrite field_ext1, K5. split; [reflexivity | ]. split.
    { unfold list_items. rewrite lookup_ext0. reflexivity. }
    split; [ | apply dedup_cap_spec].
    intros page0 text0 title0 _ Hfetch0.
    destruct Hfetch as (_ & _ & _ & Hp & _ & _ & _ & Ht & _).
    destruct Hfetch0 as (_ & _ & _ & Hp0 & _ & _ & _ & Ht0 & _).
    rewrite Hp in Hp0. injection Hp0 as <-. rewrite Ht in Ht0. by injection Ht0.
Qed.

(** C8, an instance: a token seen twice is kept once, at its first place. *)
Lemma all_prices_dedup_order_cap_witness :
  exists v s' pl,
    extract_price demo_world
      (demo_browser (demo_page "$5 then $200 then $5 again" "Item" no_element))
      "https://shop.example.com/item" initial_state = (Ok v, s') /\
    field (heap s') v "all_prices" = Some (VRef pl) /\
    list_items (heap s') (VRef pl) = Some [VStr "$5"; VStr "$200"].
Proof.
  destruct (all_prices_dedup_order_cap demo_world
              (demo_browser (demo_page "$5 then $200 then $5 again" "Item" no_element))
              "https://shop.example.com/item" initial_state)
    as (v & s' & Hrun & H).
  - constructor.
  - destruct H as (pl & text & Hf & Hl & Htext & _).
    + vm_compute in Hrun. injection Hrun as <- <-. vm_compute. reflexivity.
    + exists v, s', pl. split; [exact Hrun | ]. split; [exact Hf | ].
      rewrite Hl.
      rewrite (Htext (demo_page "$5 then $200 then $5 again" "Item" no_element)
                 "$5 then $200 then $5 again" "Item" eq_refl).
      * reflexivity.
      * repeat split.
Defined.

(** C10: in every state the service can reach, the record a request
    returns has [cache_hit] set to true when it was served from the cache
    and has no [cache_hit] when it was computed; and no value the cache
    holds has a [cache_hit], before or after the request. *)
Theorem cache_hit_exactly_when_served (w : World) (pw : Playwright) (url : string) (s : state) :
  reachable w s ->
  (forall key value,
      stored key s = Some value ->
      field (heap s) value "success" = Some (VBool true) /\
      field (heap s) value "cache_hit" = None) /\
  exists v s',
    extract_price w pw url s = (Ok v, s') /\
    (served_from_cache w url s = true -> field (heap s') v "cache_hit" = Some (VBool true)) /\
    (served_from_cache w url s = false -> field (heap s') v "cache_hit" = None) /\
    (forall key value,
        stored key s' = Some value ->
        field (heap s') value "success" = Some (VBool true) /\
        field (heap s') value "cache_hit" = None).
Proof.
  intros Hreach.
  assert (Hstored : forall s0, state_ok s0 -> forall key value,
             stored key s0 = Some value ->
             field (heap s0) value "success" = Some (VBool true) /\
             field (heap s0) value "cache_hit" = None).
  { intros s0 Hok0 key value Hst. unfold stored in Hst.
    destruct (store_get key (_store (cache s0))) as [[v0 ts]|] eqn:Hget; [ | discriminate].
    injection Hst as <-.
    apply store_get_elem in Hget.
    unfold state_ok in Hok0. rewrite Forall_forall in Hok0. specialize (Hok0 _ Hget).
    destruct Hok0 as (l & u & title & price & pl & t & ms & text & Hv & Hl & _).
    simpl in Hv. subst v0. unfold field. rewrite Hl.
    destruct (success_record_keys u title price (VRef pl) t ms) as (K1 & _ & _ & _ & _ & _ & _ & _ & K9).
    auto. }
  pose proof (reachable_state_ok w s Hreach) as Hok.
  split; [by apply Hstored | ].
  destruct (extract_price w pw url s) as [r s'] eqn:Hrun.
  assert (Hok' : state_ok s').
  { apply (reachable_state_ok w). eapply reachable_extract; eassumption. }
  destruct (extract_price_cases w pw url s Hok)
    as [(Hserved & l & ts & u & title & price & pl & t & ms & text & _ & _ & _ & Hrun1)
       | [(Hserved & e & s1 & _ & Hrun1 & Hheap & _)
         | (Hserved & page & text & title & _ & Hrun1)]];
    rewrite Hrun in Hrun1; injection Hrun1 as -> Hs'.
  - eexists _, _. split; [reflexivity | ]. rewrite Hserved.
    split; [ | split; [discriminate | by apply Hstored]].
    intros _. subst s'. simpl. rewrite field_ext0. apply lookup_insert_eq.
  - subst s1. eexists _, _. split; [reflexivity | ]. rewrite Hserved.
    split; [discriminate | split; [ | by apply Hstored]].
    intros _. rewrite Hheap.
    match goal with |- context [failure_record ?a ?b ?c ?d] =>
      destruct (failure_record_keys a b c d) as (_ & _ & _ & _ & _ & _ & _ & _ & K9)
    end.
    by rewrite field_ext0.
  - eexists _, _. split; [reflexivity | ]. rewrite Hserved.
    split; [discriminate | split; [ | by apply Hstored]].
    intros _. subst s'. simpl.
    match goal with |- context [success_record ?a ?b ?c ?d ?e ?f] =>
      destruct (success_record_keys a b c d e f) as (_ & _ & _ & _ & _ & _ & _ & _ & K9)
    end.
    by rewrite field_ext1.
Qed.

(** C10, an instance: the second request for a URL, one second after the
    first, is served from the cache. *)
Lemma cache_hit_exactly_when_served_witness :
  exists v s',
    extract_price demo_world (demo_browser timeout_page)
      "https://shop.example.com/item" state_after_first_request = (Ok v, s') /\
    field (heap s') v "cache_hit" = Some (VBool true).
Proof.
  destruct (proj2 (cache_hit_exactly_when_served demo_world (demo_browser timeout_page)
                     "https://shop.example.com/item" state_after_first_request
                     (reachable_extract demo_world initial_state
                        (demo_browser (demo_page "now $250" "Item" no_element))
                        "https://shop.example.com/item" _ _
                        (reachable_start demo_world)
                        (surjective_pairing _))))
    as (v & s' & Hrun & Hhit & _).
  exists v, s'. split; [exact Hrun | ]. apply Hhit. vm_compute. reflexivity.
Defined.


(** ** The copy [cache.get] returns *)

Lemma success_record_ref url title price prices ts ms k p :
  success_record url title price prices ts ms !! k = Some (VRef p) -> prices = VRef p.
Proof.
  unfold success_record.
  repeat (rewrite lookup_insert; case_decide; [intros [= ?]; try discriminate; done | ]).
  rewrite lookup_empty. discriminate.
Qed.

Lemma deep_value_entry_frame h h' v :
  entry_ok h v ->
  (forall j, (j < length h)%nat -> h' !! j = h !! j) ->
  deep_value 2 h' v = deep_value 2 h v.
Proof.
  intros (l & url & title & price & pl & ts & ms & text & -> & Hl & Hpl) Hsame.
  assert (Hl' : h' !! l = h !! l) by (apply Hsame; by eapply lookup_lt_Some).
  assert (Hpl' : h' !! pl = h !! pl) by (apply Hsame; by eapply lookup_lt_Some).
  change (deep_value 2 h' (VRef l)) with
    (match h' !! l with
     | Some (ODict d) => TDict (map (fun kv => (fst kv, deep_value 1 h' (snd kv))) (map_to_list d))
     | Some (OList xs) => TList (map (deep_value 1 h') xs)
     | None => TDangling
     end).
  change (deep_value 2 h (VRef l)) with
    (match h !! l with
     | Some (ODict d) => TDict (map (fun kv => (fst kv, deep_value 1 h (snd kv))) (map_to_list d))
     | Some (OList xs) => TList (map (deep_value 1 h) xs)
     | None => TDangling
     end).
  rewrite Hl', Hl. f_equal. apply map_ext_in. intros [k x] Hin. simpl. f_equal.
  apply list_elem_of_In, elem_of_map_to_list in Hin.
  destruct x as [| | | | |p]; try reflexivity.
  apply success_record_ref in Hin. injection Hin as <-.
  unfold deep_value. rewrite Hpl'. reflexivity.
Qed.

(** C2, as amended: the value [cache.get] returns for an entry of the
    service is a new dict with the entries of the stored one, so a
    shallow copy: its [all_prices] is the very list of the stored value.
    Setting any key of the returned dict, [cache_hit] included, leaves
    the store, every other object of the heap and the deep value of the
    stored entry as they were. *)
Theorem cache_get_copy_is_shallow (w : World) (key : string) (s : state)
        (value : val) (timestamp : Q) :
  state_ok s ->
  store_get key (_store (cache s)) = Some (value, timestamp) ->
  ~ (inject_Z (_ttl (cache s)) < clock w (ticks s) - timestamp)%Q ->
  exists copy s' pl,
    cache_get w key s = (Ok copy, s') /\
    copy <> value /\
    (forall k, field (heap s') copy k = field (heap s') value k) /\
    field (heap s') copy "all_prices" = Some (VRef pl) /\
    field (heap s') value "all_prices" = Some (VRef pl) /\
    stored key s' = Some value /\
    deep_value 2 (heap s') value = deep_value 2 (heap s) value /\
    forall k x,
    exists s'',
      dict_setitem copy k x s' = (Ok tt, s'') /\
      field (heap s'') copy k = Some x /\
      stored key s'' = Some value /\
      (forall j, VRef j <> copy -> heap s'' !! j = heap s' !! j) /\
      deep_value 2 (heap s'') value = deep_value 2 (heap s) value.
Proof.
  intros Hok Hget Hfresh. apply Qltb_false in Hfresh.
  pose proof (store_get_elem _ _ _ Hget) as Hin.
  unfold state_ok in Hok. rewrite Forall_forall in Hok. specialize (Hok _ Hin). simpl in Hok.
  pose proof Hok as Hentry.
  destruct Hok as (l & u & title & price & pl & t & ms & text & -> & Hl & Hpl).
  assert (Hlt : (l < length (heap s))%nat) by (by eapply lookup_lt_Some).
  rewrite (cache_get_fresh _ _ _ _ _ Hget Hfresh).
  erewrite copy_if_dict_dict by exact Hl.
  eexists _, _, pl. split; [reflexivity | ]. simpl.
  destruct (success_record_keys u title price (VRef pl) t ms) as (_ & _ & _ & _ & K5 & _).
  assert (Hl1 : (heap s ++ [ODict (success_record u title price (VRef pl) t ms)]) !! l
                = Some (ODict (success_record u title price (VRef pl) t ms)))
    by (by apply lookup_app_l_Some).
  split; [intros [= E]; lia | ].
  split; [intros k; rewrite field_ext0; unfold field; by rewrite Hl1 | ].
  split; [by rewrite field_ext0 | ].
  split; [unfold field; by rewrite Hl1 | ].
  split; [unfold stored; simpl; by rewrite Hget | ].
  split.
  { apply deep_value_entry_frame; [exact Hentry | ]. intros j Hj. by apply lookup_app_l. }
  intros k x.
  eexists. split; [apply dict_setitem_dict; simpl; apply lookup_ext0 | ]. simpl.
  split.
  { unfold field. rewrite list_lookup_insert_eq by (rewrite length_app; simpl; lia).
    apply lookup_insert_eq. }
  split; [unfold stored; simpl; by rewrite Hget | ].
  split.
  { intros j Hj. apply list_lookup_insert_ne. intros <-. by apply Hj. }
  apply deep_value_entry_frame; [exact Hentry | ].
  intros j Hj. apply lookup_insert_app_below; [done | lia].
Qed.

(** C2, an instance: the record cached by a first request, read back. *)
Lemma cache_get_copy_is_shallow_witness :
  exists copy s' s'',
    cache_get demo_world "https://shop.example.com/item" state_after_first_request
      = (Ok copy, s') /\
    dict_setitem copy "cache_hit" (VBool true) s' = (Ok tt, s'') /\
    field (heap s'') copy "cache_hit" = Some (VBool true) /\
    stored "https://shop.example.com/item" s'' = Some (VRef 2%nat) /\
    field (heap s'') (VRef 2%nat) "cache_hit" = None.
Proof.
  destruct (cache_get_copy_is_shallow demo_world "https://shop.example.com/item"
              state_after_first_request (VRef 2%nat) (inject_Z 3))
    as (copy & s' & pl & Hrun & _ & _ & _ & _ & _ & _ & Hset).
  - apply (reachable_state_ok demo_world).
    exact (reachable_extract demo_world initial_state
             (demo_browser (demo_page "now $250" "Item" no_element))
             "https://shop.example.com/item" _ _
             (reachable_start demo_world) (surjective_pairing _)).
  - vm_compute. reflexivity.
  - vm_compute. intros H. discriminate H.
  - destruct (Hset "cache_hit" (VBool true)) as (s'' & Hs & Hf & Hst & _).
    exists copy, s', s''. split; [exact Hrun | ]. split; [exact Hs | ].
    split; [exact Hf | ]. split; [exact Hst | ].
    vm_compute in Hrun. injection Hrun as <- <-.
    vm_compute in Hs. injection Hs as <-.
    vm_compute. reflexivity.
Defined.

(** C2, as stated, fails: the copy is not deep.  A caller that appends to
    the [all_prices] of the record it got from the cache changes the
    [all_prices] of the stored entry. *)
Lemma cache_copy_shares_all_prices_counterexample :
  stored_all_prices "https://shop.example.com/item" state_after_first_request
    = Some [VStr "$250"] /\
  fst (append_to_all_prices demo_world "https://shop.example.com/item" (VStr "$0")
         state_after_first_request) = Ok tt /\
  stored_all_prices "https://shop.example.com/item"
    (snd (append_to_all_prices demo_world "https://shop.example.com/item" (VStr "$0")
            state_after_first_request))
    = Some [VStr "$250"; VStr "$0"].
Proof. repeat split; vm_compute; reflexivity. Qed.

(* ================================================================== *)
(** * Part III: further properties of the code *)
(* ================================================================== *)

(** ** [SimpleCache.set]: eviction *)

Section StoreMore.
Implicit Types (st items : list (string * (val * Q))) (key k : string).

Lemma evict_filter items st :
  evict items st = filter (fun kv => fst kv ∉ fst <$> items) st.
Proof.
  unfold evict. revert st. induction items as [|it items IH]; intros st; simpl.
  - induction st as [|kv st IHst]; [done | ].
    rewrite filter_cons_True by apply not_elem_of_nil. by rewrite <- IHst.
  - rewrite IH, store_del_filter, list_filter_filter.
    apply list_filter_iff. intros kv. rewrite not_elem_of_cons. tauto.
Qed.

Lemma store_get_evict k items st :
  store_get k (evict items st)
  = if decide (k ∈ fst <$> items) then None else store_get k st.
Proof.
  unfold evict. revert st. induction items as [|it items IH]; intros st; simpl.
  - destruct (decide (k ∈ [])) as [H|H]; [by apply elem_of_nil in H | done].
  - rewrite IH.
    destruct (decide (k ∈ fst <$> items)) as [H|H].
    + rewrite decide_True; [done | by right].
    + destruct (decide (k = fst it)) as [->|Hne].
      * rewrite decide_True by left. apply store_get_del_eq.
      * rewrite decide_False.
        -- by apply store_get_del_ne.
        -- rewrite elem_of_cons. tauto.
Qed.

Lemma insert_by_time_Permutation x st : insert_by_time x st ≡ₚ x :: st.
Proof.
  induction st as [|y st IH]; [done | ]. simpl.
  destruct (Qltb (snd (snd y)) (snd (snd x))); [ | done].
  rewrite IH. apply Permutation_swap.
Qed.

Lemma sorted_by_time_Permutation st : sorted_by_time st ≡ₚ st.
Proof.
  unfold sorted_by_time. induction st as [|x st IH]; [done | ]. simpl.
  rewrite insert_by_time_Permutation. by rewrite IH.
Qed.

Lemma insert_by_time_sorted x st :
  StronglySorted older st -> StronglySorted older (insert_by_time x st).
Proof.
  induction 1 as [|y st Hs IH Hy]; simpl.
  - repeat constructor.
  - destruct (Qltb (snd (snd y)) (snd (snd x))) eqn:E.
    + constructor; [exact IH | ].
      rewrite insert_by_time_Permutation. constructor; [ | exact Hy].
      apply Qltb_true in E. unfold older. by apply Qlt_le_weak.
    + apply Qltb_false in E. apply Qnot_lt_le in E.
      constructor; [by constructor | ].
      constructor; [exact E | ].
      eapply Forall_impl; [exact Hy | ]. intros z Hz. unfold older in *.
      eapply Qle_trans; eassumption.
Qed.

Lemma sorted_by_time_sorted st : StronglySorted older (sorted_by_time st).
Proof.
  unfold sorted_by_time. induction st as [|x st IH]; simpl; [constructor | ].
  by apply insert_by_time_sorted.
Qed.

Lemma sorted_take_drop (l : list (string * (val * Q))) n a b :
  StronglySorted older l -> a ∈ take n l -> b ∈ drop n l -> older a b.
Proof.
  intros Hs. revert n. induction Hs as [|x l Hs IH Hx]; intros n Ha Hb.
  - rewrite take_nil in Ha. by apply elem_of_nil in Ha.
  - destruct n as [|n]; simpl in *.
    + by apply elem_of_nil in Ha.
    + apply elem_of_cons in Ha as [-> | Ha].
      * rewrite Forall_forall in Hx. apply Hx.
        rewrite <- (take_drop n l). apply elem_of_app. by right.
      * eapply IH; eassumption.
Qed.

Lemma same_key_NoDup st a b :
  NoDup (fst <$> st) -> a ∈ st -> b ∈ st -> fst a = fst b -> a = b.
Proof.
  intros Hnd Ha Hb E.
  pose proof (store_get_NoDup st a Hnd Ha) as H1.
  pose proof (store_get_NoDup st b Hnd Hb) as H2.
  rewrite E in H1. rewrite H1 in H2. injection H2 as H2.
  destruct a, b; simpl in *; congruence.
Qed.

Lemma length_store_del key st : (length (store_del key st) <= length st)%nat.
Proof. rewrite store_del_filter. apply length_filter. Qed.

Lemma length_store_put key e st :
  length (store_put key e st)
  = match store_get key st with Some _ => length st | None => S (length st) end.
Proof.
  induction st as [|[k x] st IH]; [done | ].
  unfold store_put; fold store_put. unfold store_get; fold store_get.
  destruct (String.eqb k key); [done | ]. simpl. rewrite IH.
  by destruct (store_get key st).
Qed.

Lemma filter_none {A : Type} (P : A -> Prop) `{forall x, Decision (P x)} (l : list A) :
  (forall x, x ∈ l -> ~ P x) -> filter P l = [].
Proof.
  induction l as [|x l IH]; intros Hl; [done | ].
  rewrite filter_cons_False by (apply Hl; left). apply IH. intros y Hy. apply Hl. by right.
Qed.

Lemma length_pruned st :
  (length (pruned st) <= length st)%nat /\
  ((1000 < length st)%nat -> (length (pruned st) + 100 <= length st)%nat).
Proof.
  unfold pruned.
  destruct (Z.ltb_spec 1000 (Z.of_nat (length st))) as [H|H]; [ | split; lia].
  assert (HL : (length (evict (take 100 (sorted_by_time st)) st) + 100 <= length st)%nat).
  { rewrite evict_filter.
    set (E := take 100 (sorted_by_time st)).
    set (P := fun kv : string * (val * Q) => fst kv ∉ fst <$> E).
    assert (Hp : st ≡ₚ E ++ drop 100 (sorted_by_time st)).
    { unfold E. rewrite take_drop. symmetry. apply sorted_by_time_Permutation. }
    rewrite (Permutation_length (filter_Permutation P _ _ Hp)).
    rewrite filter_app, length_app.
    rewrite (filter_none P E).
    2: { intros x Hx HP. apply HP. by apply list_elem_of_fmap_2. }
    pose proof (length_filter P (drop 100 (sorted_by_time st))) as H1.
    rewrite length_drop in H1.
    rewrite (Permutation_length (sorted_by_time_Permutation st)) in H1.
    simpl. lia. }
  split; [lia | intros _; exact HL].
Qed.

Lemma store_put_keys key e st :
  fst <$> store_put key e st
  = match store_get key st with
    | Some _ => fst <$> st
    | None => (fst <$> st) ++ [key]
    end.
Proof.
  induction st as [|[k x] st IH]; [done | ].
  unfold store_put; fold store_put. unfold store_get; fold store_get.
  destruct (String.eqb k key) eqn:E; [done | ]. rewrite !fmap_cons, IH.
  by destruct (store_get key st).
Qed.

Lemma store_put_NoDup key e st :
  NoDup (fst <$> st) -> NoDup (fst <$> store_put key e st).
Proof.
  intros H. rewrite store_put_keys.
  destruct (store_get key st) eqn:E; [done | ].
  apply NoDup_app. split; [done | ]. split; [ | apply NoDup_singleton].
  intros x Hx Hk. apply list_elem_of_singleton in Hk. subst x.
  apply store_get_None in E. contradiction.
Qed.

Lemma store_del_NoDup key st :
  NoDup (fst <$> st) -> NoDup (fst <$> store_del key st).
Proof.
  intros H. rewrite store_del_filter. eapply sublist_NoDup; [exact H | ].
  apply fmap_sublist, sublist_filter.
Qed.

Lemma pruned_NoDup st : NoDup (fst <$> st) -> NoDup (fst <$> pruned st).
Proof.
  intros H. unfold pruned. destruct (1000 <? Z.of_nat (length st)); [ | done].
  rewrite evict_filter. eapply sublist_NoDup; [exact H | ].
  apply fmap_sublist, sublist_filter.
Qed.

Lemma store_bounded_del key st : store_bounded st -> store_bounded (store_del key st).
Proof.
  intros [H1 H2]. split; [by apply store_del_NoDup | ].
  pose proof (length_store_del key st). lia.
Qed.

Lemma store_bounded_put key e st :
  store_bounded st -> store_bounded (store_put key e (pruned st)).
Proof.
  intros [H1 H2]. split; [by apply store_put_NoDup, pruned_NoDup | ].
  rewrite length_store_put. destruct (length_pruned st) as [Ha Hb].
  destruct (store_get key (pruned st)); [lia | ].
  destruct (decide (1000 < length st)%nat) as [H|H]; [specialize (Hb H) | ]; lia.
Qed.

End StoreMore.

Lemma cache_set_run w key value s :
  exists copy s',
    cache_set w key value s = (Ok tt, s') /\
    cache s' = {| _ttl := _ttl (cache s);
                  _store := store_put key (copy, clock w (ticks s))
                              (pruned (_store (cache s))) |} /\
    ticks s' = S (ticks s) /\
    events s' = events s ++ [Call_cache_set] /\
    match value with
    | VRef l =>
        match heap s !! l with
        | Some (ODict d) => copy = VRef (length (heap s)) /\ heap s' = heap s ++ [ODict d]
        | _ => copy = value /\ heap s' = heap s
        end
    | _ => copy = value /\ heap s' = heap s
    end.
Proof.
  destruct (is_dict (heap s) value) eqn:D.
  - destruct value as [| | | | |l]; try discriminate. simpl in D.
    destruct (heap s !! l) as [[d|xs]|] eqn:El; try discriminate.
    eexists _, _. split; [apply cache_set_dict; exact El | ]. simpl. auto.
  - exists value.
    assert (Hrun : forall s0, heap s0 = heap s ->
      (copy <- copy_if_dict value ;;
       now <- time_time w ;;
       s' <- get_state ;;
       modify (set_store (store_put key (copy, now) (_store (cache s'))))) s0
      = (Ok tt, set_store (store_put key (value, clock w (ticks s0)) (_store (cache s0)))
                  (tick s0))).
    { intros s0 Hh. erewrite bind_Ok by (apply copy_if_dict_other; rewrite Hh; exact D).
      reflexivity. }
    exists (set_store (store_put key (value, clock w (ticks s)) (pruned (_store (cache s))))
              (tick (add_event Call_cache_set s))).
    split.
    + unfold cache_set, pruned.
      rewrite (bind_Ok _ _ s tt (add_event Call_cache_set s)) by reflexivity.
      rewrite (bind_Ok _ _ _ (add_event Call_cache_set s) (add_event Call_cache_set s))
        by reflexivity.
      change (_store (cache (add_event Call_cache_set s))) with (_store (cache s)).
      destruct (1000 <? Z.of_nat (length (_store (cache s)))); unfold when.
      * erewrite bind_Ok by reflexivity. rewrite Hrun by reflexivity. reflexivity.
      * erewrite bind_Ok by reflexivity. rewrite Hrun by reflexivity. reflexivity.
    + simpl. repeat split; try reflexivity.
      destruct value as [| | | | |l]; auto.
      simpl in D. destruct (heap s !! l) as [[d|xs]|]; auto. discriminate.
Qed.

(** X1: what [cache.set(key, value)] stores, [cache.get(key)] gives back
    while the entry is no older than the time to live: a dict goes in as
    a copy and comes out as another copy, so the caller's dict, the
    stored one and the returned one are three objects with the same
    entries; any other value comes back as it is.  Once the age exceeds
    the time to live the read reports absent and the entry is gone. *)
Theorem cache_set_get_round_trip (w : World) (key : string) (value : val) (s : state) :
  let age := (clock w (S (ticks s)) - clock w (ticks s))%Q in
  exists s1,
    cache_set w key value s = (Ok tt, s1) /\
    ((inject_Z (_ttl (cache s)) < age)%Q ->
       exists s2, cache_get w key s1 = (Ok VNone, s2) /\ stored key s2 = None) /\
    (~ (inject_Z (_ttl (cache s)) < age)%Q ->
       exists v s2,
         cache_get w key s1 = (Ok v, s2) /\
         match value with
         | VRef l =>
             match heap s !! l with
             | Some (ODict d) =>
                 v = VRef (S (length (heap s))) /\
                 stored key s2 = Some (VRef (length (heap s))) /\
                 heap s2 = heap s ++ [ODict d; ODict d]
             | _ => v = value /\ stored key s2 = Some value /\ heap s2 = heap s
             end
         | _ => v = value /\ stored key s2 = Some value /\ heap s2 = heap s
         end).
Proof.
  intros age.
  destruct (cache_set_run w key value s) as (copy & s1 & Hrun & Hcache & Hticks & _ & Hcopy).
  exists s1. split; [exact Hrun | ].
  assert (Hget : store_get key (_store (cache s1)) = Some (copy, clock w (ticks s)))
    by (rewrite Hcache; apply store_get_put_eq).
  assert (Httl : _ttl (cache s1) = _ttl (cache s)) by (rewrite Hcache; reflexivity).
  split.
  - intros Hexp. apply Qltb_true in Hexp.
    eexists. split.
    + eapply cache_get_expired; [exact Hget | ]. rewrite Httl, Hticks. exact Hexp.
    + unfold stored. simpl. rewrite store_get_del_eq. reflexivity.
  - intros Hfresh. apply Qltb_false in Hfresh.
    assert (Hg : cache_get w key s1 = copy_if_dict copy (tick (add_event Call_cache_get s1))).
    { eapply cache_get_fresh; [exact Hget | ]. rewrite Httl, Hticks. exact Hfresh. }
    rewrite Hg.
    assert (Hother : is_dict (heap s) value = false -> copy = value -> heap s1 = heap s ->
              exists v s2, copy_if_dict copy (tick (add_event Call_cache_get s1)) = (Ok v, s2) /\
                           v = value /\ stored key s2 = Some value /\ heap s2 = heap s).
    { intros D -> Hh. eexists _, _. split.
      - apply copy_if_dict_other. simpl. rewrite Hh. exact D.
      - unfold stored. simpl. rewrite Hget. auto. }
    destruct value as [| | | | |l]; try (destruct Hcopy; by apply Hother).
    destruct (heap s !! l) as [[d|xs]|] eqn:El.
    + destruct Hcopy as [-> Hh]. eexists _, _. split.
      * apply copy_if_dict_dict. simpl. rewrite Hh. apply lookup_ext0.
      * unfold stored. simpl. rewrite Hget, Hh, length_app, <- app_assoc. simpl.
        rewrite Nat.add_1_r. auto.
    + destruct Hcopy. apply Hother; [simpl; by rewrite El | done..].
    + destruct Hcopy. apply Hother; [simpl; by rewrite El | done..].
Qed.

(** X2: [cache.set(key, value)] never gives another key an entry it did
    not have, never changes the entry of another key, and changes no
    object that existed before; while the store holds at most 1000
    entries every other key keeps its entry and the size grows by one for
    a new key and not at all for a known one. *)
Theorem cache_set_keeps_other_entries (w : World) (key : string) (value : val) (s : state) :
  let store := _store (cache s) in
  exists s',
    cache_set w key value s = (Ok tt, s') /\
    (forall k e, k <> key -> store_get k (_store (cache s')) = Some e -> store_get k store = Some e) /\
    ((length store <= 1000)%nat ->
       (forall k, k <> key -> store_get k (_store (cache s')) = store_get k store) /\
       length (_store (cache s'))
       = match store_get key store with Some _ => length store | None => S (length store) end) /\
    (forall l o, heap s !! l = Some o -> heap s' !! l = Some o).
Proof.
  intros store.
  destruct (cache_set_run w key value s) as (copy & s' & Hrun & Hcache & _ & _ & Hcopy).
  exists s'. split; [exact Hrun | ]. rewrite Hcache. simpl. fold store. repeat split.
  - intros k e Hk. rewrite store_get_put_ne by done. unfold pruned.
    destruct (1000 <? Z.of_nat (length store)); [ | done].
    rewrite store_get_evict. by destruct (decide _).
  - intros k Hk. rewrite store_get_put_ne by done. unfold pruned.
    destruct (Z.ltb_spec 1000 (Z.of_nat (length store))); [lia | done].
  - unfold pruned. destruct (Z.ltb_spec 1000 (Z.of_nat (length store))); [lia | ].
    apply length_store_put.
  - intros l o Hl.
    assert (Hh : heap s' = heap s \/ exists d, heap s' = heap s ++ [ODict d]).
    { destruct value as [| | | | |r]; try (left; tauto).
      destruct (heap s !! r) as [[d|xs]|]; [right; exists d; tauto | left; tauto..]. }
    destruct Hh as [-> | (d & ->)]; [done | ]. by apply lookup_app_l_Some.
Qed.

(** X3: when the store holds more than 1000 entries, [cache.set] first
    evicts 100 of them, and these are the oldest: no evicted entry was
    stored later than an entry that stays.  Evicted keys are gone, every
    other entry is kept as it was, and the store ends at least 99 entries
    smaller. *)
Theorem cache_set_evicts_oldest (w : World) (key : string) (value : val) (s : state) :
  let store := _store (cache s) in
  NoDup (fst <$> store) ->
  (1000 < length store)%nat ->
  exists s' evicted,
    cache_set w key value s = (Ok tt, s') /\
    length evicted = 100%nat /\
    (forall a, a ∈ evicted -> a ∈ store) /\
    (forall a b, a ∈ evicted -> b ∈ store -> b ∉ evicted -> older a b) /\
    (forall a, a ∈ evicted -> fst a <> key ->
               store_get (fst a) (_store (cache s')) = None) /\
    (forall b, b ∈ store -> b ∉ evicted -> fst b <> key ->
               store_get (fst b) (_store (cache s')) = Some (snd b)) /\
    (length (_store (cache s')) <= length store - 99)%nat.
Proof.
  intros store Hnd Hlen.
  destruct (cache_set_run w key value s) as (copy & s' & Hrun & Hcache & _).
  set (sorted := sorted_by_time store).
  assert (Hperm : sorted ≡ₚ store) by apply sorted_by_time_Permutation.
  assert (Hpruned : pruned store = evict (take 100 sorted) store).
  { unfold pruned. destruct (Z.ltb_spec 1000 (Z.of_nat (length store))); [done | lia]. }
  exists s', (take 100 sorted). split; [exact Hrun | ].
  rewrite Hcache. simpl. fold store. rewrite Hpruned.
  assert (Hsub : forall a, a ∈ take 100 sorted -> a ∈ store).
  { intros a Ha. rewrite <- Hperm. rewrite <- (take_drop 100 sorted).
    apply elem_of_app. by left. }
  repeat split.
  - rewrite length_take, (Permutation_length Hperm). lia.
  - exact Hsub.
  - intros a b Ha Hb Hnb.
    apply (sorted_take_drop sorted 100); [apply sorted_by_time_sorted | exact Ha | ].
    rewrite <- Hperm, <- (take_drop 100 sorted) in Hb.
    apply elem_of_app in Hb as [Hb | Hb]; [contradiction | exact Hb].
  - intros a Ha Hk. rewrite store_get_put_ne by done. rewrite store_get_evict.
    rewrite decide_True; [done | by apply list_elem_of_fmap_2].
  - intros b Hb Hnb Hk. rewrite store_get_put_ne by done. rewrite store_get_evict.
    rewrite decide_False; [by apply store_get_NoDup | ].
    intros Hin. apply list_elem_of_fmap in Hin as (a & E & Ha).
    apply Hnb. rewrite (same_key_NoDup store b a Hnd Hb (Hsub a Ha) E). exact Ha.
  - rewrite length_store_put, <- Hpruned.
    destruct (length_pruned store) as [_ Hb]. specialize (Hb Hlen).
    destruct (store_get key (pruned store)); lia.
Qed.

(** X3, an instance: a store of 1001 entries. *)
Lemma cache_set_evicts_oldest_witness :
  exists (s' : state) (evicted : list (string * (val * Q))),
    cache_set demo_world "new" VNone full_state = (Ok tt, s') /\
    length evicted = 100%nat /\
    (length (_store (cache s')) <= 902)%nat.
Proof.
  destruct (cache_set_evicts_oldest demo_world "new" VNone full_state)
    as (s' & evicted & Hrun & Hlen & _ & _ & _ & _ & Hsize).
  - refine (@bool_decide_unpack _ (NoDup_dec _) _). vm_compute. reflexivity.
  - vm_compute. lia.
  - exists s', evicted. split; [exact Hrun | ]. split; [exact Hlen | exact Hsize].
Defined.


(** ** What a request does to the store *)

Lemma extract_price_store w pw (url : string) s r s' :
  state_ok s ->
  extract_price w pw url s = (r, s') ->
  _ttl (cache s') = _ttl (cache s) /\
  (_store (cache s') = _store (cache s) \/
   _store (cache s') = store_del (md5_hexdigest w url) (_store (cache s)) \/
   exists e, _store (cache s')
             = store_put (md5_hexdigest w url) e (pruned (_store (cache (after_miss w url s))))).
Proof.
  intros Hok Hrun.
  assert (Hs1 : _ttl (cache (after_miss w url s)) = _ttl (cache s) /\
                (_store (cache (after_miss w url s)) = _store (cache s) \/
                 _store (cache (after_miss w url s))
                 = store_del (md5_hexdigest w url) (_store (cache s)))).
  { unfold after_miss. destruct (store_get _ _); simpl; auto. }
  destruct (extract_price_cases w pw url s Hok)
    as [(_ & l & ts & u & title & price & pl & t & ms & text & _ & _ & _ & Hrun1)
       | [(_ & e & s1 & _ & Hrun1 & _ & Hcache & _)
         | (_ & page & text & title & _ & Hrun1)]];
    rewrite Hrun in Hrun1; injection Hrun1 as -> ->.
  - auto.
  - rewrite Hcache. destruct Hs1 as [H1 [H2 | H2]]; auto.
  - simpl. split; [tauto | ]. right. right. eexists. reflexivity.
Qed.

(** X6: a request for one URL gives no other key of the cache a new
    entry and changes none; while the store holds at most 1000 entries
    what the cache holds for every other key stays exactly as it was. *)
Theorem request_leaves_other_urls_cached (w : World) (pw : Playwright) (url : string)
        (s : state) :
  state_ok s ->
  exists v s',
    extract_price w pw url s = (Ok v, s') /\
    (forall k e, k <> md5_hexdigest w url ->
                 store_get k (_store (cache s')) = Some e ->
                 store_get k (_store (cache s)) = Some e) /\
    ((length (_store (cache s)) <= 1000)%nat ->
     forall k, k <> md5_hexdigest w url ->
               store_get k (_store (cache s')) = store_get k (_store (cache s))).
Proof.
  intros Hok.
  destruct (extract_price_total w pw url s) as (v & s' & Hrun).
  exists v, s'. split; [exact Hrun | ].
  destruct (extract_price_store w pw url s _ s' Hok Hrun) as [_ Hstore].
  set (key := md5_hexdigest w url) in *.
  assert (Hmiss : forall k, k <> key ->
            store_get k (_store (cache (after_miss w url s))) = store_get k (_store (cache s))).
  { intros k Hk. unfold after_miss. fold key.
    destruct (store_get key (_store (cache s))); simpl; [by apply store_get_del_ne | done]. }
  assert (Hlen : (length (_store (cache (after_miss w url s))) <= length (_store (cache s)))%nat).
  { unfold after_miss. fold key.
    destruct (store_get key (_store (cache s))); simpl; [apply length_store_del | done]. }
  destruct Hstore as [-> | [-> | (e0 & ->)]].
  - split; [auto | auto].
  - split.
    + intros k e Hk. by rewrite store_get_del_ne.
    + intros _ k Hk. by apply store_get_del_ne.
  - split.
    + intros k e Hk. rewrite store_get_put_ne by done. unfold pruned.
      destruct (1000 <? _).
      * rewrite store_get_evict. destruct (decide _); [discriminate | ]. by rewrite Hmiss.
      * by rewrite Hmiss.
    + intros Hsmall k Hk. rewrite store_get_put_ne by done. unfold pruned.
      destruct (Z.ltb_spec 1000 (Z.of_nat (length (_store (cache (after_miss w url s))))));
        [lia | by apply Hmiss].
Qed.

(** X6, an instance: a second URL, requested after a first was cached. *)
Lemma request_leaves_other_urls_cached_witness :
  exists v s',
    extract_price demo_world (demo_browser (demo_page "now $99" "Other" no_element))
      "https://shop.example.com/other" state_after_first_request = (Ok v, s') /\
    store_get "https://shop.example.com/item" (_store (cache s'))
    = store_get "https://shop.example.com/item" (_store (cache state_after_first_request)).
Proof.
  destruct (request_leaves_other_urls_cached demo_world
              (demo_browser (demo_page "now $99" "Other" no_element))
              "https://shop.example.com/other" state_after_first_request)
    as (v & s' & H1 & _ & H3).
  - apply (reachable_state_ok demo_world).
    exact (reachable_extract demo_world initial_state
             (demo_browser (demo_page "now $250" "Item" no_element))
             "https://shop.example.com/item" _ _ (reachable_start demo_world)
             (surjective_pairing _)).
  - exists v, s'. split; [exact H1 | ]. apply H3; [vm_compute; lia | discriminate].
Defined.


(** ** Old objects stay as they are *)

Lemma fetch_and_extract_extends w pw url key s :
  exists l d s' ext,
    fetch_and_extract w pw url key s = (Ok (VRef l), s') /\
    heap s' = heap s ++ ext /\
    heap s' !! l = Some (ODict d) /\
    (length (heap s) <= l)%nat.
Proof.
  destruct (fetch_failure pw url) as [e|] eqn:Hf.
  - destruct (fetch_and_extract_failure w pw url key s e Hf) as (s' & Hrun & Hheap & _).
    eexists _, _, s', _. split; [exact Hrun | ]. split; [exact Hheap | ].
    rewrite Hheap. split; [apply lookup_ext0 | lia].
  - apply fetch_failure_None in Hf as (page & text & title & Hfetch).
    rewrite (fetch_and_extract_success w pw url key s page text title Hfetch).
    eexists _, _, _, _. split; [reflexivity | ]. simpl.
    split; [reflexivity | ]. split; [apply lookup_ext1 | lia].
Qed.

Lemma extract_price_extends w pw (url : string) s :
  exists v s' ext,
    extract_price w pw url s = (Ok v, s') /\
    heap s' = heap s ++ ext /\
    (forall l d, v = VRef l -> heap s' !! l = Some (ODict d) -> (length (heap s) <= l)%nat).
Proof.
  assert (Hmiss : forall s1 ext1, heap s1 = heap s ++ ext1 ->
            exists v s' ext,
              fetch_and_extract w pw url (md5_hexdigest w url) s1 = (Ok v, s') /\
              heap s' = heap s ++ ext /\
              (forall l d, v = VRef l -> heap s' !! l = Some (ODict d) ->
                           (length (heap s) <= l)%nat)).
  { intros s1 ext1 H1.
    destruct (fetch_and_extract_extends w pw url (md5_hexdigest w url) s1)
      as (l & d & s' & ext & Hrun & Hheap & _ & Hl).
    exists (VRef l), s', (ext1 ++ ext). split; [exact Hrun | ].
    split; [rewrite Hheap, H1; by rewrite app_assoc | ].
    intros l' d' [= <-] _. rewrite H1, length_app in Hl. lia. }
  unfold extract_price.
  destruct (store_get (md5_hexdigest w url) (_store (cache s))) as [[value ts]|] eqn:Hget.
  2: { erewrite bind_Ok by (apply cache_get_absent; exact Hget).
       erewrite bind_Ok by reflexivity. simpl.
       apply (Hmiss _ []). simpl. by rewrite app_nil_r. }
  destruct (Qltb (inject_Z (_ttl (cache s))) (clock w (ticks s) - ts)) eqn:Hage.
  { erewrite bind_Ok by (eapply cache_get_expired; eassumption).
    erewrite bind_Ok by reflexivity. simpl.
    apply (Hmiss _ []). simpl. by rewrite app_nil_r. }
  pose proof (cache_get_fresh w _ s value ts Hget Hage) as Hfr.
  destruct (is_dict (heap s) value) eqn:D.
  - destruct value as [| | | | |r]; try discriminate. simpl in D.
    destruct (heap s !! r) as [[d|xs]|] eqn:Er; try discriminate.
    erewrite bind_Ok by (rewrite Hfr; apply copy_if_dict_dict; simpl; exact Er).
    erewrite bind_Ok by reflexivity. simpl.
    rewrite lookup_ext0.
    destruct (negb (size d =? 0)%nat).
    + unfold when. erewrite bind_Ok.
      2: { apply dict_setitem_dict. simpl. apply lookup_ext0. }
      unfold ret. eexists _, _, _. split; [reflexivity | ]. simpl.
      rewrite insert_app_r_alt by lia. rewrite Nat.sub_diag. simpl.
      split; [reflexivity | ]. intros l d' [= <-] _. lia.
    + apply (Hmiss _ [ODict d]). reflexivity.
  - erewrite bind_Ok by (rewrite Hfr; apply copy_if_dict_other; exact D).
    erewrite bind_Ok by reflexivity. simpl.
    destruct (truthy (heap s) value).
    + rewrite D. unfold when. erewrite bind_Ok by reflexivity.
      unfold ret. exists value, (tick (add_event Call_cache_get s)), [].
      split; [reflexivity | ]. simpl. split; [by rewrite app_nil_r | ].
      intros l d -> Hl. simpl in D. rewrite Hl in D. discriminate.
    + apply (Hmiss _ []). simpl. by rewrite app_nil_r.
Qed.

(** X7: a request, and the loop body of the webhook that tags its
    record, only add objects to the heap: every dict and list that
    existed before, the records handed out earlier among them, is at the
    same place with the same content afterwards, from every state. *)
Theorem requests_leave_existing_objects (w : World) (pw : Playwright) (pid : val)
        (comp_key url : string) (s : state) :
  (exists ext, heap (snd (extract_price w pw url s)) = heap s ++ ext) /\
  (exists ext, heap (snd (webhook_entry w pw pid comp_key url s)) = heap s ++ ext).
Proof.
  destruct (extract_price_extends w pw url s) as (v & s1 & ext & Hrun & Hheap & Hfresh).
  split.
  - exists ext. rewrite Hrun. exact Hheap.
  - unfold webhook_entry. erewrite bind_Ok by exact Hrun.
    destruct (is_dict (heap s1) v) eqn:D.
    + destruct v as [| | | | |l]; try discriminate. simpl in D.
      destruct (heap s1 !! l) as [[d|xs]|] eqn:El; try discriminate.
      specialize (Hfresh l d eq_refl El).
      erewrite bind_Ok by (apply dict_setitem_dict; exact El).
      erewrite bind_Ok.
      2: { apply dict_setitem_dict. simpl. apply list_lookup_insert_eq.
           by eapply lookup_lt_Some. }
      unfold ret. simpl. rewrite list_insert_insert_eq. rewrite Hheap.
      rewrite insert_app_r_alt by lia. eexists. reflexivity.
    + assert (Hraise : dict_setitem v "pid" pid s1 = (Raise "TypeError", s1)).
      { unfold dict_setitem. erewrite bind_Ok by reflexivity.
        destruct v as [| | | | |l]; try reflexivity. simpl in D.
        destruct (heap s1 !! l) as [[d|xs]|]; [discriminate | reflexivity..]. }
      erewrite bind_Raise by exact Hraise. exists ext. exact Hheap.
Qed.


(** ** Two requests for one URL *)

(** X4: after a request that fetched and extracted with success, a
    second request for the same URL made before the entry is older than
    the time to live is served from the cache whatever the browser would
    do: it returns another record, equal to the first in every field but
    [cache_hit], which only the second carries; the first record, the
    cache and the browser are left alone, and the only component called
    is [cache.get]. *)
Theorem repeated_request_within_ttl (w : World) (pw pw' : Playwright) (url : string)
        (s : state) (page : Page) (text title : string) :
  served_from_cache w url s = false ->
  fetch_ok pw url page text title ->
  let s0 := after_miss w url s in
  let stored_at := clock w (S (S (S (ticks s0)))) in
  let read_at := clock w (S (S (S (S (ticks s0))))) in
  ~ (inject_Z (_ttl (cache s)) < read_at - stored_at)%Q ->
  exists v1 s1 v2 s2,
    extract_price w pw url s = (Ok v1, s1) /\
    extract_price w pw' url s1 = (Ok v2, s2) /\
    v2 <> v1 /\
    (forall k, k <> "cache_hit" -> field (heap s2) v2 k = field (heap s1) v1 k) /\
    field (heap s1) v1 "cache_hit" = None /\
    field (heap s2) v2 "cache_hit" = Some (VBool true) /\
    (forall k, field (heap s2) v1 k = field (heap s1) v1 k) /\
    cache s2 = cache s1 /\
    events s2 = events s1 ++ [Call_cache_get].
Proof.
  intros Hserved Hfetch s0 stored_at read_at Hfresh.
  rewrite (extract_price_miss _ _ _ _ Hserved). fold s0.
  rewrite (fetch_and_extract_success w pw url _ s0 page text title Hfetch).
  set (n := length (heap s0)).
  set (record := success_record url (strip title) (main_price_of page text url) (VRef n)
                   (isoformat w (S (ticks s0)))
                   (py_int (double ((clock w (S (S (ticks s0))) - clock w (ticks s0)) * 1000)))).
  match goal with |- context [(Ok (VRef (S n)), ?st)] => set (s1 := st) end.
  assert (Httl : _ttl (cache s0) = _ttl (cache s)).
  { unfold s0, after_miss. by destruct (store_get _ _). }
  assert (Hget : store_get (md5_hexdigest w url) (_store (cache s1))
                 = Some (VRef (S (S n)), stored_at)) by apply store_get_put_eq.
  assert (Hs1 : served_from_cache w url s1 = true).
  { unfold served_from_cache. rewrite Hget. apply negb_true_iff. apply Qltb_false.
    simpl. rewrite Httl. exact Hfresh. }
  assert (Hl : heap s1 !! S (S n) = Some (ODict record)) by apply lookup_ext2.
  pose proof (extract_price_hit w pw' url s1 _ _ _ Hget Hs1 Hl
                (success_record_truthy _ _ _ _ _ _)) as Hhit.
  eexists _, s1, _, _. split; [reflexivity | ]. split; [exact Hhit | ].
  destruct (success_record_keys url (strip title) (main_price_of page text url) (VRef n)
              (isoformat w (S (ticks s0)))
              (py_int (double ((clock w (S (S (ticks s0))) - clock w (ticks s0)) * 1000))))
    as (_ & _ & _ & _ & _ & _ & _ & _ & Kh).
  fold record in Kh.
  assert (F1 : forall k, field (heap s1) (VRef (S n)) k = record !! k).
  { intros k. apply field_ext1. }
  simpl. repeat split.
  - simpl. rewrite !length_app. simpl. intros [= H]. lia.
  - intros k Hk. rewrite F1, field_ext0. by rewrite lookup_insert_ne.
  - rewrite F1. exact Kh.
  - rewrite field_ext0. apply lookup_insert_eq.
  - intros k. unfold field. rewrite lookup_app_l; [done | ].
    simpl. rewrite length_app. simpl. lia.
Qed.

(** X4, an instance: the second request is given a browser whose
    navigation would time out. *)
Lemma repeated_request_within_ttl_witness :
  exists v1 s1 v2 s2,
    extract_price demo_world (demo_browser (demo_page "now $250" "Item" no_element))
      "https://shop.example.com/item" initial_state = (Ok v1, s1) /\
    extract_price demo_world (demo_browser timeout_page)
      "https://shop.example.com/item" s1 = (Ok v2, s2) /\
    field (heap s2) v2 "price" = field (heap s1) v1 "price" /\
    field (heap s2) v2 "cache_hit" = Some (VBool true).
Proof.
  destruct (repeated_request_within_ttl demo_world
              (demo_browser (demo_page "now $250" "Item" no_element))
              (demo_browser timeout_page)
              "https://shop.example.com/item" initial_state
              (demo_page "now $250" "Item" no_element) "now $250" "Item")
    as (v1 & s1 & v2 & s2 & H1 & H2 & _ & Hsame & _ & Hhit & _).
  - reflexivity.
  - repeat split.
  - vm_compute. intros H. discriminate H.
  - exists v1, s1, v2, s2. split; [exact H1 | ]. split; [exact H2 | ].
    split; [apply Hsame; discriminate | exact Hhit].
Defined.

(** X5: a request whose fetch or extraction fails returns the failure
    record and leaves no entry for its URL in the cache, an expired one
    being removed, so that the next request for the URL fetches again;
    the entries of the other keys stay as they were. *)
Theorem failed_request_is_not_cached (w : World) (pw : Playwright) (url : string)
        (s : state) (e : string) :
  served_from_cache w url s = false ->
  fetch_failure pw url = Some e ->
  exists v s',
    extract_price w pw url s = (Ok v, s') /\
    field (heap s') v "success" = Some (VBool false) /\
    stored (md5_hexdigest w url) s' = None /\
    served_from_cache w url s' = false /\
    (forall k, k <> md5_hexdigest w url ->
               store_get k (_store (cache s')) = store_get k (_store (cache s))).
Proof.
  intros Hserved Hf.
  rewrite (extract_price_miss _ _ _ _ Hserved).
  destruct (fetch_and_extract_failure w pw url (md5_hexdigest w url) (after_miss w url s) e Hf)
    as (s' & Hrun & Hheap & Hcache & _).
  exists (VRef (length (heap (after_miss w url s)))), s'. split; [exact Hrun | ].
  assert (Hgone : store_get (md5_hexdigest w url) (_store (cache s')) = None).
  { rewrite Hcache. unfold after_miss.
    destruct (store_get (md5_hexdigest w url) (_store (cache s))) eqn:E; simpl;
      [apply store_get_del_eq | exact E]. }
  repeat split.
  - rewrite Hheap, field_ext0.
    by destruct (failure_record_keys url e (isoformat w (S (ticks (after_miss w url s))))
                   (py_int (double ((clock w (S (S (ticks (after_miss w url s))))
                             - clock w (ticks (after_miss w url s))) * 1000)))) as [K _].
  - unfold stored. by rewrite Hgone.
  - unfold served_from_cache. by rewrite Hgone.
  - intros k Hk. rewrite Hcache. unfold after_miss.
    destruct (store_get (md5_hexdigest w url) (_store (cache s))); simpl; [ | done].
    by apply store_get_del_ne.
Qed.

(** X5, an instance: a navigation that times out. *)
Lemma failed_request_is_not_cached_witness :
  exists v s',
    extract_price demo_world (demo_browser timeout_page)
      "https://shop.example.com/item" initial_state = (Ok v, s') /\
    field (heap s') v "success" = Some (VBool false) /\
    stored "https://shop.example.com/item" s' = None.
Proof.
  destruct (failed_request_is_not_cached demo_world (demo_browser timeout_page)
              "https://shop.example.com/item" initial_state "Timeout 15000ms exceeded.")
    as (v & s' & H1 & H2 & H3 & _).
  - reflexivity.
  - reflexivity.
  - exists v, s'. split; [exact H1 | ]. split; [exact H2 | exact H3].
Defined.


(** ** Closing the browser *)

Lemma bind_ext {A B : Type} (m : M A) (f g : A -> M B) s :
  (forall a s', f a s' = g a s') -> bind m f s = bind m g s.
Proof. intros H. unfold bind. destruct (m s) as [[a|e] s']; [apply H | reflexivity]. Qed.

Lemma fetch_and_extract_quiet w pw url key s :
  fetch_and_extract w pw url key s = fetch_and_extract w (closing_quietly pw) url key s.
Proof.
  unfold fetch_and_extract.
  apply bind_ext. intros start_time s1.
  apply bind_ext. intros _ s2. apply bind_ext. intros _ s3.
  rewrite !try_finally_quiet by apply cleanup_quiet.
  unfold try_except.
  assert (E : fetch w pw url key start_time s3
              = fetch w (closing_quietly pw) url key start_time s3).
  { unfold fetch.
    apply bind_ext. intros _ s4. apply bind_ext. intros _ s5.
    apply bind_ext. intros _ s6. apply bind_ext. intros _ s7.
    apply bind_ext. intros _ s8.
    change (new_page (closing_quietly pw))
      with (match new_page pw with Ok page => Ok (quiet_page page) | Raise e => Raise e end).
    destruct (new_page pw) as [page|e]; [ | reflexivity].
    unfold bind, lift.
    rewrite !try_finally_quiet by apply page_cleanup_quiet.
    reflexivity. }
  rewrite E. reflexivity.
Qed.

(** X8: what [page.close()], [context.close()], [browser.close()] and
    [playwright.stop()] do, raise or not, changes neither the result of a
    request nor the state it leaves: the request behaves as with a
    browser that closes without trouble. *)
Theorem closing_errors_are_swallowed (w : World) (pw : Playwright) (url : string) (s : state) :
  extract_price w pw url s = extract_price w (closing_quietly pw) url s.
Proof.
  unfold extract_price.
  apply bind_ext. intros cached s1. apply bind_ext. intros s2 s3.
  destruct (truthy (heap s2) cached); [reflexivity | apply fetch_and_extract_quiet].
Qed.


(** ** The load time *)
















(** ** Prices start with the currency symbol *)

Section Reach.
Context {A : Type}.
Implicit Types (k : nat -> string -> option A).

Lemma star_reaches p pos s k x :
  star p pos s k = Some x ->
  exists pos' s', (pos <= pos')%nat /\ k pos' s' = Some x.
Proof.
  revert pos. induction s as [|c s IH]; intros pos; simpl.
  - intros H. exists pos, EmptyString. auto.
  - destruct (p c).
    + destruct (star p (S pos) s k) as [r|] eqn:E.
      * intros [= ->]. destruct (IH _ E) as (pos' & s' & Hle & Hk).
        exists pos', s'. split; [lia | exact Hk].
      * intros H. exists pos, (String c s). auto.
    + intros H. exists pos, (String c s). auto.
Qed.

Lemma rmatch_reaches r pos s k x :
  rmatch r pos s k = Some x ->
  exists pos' s', (pos <= pos')%nat /\ k pos' s' = Some x.
Proof.
  revert pos s k. induction r as [ | |c|p|p|p|r IH|r1 IH1 r2 IH2]; intros pos s k; simpl.
  - destruct (pos =? 0)%nat; [ | discriminate]. intros H. exists pos, s. auto.
  - destruct s as [|c [|c' s']]; try discriminate.
    + intros H. exists pos, EmptyString. auto.
    + destruct (code c =? 10)%N; [ | discriminate]. intros H. eexists pos, _. eauto.
  - destruct s as [|c' s']; [discriminate | ].
    destruct (Ascii.eqb c c'); [ | discriminate]. intros H. exists (S pos), s'. auto.
  - destruct s as [|c' s']; [discriminate | ].
    destruct (p c'); [ | discriminate]. intros H. exists (S pos), s'. auto.
  - apply star_reaches.
  - destruct s as [|c' s']; [discriminate | ].
    destruct (p c'); [ | discriminate]. intros H.
    destruct (star_reaches _ _ _ _ _ H) as (pos' & s2 & Hle & Hk).
    exists pos', s2. split; [lia | exact Hk].
  - destruct (rmatch r pos s k) as [y|] eqn:E.
    + intros [= ->]. eauto.
    + intros H. exists pos, s. auto.
  - intros H. destruct (IH1 _ _ _ H) as (pos1 & s1 & Hle1 & H1).
    destruct (IH2 _ _ _ H1) as (pos2 & s2 & Hle2 & H2).
    exists pos2, s2. split; [lia | exact H2].
Qed.

End Reach.

(** A match of a pattern that starts with a literal character starts with
    it and is not empty. *)
Lemma match_at_first_char c r pos c' s e :
  match_at (RChar c ;;; r) pos (String c' s) = Some e -> c' = c /\ (pos < e)%nat.
Proof.
  unfold match_at. simpl. destruct (Ascii.eqb c c') eqn:E; [ | discriminate].
  apply Ascii.eqb_eq in E. intros H.
  destruct (rmatch_reaches _ _ _ _ _ H) as (pos' & s' & Hle & [= <-]).
  split; [done | lia].
Qed.

Lemma scan_first_char c r s pos skip p :
  p ∈ scan (RChar c ;;; r) pos s skip -> exists rest, p = String c rest.
Proof.
  revert pos skip. induction s as [|c' s IH]; intros pos skip.
  - unfold scan. destruct skip; [ | intros H; by apply elem_of_nil in H].
    unfold match_at. simpl. intros H. by apply elem_of_nil in H.
  - unfold scan; fold scan. destruct skip as [|n]; [ | apply IH].
    destruct (match_at (RChar c ;;; r) pos (String c' s)) as [e|] eqn:E; [ | apply IH].
    apply match_at_first_char in E as [-> Hlt].
    intros H. apply elem_of_cons in H as [-> | H]; [ | by eapply IH].
    destruct (e - pos)%nat as [|m] eqn:Em; [lia | ]. simpl. eauto.
Qed.

Lemma findall_PRICE_prefixed text p :
  p ∈ findall PRICE text -> exists rest, p = String "$" rest.
Proof. unfold findall, PRICE. apply scan_first_char. Qed.

Lemma search_PRICE_prefixed text p :
  search PRICE text = Some p -> exists rest, p = String "$" rest.
Proof. intros H. apply head_Some_elem_of in H. by eapply findall_PRICE_prefixed. Qed.

Lemma last_price_prefixed window p :
  last_price window = Some p -> exists rest, p = String "$" rest.
Proof. intros H. apply last_Some_elem_of in H. by eapply findall_PRICE_prefixed. Qed.

Lemma probe_all_yield (P : string -> Prop) probe selectors price :
  (forall selector p, probe selector = Ok (Some p) -> P p) ->
  probe_all probe selectors = Some price -> P price.
Proof.
  intros HP. induction selectors as [|selector rest IH]; simpl; [discriminate | ].
  destruct (probe selector) as [[p|]|e] eqn:E; auto.
  intros [= <-]. eauto.
Qed.

Lemma jbhifi_probe_prefixed page selector p :
  jbhifi_probe page selector = Ok (Some p) -> exists rest, p = String "$" rest.
Proof.
  unfold jbhifi_probe.
  destruct (query_selector page selector) as [[element|]|]; try discriminate.
  destruct (inner_text element None) as [t|]; try discriminate.
  destruct (re_match NUMERIC_ONLY (strip t)).
  - intros [= <-]. by eexists.
  - intros [= H]. by apply search_PRICE_prefixed in H.
Qed.

Lemma generic_probe_prefixed page selector p :
  generic_probe page selector = Ok (Some p) -> exists rest, p = String "$" rest.
Proof.
  unfold generic_probe. destruct (startswith "meta" selector).
  - destruct (query_selector page selector) as [[element|]|]; try discriminate.
    destruct (get_attribute element "content") as [[content|]|]; try discriminate.
    destruct (negb (String.eqb content EmptyString)); try discriminate.
    destruct (re_match NUMERIC_CONTENT content); try discriminate.
    intros [= <-]. by eexists.
  - destruct (query_selector page selector) as [[element|]|]; try discriminate.
    destruct (inner_text element (Some 200)) as [t|]; try discriminate.
    intros [= H]. by apply search_PRICE_prefixed in H.
Qed.

Lemma structured_price_prefixed page url :
  currency_prefixed (_extract_structured_price page url).
Proof.
  unfold _extract_structured_price, currency_prefixed.
  match goal with |- context [match ?o with Some _ => _ | None => _ end] =>
    destruct o as [price|] eqn:E end; [right | by left].
  destruct (contains "jbhifi" (lower url)).
  - destruct (probe_all (jbhifi_probe page) JBHIFI_SELECTORS) as [p|] eqn:E1;
      unfold or_else in E.
    + injection E as <-.
      eapply (probe_all_yield _ _ _ _ (jbhifi_probe_prefixed page) E1).
    + eapply (probe_all_yield _ _ _ _ (generic_probe_prefixed page) E).
  - unfold or_else in E. eapply (probe_all_yield _ _ _ _ (generic_probe_prefixed page) E).
Qed.

Lemma harvey_norman_prefixed url_lower text p :
  harvey_norman_patterns url_lower text = Some p -> exists rest, p = String "$" rest.
Proof.
  unfold harvey_norman_patterns.
  destruct (contains "harveynorman" url_lower && contains AVAILABLE_ON text); [ | discriminate].
  set (window := harvey_norman_window text).
  destruct (easave_pattern window) as [q|] eqn:E1; simpl.
  { intros [= <-]. unfold easave_pattern in E1.
    destruct (last (findall PRICE_EASAVE window)); [ | discriminate].
    by apply search_PRICE_prefixed in E1. }
  destruct (from_pattern window) as [q|] eqn:E2; simpl.
  { intros [= <-]. unfold from_pattern in E2.
    destruct (contains "FROM" window); [ | discriminate].
    by apply search_PRICE_prefixed in E2. }
  apply last_price_prefixed.
Qed.

Lemma jbhifi_prefixed url_lower text p :
  jbhifi_patterns url_lower text = Some p -> exists rest, p = String "$" rest.
Proof.
  unfold jbhifi_patterns. destruct (contains "jbhifi" url_lower); [ | discriminate].
  destruct (login_pattern text) as [q|] eqn:E1; simpl.
  { intros [= <-]. unfold login_pattern in E1.
    destruct (contains LOGIN_PROMPT text); [ | discriminate].
    by apply last_price_prefixed in E1. }
  unfold ticket_pattern. destruct (contains "Ticket" text); [ | discriminate].
  destruct (findall NUMBER (ticket_window text)) as [|n0 [|n1 rest]]; [discriminate | | ];
    intros [= <-]; by eexists.
Qed.

Lemma officeworks_prefixed url_lower text p :
  officeworks_pattern url_lower text = Some p -> exists rest, p = String "$" rest.
Proof.
  unfold officeworks_pattern.
  destruct (contains "officeworks" url_lower && contains WAYS_TO_GET text); [ | discriminate].
  apply last_price_prefixed.
Qed.

Lemma generic_fallback_elem all_prices :
  generic_fallback all_prices = EmptyString \/ generic_fallback all_prices ∈ all_prices.
Proof.
  unfold generic_fallback. destruct (first_over_100 all_prices) as [p|] eqn:E.
  - right. apply first_over_100_Some in E as (i & Hi & _). by eapply list_elem_of_lookup_2.
  - destruct all_prices as [|p rest]; [by left | right; left].
Qed.

Lemma find_main_price_prefixed text url :
  currency_prefixed (_find_main_price text (findall PRICE text) url).
Proof.
  unfold _find_main_price, currency_prefixed.
  destruct (harvey_norman_patterns (lower url) text) as [p|] eqn:E1; simpl.
  { right. by eapply harvey_norman_prefixed. }
  destruct (jbhifi_patterns (lower url) text) as [p|] eqn:E2; simpl.
  { right. by eapply jbhifi_prefixed. }
  destruct (officeworks_pattern (lower url) text) as [p|] eqn:E3; simpl.
  { right. by eapply officeworks_prefixed. }
  destruct (generic_fallback_elem (findall PRICE text)) as [H | H]; [by left | right].
  by eapply findall_PRICE_prefixed.
Qed.

(** X10: the structured extractor and the heuristic extractor, the
    second called as [extract_price] calls it, return the empty string or
    a string that starts with the currency symbol; so the [price] of
    every freshly extracted record is empty or starts with the currency
    symbol. *)
Theorem reported_price_has_currency_symbol (w : World) (pw : Playwright) (url : string)
        (s : state) (page : Page) (text title : string) :
  served_from_cache w url s = false ->
  fetch_ok pw url page text title ->
  currency_prefixed (_extract_structured_price page url) /\
  currency_prefixed (_find_main_price text (findall PRICE text) url) /\
  exists v s' price,
    extract_price w pw url s = (Ok v, s') /\
    field (heap s') v "price" = Some (VStr price) /\
    currency_prefixed price.
Proof.
  intros Hserved Hfetch.
  split; [apply structured_price_prefixed | ].
  split; [apply find_main_price_prefixed | ].
  rewrite (extract_price_miss _ _ _ _ Hserved).
  rewrite (fetch_and_extract_success w pw url _ _ page text title Hfetch).
  eexists _, _, (main_price_of page text url). split; [reflexivity | ]. simpl.
  match goal with |- context [success_record ?a ?b ?c ?d ?e ?f] =>
    destruct (success_record_keys a b c d e f) as (_ & _ & _ & K4 & _)
  end.
  rewrite !field_ext1. split; [exact K4 | ].
  unfold main_price_of.
  destruct (String.eqb (_extract_structured_price page url) EmptyString);
    [apply find_main_price_prefixed | apply structured_price_prefixed].
Qed.

(** X10, an instance. *)
Lemma reported_price_has_currency_symbol_witness :
  exists v s' price,
    extract_price demo_world (demo_browser (demo_page "now $250" "Item" no_element))
      "https://shop.example.com/item" initial_state = (Ok v, s') /\
    field (heap s') v "price" = Some (VStr price) /\
    currency_prefixed price.
Proof.
  destruct (reported_price_has_currency_symbol demo_world
              (demo_browser (demo_page "now $250" "Item" no_element))
              "https://shop.example.com/item" initial_state
              (demo_page "now $250" "Item" no_element) "now $250" "Item")
    as (_ & _ & v & s' & price & H1 & H2 & H3).
  - reflexivity.
  - repeat split.
  - exists v, s', price. split; [exact H1 | ]. split; [exact H2 | exact H3].
Defined.


(** ** Tokens come from the text *)

Lemma substring_prefix n s : exists rest, s = String.substring 0 n s +:+ rest.
Proof.
  revert n. induction s as [|c s IH]; intros n.
  - exists EmptyString. by destruct n.
  - destruct n as [|n]; simpl.
    + by eexists.
    + destruct (IH n) as (rest & E). exists rest.
      change (String c s = String c (String.substring 0 n s +:+ rest)). by rewrite <- E.
Qed.

Lemma scan_occurs r s pos skip p : p ∈ scan r pos s skip -> occurs_in p s.
Proof.
  revert pos skip. induction s as [|c s IH]; intros pos skip.
  - unfold scan. destruct skip; [ | intros H; by apply elem_of_nil in H].
    destruct (match_at r pos EmptyString); [ | intros H; by apply elem_of_nil in H].
    intros H. apply list_elem_of_singleton in H. subst p. by exists EmptyString, EmptyString.
  - assert (Htail : forall pos' skip', p ∈ scan r pos' s skip' -> occurs_in p (String c s)).
    { intros pos' skip' H. destruct (IH _ _ H) as (before & after & E).
      exists (String c before), after.
      change (String c s = String c (before +:+ p +:+ after)). by rewrite <- E. }
    unfold scan; fold scan. destruct skip as [|n]; [ | apply Htail].
    destruct (match_at r pos (String c s)) as [e|]; [ | apply Htail].
    intros H. apply elem_of_cons in H as [-> | H]; [ | by eapply Htail].
    destruct (substring_prefix (e - pos) (String c s)) as (rest & E).
    exists EmptyString, rest. exact E.
Qed.

Lemma findall_occurs r text p : p ∈ findall r text -> occurs_in p text.
Proof. apply scan_occurs. Qed.

(** X11: every item of the [all_prices] of a freshly extracted record is
    a string that starts with the currency symbol and occurs, as it is,
    in the text of the page. *)
Theorem all_prices_occur_in_the_text (w : World) (pw : Playwright) (url : string)
        (s : state) (page : Page) (text title : string) :
  served_from_cache w url s = false ->
  fetch_ok pw url page text title ->
  exists v s' prices items,
    extract_price w pw url s = (Ok v, s') /\
    field (heap s') v "all_prices" = Some prices /\
    list_items (heap s') prices = Some items /\
    forall item, item ∈ items ->
      exists rest, item = VStr (String "$" rest) /\ occurs_in (String "$" rest) text.
Proof.
  intros Hserved Hfetch.
  rewrite (extract_price_miss _ _ _ _ Hserved).
  rewrite (fetch_and_extract_success w pw url _ _ page text title Hfetch).
  eexists _, _, _, _. split; [reflexivity | ]. simpl.
  match goal with |- context [success_record ?a ?b ?c ?d ?e ?f] =>
    destruct (success_record_keys a b c d e f) as (_ & _ & _ & _ & K5 & _)
  end.
  rewrite !field_ext1. split; [exact K5 | ].
  split; [unfold list_items; by rewrite lookup_ext0 | ].
  intros item Hitem. apply list_elem_of_fmap in Hitem as (p & -> & Hp).
  unfold dedup_cap in Hp. apply elem_of_take in Hp as (i & Hi & _).
  apply list_elem_of_lookup_2 in Hi.
  apply (fromkeys_elem p [] (findall PRICE text)) in Hi as [Hi _].
  destruct (findall_PRICE_prefixed text p Hi) as (rest & ->).
  exists rest. split; [reflexivity | by eapply findall_occurs].
Qed.

(** X11, an instance. *)
Lemma all_prices_occur_in_the_text_witness :
  exists v s' prices items,
    extract_price demo_world (demo_browser (demo_page "now $250" "Item" no_element))
      "https://shop.example.com/item" initial_state = (Ok v, s') /\
    field (heap s') v "all_prices" = Some prices /\
    list_items (heap s') prices = Some items /\
    forall item, item ∈ items ->
      exists rest, item = VStr (String "$" rest) /\ occurs_in (String "$" rest) "now $250".
Proof.
  exact (all_prices_occur_in_the_text demo_world
           (demo_browser (demo_page "now $250" "Item" no_element))
           "https://shop.example.com/item" initial_state
           (demo_page "now $250" "Item" no_element) "now $250" "Item"
           eq_refl
           (conj eq_refl (conj eq_refl (conj eq_refl (conj eq_refl (conj eq_refl
             (conj eq_refl (conj eq_refl (conj eq_refl eq_refl))))))))).
Defined.


(** ** The rule of class C *)

(** X12: for an officeworks URL on which the rules of classes A and B
    yield nothing: when the text holds the anchor [Ways you can get it],
    the window is the 300 characters that end where its first occurrence
    starts (fewer when the anchor comes earlier), and the last currency
    token of the window is returned; when the anchor is absent or the
    window holds no token, the generic fallback decides. *)
Theorem class_C_rule (text : string) (all_prices : list string) (url : string) :
  contains "officeworks" (lower url) = true ->
  harvey_norman_patterns (lower url) text = None ->
  jbhifi_patterns (lower url) text = None ->
  let result := _find_main_price text all_prices url in
  let anchor := find WAYS_TO_GET text in
  let window := slice text (Z.max 0 (anchor - 300)) anchor in
  (contains WAYS_TO_GET text = true ->
     (exists before after,
         text = before +:+ window +:+ WAYS_TO_GET +:+ after /\
         len window = Z.min 300 anchor) /\
     (forall p, last (findall PRICE window) = Some p -> result = p)) /\
  ((contains WAYS_TO_GET text = false \/ findall PRICE window = []) ->
     result = generic_fallback all_prices).
Proof.
  intros Hoff HA HB result anchor window.
  assert (E : result = match officeworks_pattern (lower url) text with
                       | Some p => p
                       | None => generic_fallback all_prices
                       end).
  { unfold result, _find_main_price. rewrite HA, HB. reflexivity. }
  rewrite E. unfold officeworks_pattern. rewrite Hoff. simpl.
  unfold last_price, officeworks_window. fold anchor. fold window.
  split.
  - intros Hc. rewrite Hc. split.
    + destruct (window_before WAYS_TO_GET text 300 ltac:(discriminate) ltac:(lia) Hc)
        as (before & after & Ht & _ & L & _).
      exists before, after. split; [exact Ht | exact L].
    + intros p ->. reflexivity.
  - intros [-> | Hnil]; [reflexivity | ].
    destruct (contains WAYS_TO_GET text); [ | reflexivity]. by rewrite Hnil.
Qed.

(** X12, an instance: the last price before the anchor wins over the
    first, and the one after the anchor is not looked at. *)
Lemma class_C_rule_witness :
  _find_main_price "Laptop $1,299.00 was $1,499.00 Ways you can get it: delivery $9.95" []
    "https://www.officeworks.com.au/shop/laptop" = "$1,499.00".
Proof.
  refine (proj2 (proj1 (class_C_rule
                          "Laptop $1,299.00 was $1,499.00 Ways you can get it: delivery $9.95" []
                          "https://www.officeworks.com.au/shop/laptop" _ _ _) _)
                "$1,499.00" _).
  - reflexivity.
  - reflexivity.
  - reflexivity.
  - reflexivity.
  - reflexivity.
Defined.


(** ** Texts without the currency symbol *)

Section NoSymbol.
Implicit Types (s text : string).

Lemma contains_char_false c s :
  contains (String c EmptyString) s = false -> chars_differ c s.
Proof.
  unfold contains, chars_differ. induction s as [|a s IH]; simpl; [constructor | ].
  destruct (Ascii.ascii_dec c a) as [->|Hne].
  - by destruct s.
  - destruct (String.index 0 (String c EmptyString) s); [discriminate | ].
    intros _. constructor; [congruence | by apply IH].
Qed.

Lemma chars_differ_substring c s a n :
  chars_differ c s -> chars_differ c (String.substring a n s).
Proof.
  unfold chars_differ. revert a n. induction s as [|x s IH]; intros a n H.
  - destruct a, n; constructor.
  - simpl in H. apply Forall_cons in H as [Hx H].
    destruct a as [|a]; [ | by apply IH].
    destruct n as [|n]; simpl; [constructor | ]. constructor; [exact Hx | by apply IH].
Qed.

Lemma chars_differ_slice c s lo hi : chars_differ c s -> chars_differ c (slice s lo hi).
Proof. apply chars_differ_substring. Qed.

Lemma scan_none c r s pos :
  chars_differ c s -> scan (RChar c ;;; r) pos s 0 = [].
Proof.
  unfold chars_differ. revert pos. induction s as [|a s IH]; intros pos H.
  - reflexivity.
  - simpl in H. apply Forall_cons in H as [Ha H].
    unfold scan; fold scan. unfold match_at. simpl.
    destruct (Ascii.eqb c a) eqn:E; [apply Ascii.eqb_eq in E; congruence | ].
    by apply IH.
Qed.

Lemma findall_PRICE_none s : chars_differ "$" s -> findall PRICE s = [].
Proof. apply scan_none. Qed.

Lemma findall_PRICE_EASAVE_none s : chars_differ "$" s -> findall PRICE_EASAVE s = [].
Proof. apply scan_none. Qed.

End NoSymbol.

(** X13: when the text of the page holds no currency symbol, there is no
    token and [all_prices] is empty; and unless the URL is a jbhifi one
    and the text holds the label [Ticket], the heuristic extractor
    returns the empty string, whatever the site, so that the price is
    what the structured extractor found. *)
Theorem text_without_currency_symbol (page : Page) (text url : string) :
  contains "$" text = false ->
  findall PRICE text = [] /\
  dedup_cap (findall PRICE text) = [] /\
  (contains "jbhifi" (lower url) = false \/ contains "Ticket" text = false ->
   _find_main_price text (findall PRICE text) url = EmptyString /\
   main_price_of page text url = _extract_structured_price page url).
Proof.
  intros Hno. apply contains_char_false in Hno.
  assert (Hall : findall PRICE text = []) by by apply findall_PRICE_none.
  assert (Hwin : forall lo hi, last_price (slice text lo hi) = None).
  { intros lo hi. unfold last_price.
    rewrite findall_PRICE_none; [done | by apply chars_differ_slice]. }
  split; [exact Hall | ]. split; [by rewrite Hall | ].
  intros Hticket.
  assert (E : _find_main_price text (findall PRICE text) url = EmptyString).
  { unfold _find_main_price.
    assert (HA : harvey_norman_patterns (lower url) text = None).
    { unfold harvey_norman_patterns.
      destruct (contains "harveynorman" (lower url) && contains AVAILABLE_ON text); [ | done].
      assert (Hw : chars_differ "$" (harvey_norman_window text))
        by by apply chars_differ_slice.
      unfold easave_pattern. rewrite (findall_PRICE_EASAVE_none _ Hw). simpl.
      unfold from_pattern. destruct (contains "FROM" (harvey_norman_window text)).
      - rewrite findall_PRICE_none; [ | by apply chars_differ_slice]. simpl. apply Hwin.
      - simpl. apply Hwin. }
    assert (HB : jbhifi_patterns (lower url) text = None).
    { unfold jbhifi_patterns. destruct (contains "jbhifi" (lower url)) eqn:Ej; [ | done].
      destruct Hticket as [? | Ht]; [discriminate | ].
      unfold login_pattern, login_window, ticket_pattern. rewrite Ht.
      destruct (contains LOGIN_PROMPT text); [ | done]. by rewrite Hwin. }
    assert (HC : officeworks_pattern (lower url) text = None).
    { unfold officeworks_pattern, officeworks_window.
      destruct (contains "officeworks" (lower url) && contains WAYS_TO_GET text); [ | done].
      apply Hwin. }
    rewrite HA, HB, HC, Hall. reflexivity. }
  split; [exact E | ].
  unfold main_price_of. rewrite E.
  destruct (String.eqb (_extract_structured_price page url) EmptyString) eqn:Es; [ | done].
  apply String.eqb_eq in Es. by rewrite Es.
Qed.

(** X13, an instance. *)
Lemma text_without_currency_symbol_witness :
  findall PRICE "Price on request, call 1300 000 000" = [] /\
  _find_main_price "Price on request, call 1300 000 000"
    (findall PRICE "Price on request, call 1300 000 000")
    "https://shop.example.com/item" = EmptyString.
Proof.
  destruct (text_without_currency_symbol (demo_page "Price on request, call 1300 000 000" "Item" no_element)
              "Price on request, call 1300 000 000" "https://shop.example.com/item")
    as (H1 & _ & H3).
  - reflexivity.
  - split; [exact H1 | ]. apply H3. left. reflexivity.
Defined.


(** ** The webhook *)

Lemma json_nested_ind (P : json -> Prop) :
  P JNull -> (forall b, P (JBool b)) -> (forall n, P (JInt n)) -> (forall s, P (JStr s)) ->
  (forall items, Forall P items -> P (JArr items)) ->
  (forall members, Forall (fun kv => P (snd kv)) members -> P (JObj members)) ->
  forall j, P j.
Proof.
  intros H1 H2 H3 H4 H5 H6. fix IH 1.
  intros [ |b|n|s|items|members]; [apply H1 | apply H2 | apply H3 | apply H4 | | ].
  - apply H5. induction items as [|x l IHl]; constructor; [apply IH | exact IHl].
  - apply H6. induction members as [|[k x] l IHl]; constructor; [apply IH | exact IHl].
Qed.

Lemma intern_extends j : forall h, exists ext, snd (intern j h) = h ++ ext.
Proof.
  induction j as [ |b|n|s|items IH|members IH] using json_nested_ind; intros h;
    try (exists []; simpl; by rewrite app_nil_r).
  - destruct s; exists []; simpl; by rewrite app_nil_r.
  - simpl.
    assert (Hgo : forall h0, exists ext, snd (intern_items intern items h0) = h0 ++ ext).
    { induction IH as [|x l Hx _ IHl]; intros h0; simpl.
      - exists []. by rewrite app_nil_r.
      - destruct (Hx h0) as (e1 & H1). destruct (intern x h0) as [v h1]. simpl in H1.
        destruct (IHl h1) as (e2 & H2).
        destruct (intern_items intern l h1) as [vs h2]. simpl in *.
        exists (e1 ++ e2). rewrite H2, H1. by rewrite app_assoc. }
    destruct (Hgo h) as (e & He). destruct (intern_items intern items h) as [vs h']. simpl in *.
    eexists. rewrite He, <- app_assoc. reflexivity.
  - simpl.
    assert (Hgo : forall h0, exists ext, snd (intern_members intern members h0) = h0 ++ ext).
    { induction IH as [|[k x] l Hx _ IHl]; intros h0; simpl.
      - exists []. by rewrite app_nil_r.
      - simpl in Hx. destruct (Hx h0) as (e1 & H1). destruct (intern x h0) as [v h1]. simpl in H1.
        destruct (IHl h1) as (e2 & H2).
        destruct (intern_members intern l h1) as [vs h2]. simpl in *.
        exists (e1 ++ e2). rewrite H2, H1. by rewrite app_assoc. }
    destruct (Hgo h) as (e & He). destruct (intern_members intern members h) as [vs h']. simpl in *.
    eexists. rewrite He, <- app_assoc. reflexivity.
Qed.

Lemma after_miss_store w url s :
  _ttl (cache (after_miss w url s)) = _ttl (cache s) /\
  (store_bounded (_store (cache s)) -> store_bounded (_store (cache (after_miss w url s)))).
Proof.
  unfold after_miss. destruct (store_get _ _); simpl; [ | auto].
  split; [reflexivity | apply store_bounded_del].
Qed.

Lemma webhook_entry_run w pw pid comp_key (url : string) s :
  state_ok s ->
  exists l s1 ext,
    webhook_entry w pw pid comp_key url s = (Ok (VRef l), s1) /\
    heap s1 = heap s ++ ext /\
    tagged (heap s1) pid comp_key (VRef l) /\
    state_ok s1 /\
    _ttl (cache s1) = _ttl (cache s) /\
    (store_bounded (_store (cache s)) -> store_bounded (_store (cache s1))).
Proof.
  intros Hok.
  assert (Hstep : forall l d s0 ext,
    extract_price w pw url s = (Ok (VRef l), s0) ->
    heap s0 = heap s ++ ext ->
    heap s0 !! l = Some (ODict d) ->
    (length (heap s) <= l)%nat ->
    (exists b, d !! "success" = Some (VBool b)) ->
    exists s1 ext1,
      webhook_entry w pw pid comp_key url s = (Ok (VRef l), s1) /\
      heap s1 = heap s ++ ext1 /\
      tagged (heap s1) pid comp_key (VRef l) /\
      cache s1 = cache s0 /\
      state_ok s1).
  { intros l d s0 ext Hrun Hheap Hl Hfresh (b & Hb).
    unfold webhook_entry. erewrite bind_Ok by exact Hrun.
    erewrite bind_Ok by (apply dict_setitem_dict; exact Hl).
    erewrite bind_Ok.
    2: { apply dict_setitem_dict. simpl. apply list_lookup_insert_eq.
         by eapply lookup_lt_Some. }
    unfold ret. simpl. rewrite list_insert_insert_eq.
    eexists _, _. split; [reflexivity | ]. simpl.
    split; [rewrite Hheap; rewrite insert_app_r_alt by lia; reflexivity | ].
    assert (Hlen : (l < length (heap s0))%nat) by by eapply lookup_lt_Some.
    split.
    { unfold tagged, field. rewrite list_lookup_insert_eq by exact Hlen.
      rewrite lookup_insert_ne by done. rewrite lookup_insert_eq.
      split; [reflexivity | ]. rewrite lookup_insert_eq. split; [reflexivity | ].
      exists b. by rewrite !lookup_insert_ne. }
    split; [reflexivity | ].
    destruct (extract_price_ok w pw url s Hok) as (r & d' & s' & Hrun' & _ & _ & Hany).
    rewrite Hrun in Hrun'. injection Hrun' as <- <-. apply Hany. }
  assert (Hh0 : heap (after_miss w url s) = heap s) by apply after_miss_heap.
  destruct (after_miss_store w url s) as [Httl0 Hb0].
  destruct (extract_price_cases w pw url s Hok)
    as [(_ & l & ts & u & title & price & pl & t & ms & text & _ & _ & _ & Hrun)
       | [(_ & e & s0 & _ & Hrun & Hheap & Hcache & _)
         | (_ & page & text & title & _ & Hrun)]].
  - edestruct Hstep as (s1 & ext1 & H1 & H2 & H3 & H4 & H5);
      [exact Hrun | reflexivity | apply lookup_ext0 | simpl; lia | | ].
    { exists true. rewrite lookup_insert_ne by done.
      by destruct (success_record_keys u title price (VRef pl) t ms) as [K _]. }
    eexists _, s1, ext1. split; [exact H1 | ]. rewrite H4. simpl. auto 10.
  - edestruct Hstep as (s1 & ext1 & H1 & H2 & H3 & H4 & H5);
      [exact Hrun | exact Hheap | rewrite Hheap; apply lookup_ext0 | lia | | ].
    { exists false.
      match goal with |- context [failure_record ?a ?b ?c ?d] =>
        by destruct (failure_record_keys a b c d) as [K _] end. }
    eexists _, s1, ext1. split; [exact H1 | ]. rewrite H4, Hcache. auto 10.
  - edestruct Hstep as (s1 & ext1 & H1 & H2 & H3 & H4 & H5);
      [exact Hrun | reflexivity | apply lookup_ext1 | simpl; lia | | ].
    { exists true.
      match goal with |- context [success_record ?a ?b ?c ?d ?e ?f] =>
        by destruct (success_record_keys a b c d e f) as [K _] end. }
    eexists _, s1, ext1. split; [exact H1 | ]. rewrite H4. simpl.
    split; [exact H2 | ]. split; [exact H3 | ]. split; [exact H5 | ].
    split; [exact Httl0 | ]. intros Hb. apply store_bounded_put. auto.
Qed.

Lemma field_extends h ext r k x : field h r k = Some x -> field (h ++ ext) r k = Some x.
Proof.
  unfold field. destruct r as [| | | | |l]; try discriminate.
  destruct (h !! l) as [[d|xs]|] eqn:E; try discriminate.
  by rewrite (lookup_app_l_Some _ _ _ _ E).
Qed.

Lemma tagged_extends h ext pid comp_key r :
  tagged h pid comp_key r -> tagged (h ++ ext) pid comp_key r.
Proof.
  intros (H1 & H2 & b & H3). repeat split; [by apply field_extends.. | ].
  exists b. by apply field_extends.
Qed.

Lemma scrape_urls_run w pw pid urls : forall i s,
  state_ok s ->
  exists o s' ext,
    scrape_urls w pw pid i urls s = (o, s') /\
    heap s' = heap s ++ ext /\
    state_ok s' /\
    _ttl (cache s') = _ttl (cache s) /\
    (store_bounded (_store (cache s)) -> store_bounded (_store (cache s'))) /\
    match o with
    | Ok results =>
        Forall names_url (scraped urls) /\
        Forall2 (fun r kv => tagged (heap s') pid (fst kv) r) results (scraped urls)
    | Raise e =>
        exists before kv after,
          scraped urls = before ++ kv :: after /\
          Forall names_url before /\ ~ names_url kv /\
          e = encode_error (snd kv)
    end.
Proof.
  induction urls as [|url_entry rest IH]; intros i s Hok.
  { exists (Ok []), s, []. simpl. rewrite app_nil_r.
    split; [reflexivity | ]. split; [reflexivity | ]. split; [exact Hok | ].
    split; [reflexivity | ]. split; [auto | ]. split; constructor. }
  destruct url_entry as [ |b|n|t|items|[|[k v] others]]; try exact (IH (S i) s Hok).
  destruct v as [ |b|n|[url|u]|items|members];
    try (eexists _, s, []; split; [reflexivity | ]; rewrite app_nil_r;
         split; [reflexivity | ]; split; [exact Hok | ]; split; [reflexivity | ];
         split; [auto | ];
         eexists [], (k, _), (scraped rest); split; [reflexivity | ];
         split; [constructor | ];
         split; [intros (url & Hu); discriminate Hu | reflexivity]).
  destruct (webhook_entry_run w (pw i) pid k url s Hok)
    as (l & s1 & ext1 & Hrun1 & Hheap1 & Htag & Hok1 & Httl1 & Hb1).
  destruct (IH (S i) s1 Hok1) as (o & s' & ext & Hrun & Hheap & Hok' & Httl & Hb & Ho).
  simpl. erewrite bind_Ok by exact Hrun1.
  destruct o as [results|e].
  - erewrite bind_Ok by exact Hrun. unfold ret.
    eexists _, s', (ext1 ++ ext). split; [reflexivity | ].
    split; [rewrite Hheap, Hheap1; by rewrite app_assoc | ].
    split; [exact Hok' | ]. split; [congruence | ]. split; [auto | ].
    destruct Ho as [Hn HF]. split.
    + constructor; [by exists url | exact Hn].
    + constructor; [ | exact HF]. rewrite Hheap. by apply tagged_extends.
  - erewrite bind_Raise by exact Hrun.
    eexists _, s', (ext1 ++ ext). split; [reflexivity | ].
    split; [rewrite Hheap, Hheap1; by rewrite app_assoc | ].
    split; [exact Hok' | ]. split; [congruence | ]. split; [auto | ].
    destruct Ho as (before & kv & after & E & Hbefore & Hkv & He).
    exists ((k, JStr url) :: before), kv, after. rewrite E. repeat split; auto.
    constructor; [by exists url | exact Hbefore].
Qed.


Section Preserves.
Variable I : state -> Prop.

Lemma preserves_ret {A : Type} (a : A) : preserves I (ret a).
Proof. intros s H. exact H. Qed.

Lemma preserves_lift {A : Type} (o : outcome A) : preserves I (lift o).
Proof. intros s H. exact H. Qed.

Lemma preserves_raise {A : Type} (e : string) : preserves I (raise e : M A).
Proof. intros s H. exact H. Qed.

Lemma preserves_bind {A B : Type} (m : M A) (f : A -> M B) :
  preserves I m -> (forall a, preserves I (f a)) -> preserves I (bind m f).
Proof.
  intros Hm Hf s H. unfold bind. specialize (Hm s H).
  destruct (m s) as [[a|e] s1]; simpl in *; [by apply Hf | exact Hm].
Qed.

Lemma preserves_try_except {A : Type} (m : M A) (h : string -> M A) :
  preserves I m -> (forall e, preserves I (h e)) -> preserves I (try_except m h).
Proof.
  intros Hm Hh s H. unfold try_except. specialize (Hm s H).
  destruct (m s) as [[a|e] s1]; simpl in *; [exact Hm | by apply Hh].
Qed.

End Preserves.

Lemma service_ok_grows s s' ext :
  service_ok s -> heap s' = heap s ++ ext -> cache s' = cache s -> service_ok s'.
Proof.
  intros (H1 & H2 & H3) Hh Hc. unfold service_ok, state_ok. rewrite Hc, Hh.
  split; [ | auto]. eapply store_ok_frame; [exact H1 | ].
  intros j Hj. by apply lookup_app_l.
Qed.

Lemma preserves_alloc o : preserves service_ok (alloc o).
Proof. intros s H. eapply service_ok_grows; [exact H | reflexivity..]. Qed.

Lemma preserves_isoformat w : preserves service_ok (utc_now_isoformat w).
Proof. intros s H. eapply (service_ok_grows s _ []); [exact H | simpl; by rewrite app_nil_r | reflexivity]. Qed.

Lemma preserves_store_json j : preserves service_ok (store_json j).
Proof.
  intros s H. unfold store_json.
  destruct (intern_extends j (heap s)) as (ext & He).
  destruct (intern j (heap s)) as [v h]. simpl in *.
  eapply service_ok_grows; [exact H | exact He | reflexivity].
Qed.

Lemma preserves_scrape_urls w pw pid i urls :
  preserves service_ok (scrape_urls w pw pid i urls).
Proof.
  intros s (H1 & H2 & H3).
  destruct (scrape_urls_run w pw pid urls i s H1) as (o & s' & ext & Hrun & _ & Hok & Httl & Hb & _).
  rewrite Hrun. simpl. split; [exact Hok | ]. split; [by apply Hb | congruence].
Qed.

Lemma preserves_webhook w API_KEY pw request :
  preserves service_ok (webhook w API_KEY pw request).
Proof.
  unfold webhook.
  destruct (String.eqb (method request) "OPTIONS"); [apply preserves_ret | ].
  destruct (unauthorized API_KEY request).
  { apply preserves_bind; [apply preserves_alloc | intros; apply preserves_ret]. }
  apply preserves_try_except.
  - apply preserves_bind; [apply preserves_lift | intros parsed].
    apply preserves_bind; [apply preserves_lift | intros pid].
    apply preserves_bind; [apply preserves_lift | intros urls].
    destruct (negb (json_truthy urls)).
    + apply preserves_bind; [apply preserves_store_json | intros received].
      apply preserves_bind; [apply preserves_alloc | intros; apply preserves_ret].
    + apply preserves_bind; [apply preserves_store_json | intros pidv].
      apply preserves_bind; [apply preserves_lift | intros entries].
      apply preserves_bind; [apply preserves_scrape_urls | intros results].
      apply preserves_bind; [apply preserves_alloc | intros listed].
      apply preserves_bind; [apply preserves_isoformat | intros timestamp].
      apply preserves_bind; [apply preserves_alloc | intros; apply preserves_ret].
  - intros e.
    apply preserves_bind; [apply preserves_isoformat | intros timestamp].
    apply preserves_bind; [apply preserves_alloc | intros; apply preserves_ret].
Qed.

Lemma preserves_health w : preserves service_ok (health w).
Proof.
  unfold health.
  apply preserves_bind; [intros s H; exact H | intros s0].
  apply preserves_bind; [apply preserves_isoformat | intros timestamp].
  apply preserves_bind; [apply preserves_alloc | intros; apply preserves_ret].
Qed.

Lemma serving_service_ok w API_KEY s : serving w API_KEY s -> service_ok s.
Proof.
  induction 1 as [ | s pw request r s' _ IH Hrun | s r s' _ IH Hrun].
  - split; [constructor | ]. split; [ | reflexivity]. split; [constructor | simpl; lia].
  - pose proof (preserves_webhook w API_KEY pw request s IH) as H. by rewrite Hrun in H.
  - pose proof (preserves_health w s IH) as H. by rewrite Hrun in H.
Qed.

Lemma unauthorized_true API_KEY request :
  unauthorized API_KEY request = true <->
  exists key, API_KEY = Some key /\ key <> EmptyString /\ x_api_key request <> Some key.
Proof.
  unfold unauthorized. destruct API_KEY as [key|].
  2: { split; [discriminate | intros (key & H & _); discriminate]. }
  rewrite andb_true_iff, !negb_true_iff, String.eqb_neq. split.
  - intros [Hk Hx]. exists key. split; [reflexivity | ]. split; [exact Hk | ].
    intros E. rewrite E, String.eqb_refl in Hx. discriminate.
  - intros (k & [= <-] & Hk & Hx). split; [exact Hk | ].
    destruct (x_api_key request) as [given|]; [ | reflexivity].
    apply String.eqb_neq. congruence.
Qed.

Lemma store_json_run j s :
  exists ext,
    store_json j s = (Ok (fst (intern j (heap s))), set_heap (heap s ++ ext) s).
Proof.
  unfold store_json. destruct (intern_extends j (heap s)) as (ext & He).
  destruct (intern j (heap s)) as [v h]. simpl in *. exists ext. by rewrite He.
Qed.

Lemma state_ok_grows s s' ext :
  state_ok s -> heap s' = heap s ++ ext -> cache s' = cache s -> state_ok s'.
Proof.
  intros H Hh Hc. unfold state_ok. rewrite Hc, Hh.
  eapply store_ok_frame; [exact H | ]. intros j Hj. by apply lookup_app_l.
Qed.


(** X14: an [OPTIONS] request is answered with an empty body and status
    204 and changes nothing, key or no key.  For any other method, when
    an API key is configured and is not empty and the request does not
    carry it in [X-API-Key], the answer is status 401 with [success]
    false and the error [Unauthorized], whatever the body: nothing is
    parsed or scraped, the cache, the clock and the trace of components
    are untouched. *)
Theorem webhook_checks_the_key_first (w : World) (API_KEY : option string)
        (pw : nat -> Playwright) (request : Request) (s : state) :
  (method request = "OPTIONS" ->
     webhook w API_KEY pw request s
     = (Ok {| body := VStr EmptyString; status := 204 |}, s)) /\
  (method request <> "OPTIONS" ->
   forall key, API_KEY = Some key -> key <> EmptyString -> x_api_key request <> Some key ->
     exists payload s',
       webhook w API_KEY pw request s = (Ok {| body := payload; status := 401 |}, s') /\
       field (heap s') payload "success" = Some (VBool false) /\
       field (heap s') payload "error" = Some (VStr "Unauthorized") /\
       (exists o, heap s' = heap s ++ [o]) /\
       cache s' = cache s /\ ticks s' = ticks s /\ events s' = events s).
Proof.
  split.
  - intros Hm. unfold webhook. rewrite Hm. reflexivity.
  - intros Hm key Hkey Hne Hgiven. unfold webhook.
    apply String.eqb_neq in Hm. rewrite Hm.
    assert (Hun : unauthorized API_KEY request = true)
      by (apply unauthorized_true; eauto).
    rewrite Hun. erewrite bind_Ok by reflexivity. unfold ret.
    eexists _, _. split; [reflexivity | ]. simpl. rewrite !field_ext0.
    split; [reflexivity | ]. split; [reflexivity | ].
    split; [by eexists | ]. auto.
Qed.

(** X15: [webhook] never raises: from every state and for every request
    it returns a response, whose status is one of 200, 204, 400, 401 and
    500; it is 204 exactly for [OPTIONS], and 401 exactly when the method
    is another one and the key check fails. *)
Theorem webhook_always_answers (w : World) (API_KEY : option string)
        (pw : nat -> Playwright) (request : Request) (s : state) :
  exists resp s',
    webhook w API_KEY pw request s = (Ok resp, s') /\
    (status resp = 204 <-> method request = "OPTIONS") /\
    (status resp = 401 <-> method request <> "OPTIONS" /\ unauthorized API_KEY request = true) /\
    (status resp = 200 \/ status resp = 204 \/ status resp = 400 \/ status resp = 401
     \/ status resp = 500).
Proof.
  unfold webhook.
  destruct (String.eqb (method request) "OPTIONS") eqn:Hm.
  { apply String.eqb_eq in Hm. eexists _, _. split; [reflexivity | ]. simpl.
    split; [tauto | ]. split; [ | auto]. split; [discriminate | tauto]. }
  apply String.eqb_neq in Hm.
  destruct (unauthorized API_KEY request) eqn:Hun.
  { erewrite bind_Ok by reflexivity. eexists _, _. split; [reflexivity | ]. simpl.
    split; [split; [discriminate | tauto] | ]. split; [tauto | auto]. }
  match goal with |- context [try_except ?m ?h] => set (inner := m); set (handler := h) end.
  assert (Hinner : forall resp s', inner s = (Ok resp, s') ->
                                   status resp = 400 \/ status resp = 200).
  { unfold inner. intros resp s'. unfold bind at 1.
    destruct (lift (get_json request) s) as [[parsed|e] s1]; [ | discriminate].
    unfold bind at 1.
    destruct (lift (json_get _ "pid" JNull) s1) as [[pid|e] s2]; [ | discriminate].
    unfold bind at 1.
    destruct (lift (json_get _ "urls" (JArr [])) s2) as [[urls|e] s3]; [ | discriminate].
    destruct (negb (json_truthy urls)).
    - unfold bind at 1. destruct (store_json _ s3) as [[received|e] s4]; [ | discriminate].
      unfold bind at 1. destruct (alloc _ s4) as [[payload|e] s5]; [ | discriminate].
      intros [= <- _]. by left.
    - unfold bind at 1. destruct (store_json _ s3) as [[pidv|e] s4]; [ | discriminate].
      unfold bind at 1. destruct (lift (json_iter urls) s4) as [[entries|e] s5]; [ | discriminate].
      unfold bind at 1. destruct (scrape_urls _ _ _ _ _ s5) as [[results|e] s6]; [ | discriminate].
      unfold bind at 1. destruct (alloc _ s6) as [[listed|e] s7]; [ | discriminate].
      unfold bind at 1. destruct (utc_now_isoformat w s7) as [[timestamp|e] s8]; [ | discriminate].
      unfold bind at 1. destruct (alloc _ s8) as [[payload|e] s9]; [ | discriminate].
      intros [= <- _]. by right. }
  unfold try_except. destruct (inner s) as [[resp|e] s1] eqn:E.
  - destruct (Hinner _ _ eq_refl) as [H | H]; eexists _, _; (split; [reflexivity | ]); rewrite H.
    + split; [split; [discriminate | tauto] | ]. split; [ | auto].
      split; [discriminate | intros [_ ?]; discriminate].
    + split; [split; [discriminate | tauto] | ]. split; [ | auto].
      split; [discriminate | intros [_ ?]; discriminate].
  - unfold handler. do 2 (erewrite bind_Ok by reflexivity).
    eexists _, _. split; [reflexivity | ]. simpl.
    split; [split; [discriminate | tauto] | ]. split; [ | auto 10].
    split; [discriminate | intros [_ ?]; discriminate].
Qed.

(** X16: for an authorized request whose body is an object with a
    non-empty list [urls], in which the first value of every non-empty
    object is a string that can be encoded (it holds no surrogate): the
    answer is status 200 with the [pid] of the body ([None] when it has
    none) and a list [results] that holds one record for each element of
    [urls] that is a non-empty object, in the order of [urls]; the other
    elements are skipped.  Each record carries [success], the [pid] of
    the request, and as [comp_key] the first key of its element. *)
Theorem webhook_results (w : World) (API_KEY : option string) (pw : nat -> Playwright)
        (request : Request) (s : state) (members : list (string * json)) (urls : list json) :
  state_ok s ->
  method request <> "OPTIONS" ->
  unauthorized API_KEY request = false ->
  get_json request = Ok (JObj members) ->
  member "urls" members = Some (JArr urls) ->
  urls <> [] ->
  Forall names_url (scraped urls) ->
  exists payload s' pid listed results,
    webhook w API_KEY pw request s = (Ok {| body := payload; status := 200 |}, s') /\
    pid = fst (intern (match member "pid" members with Some j => j | None => JNull end)
                 (heap s)) /\
    field (heap s') payload "pid" = Some pid /\
    field (heap s') payload "results" = Some listed /\
    list_items (heap s') listed = Some results /\
    Forall2 (fun r kv => tagged (heap s') pid (fst kv) r) results (scraped urls) /\
    state_ok s'.
Proof.
  intros Hok Hm Hun Hjson Hurls Hne Hall.
  unfold webhook. apply String.eqb_neq in Hm. rewrite Hm, Hun.
  unfold try_except.
  erewrite bind_Ok by (unfold lift; rewrite Hjson; reflexivity).
  assert (Htr : json_truthy (JObj members) = true) by (destruct members; [discriminate | done]).
  cbv zeta. rewrite Htr.
  erewrite bind_Ok by reflexivity.
  erewrite bind_Ok by (unfold lift, json_get; rewrite Hurls; reflexivity).
  assert (Hu : json_truthy (JArr urls) = true) by (destruct urls; [contradiction | done]).
  rewrite Hu. unfold negb.
  set (pid_json := match member "pid" members with Some v => v | None => JNull end).
  destruct (store_json_run pid_json s) as (ext0 & Hs0).
  erewrite bind_Ok by exact Hs0.
  erewrite bind_Ok by reflexivity.
  set (pid := (intern pid_json (heap s)).1).
  set (s0 := set_heap (heap s ++ ext0) s).
  assert (Hok0 : state_ok s0) by (eapply state_ok_grows; [exact Hok | reflexivity..]).
  destruct (scrape_urls_run w pw pid urls 0 s0 Hok0)
    as (o & s1 & ext1 & Hrun & Hheap & Hok1 & _ & _ & Ho).
  destruct o as [results|e].
  2: { exfalso. destruct Ho as (before & kv & after & E & _ & Hkv & _).
       rewrite E in Hall. apply Forall_app in Hall as [_ Hall].
       apply Forall_cons in Hall as [? _]. contradiction. }
  destruct Ho as [_ HF].
  erewrite bind_Ok by exact Hrun.
  do 3 (erewrite bind_Ok by reflexivity). unfold ret.
  eexists _, _, pid, _, results. split; [reflexivity | ]. simpl.
  split; [reflexivity | ].
  rewrite <- !app_assoc. simpl. rewrite length_app. simpl. rewrite Nat.add_1_r.
  rewrite !field_ext1.
  split; [by rewrite lookup_insert_ne, lookup_insert_ne, lookup_insert_eq | ].
  split; [by rewrite lookup_insert_ne, lookup_insert_eq | ].
  split; [unfold list_items; by rewrite lookup_ext0 | ].
  split.
  - eapply Forall2_impl; [exact HF | ]. intros r kv Ht. by apply tagged_extends.
  - eapply state_ok_grows; [exact Hok1 | reflexivity..].
Qed.

(** X16, an instance: three elements, of which one is an entry. *)
Lemma webhook_results_witness :
  exists payload s' listed results,
    webhook demo_world None demo_browsers (demo_request demo_body) initial_state
    = (Ok {| body := payload; status := 200 |}, s') /\
    field (heap s') payload "pid" = Some (VStr "P-1") /\
    field (heap s') payload "results" = Some listed /\
    list_items (heap s') listed = Some results /\
    Forall2 (fun r kv => tagged (heap s') (VStr "P-1") (fst kv) r) results
      [("comp1_url", JStr "https://shop.example.com/item")].
Proof.
  destruct (webhook_results demo_world None demo_browsers (demo_request demo_body) initial_state
              [("pid", JStr "P-1");
               ("urls", JArr [JObj [("comp1_url", JStr "https://shop.example.com/item")];
                              JStr "not an entry";
                              JObj []])]
              [JObj [("comp1_url", JStr "https://shop.example.com/item")];
               JStr "not an entry";
               JObj []])
    as (payload & s' & pid & listed & results & H1 & -> & H2 & H3 & H4 & H5 & _).
  - constructor.
  - discriminate.
  - reflexivity.
  - reflexivity.
  - reflexivity.
  - discriminate.
  - simpl. constructor; [eexists; reflexivity | constructor].
  - exists payload, s', listed, results. repeat split; assumption.
Defined.



(** X18: an authorized request is answered with status 500, [success]
    false and the message as [error], and nothing is scraped or cached,
    when [get_json] raises; when the body is a non-empty value that is
    not an object, so that [data.get] raises; and when [urls] is a number
    other than zero or [true], which cannot be iterated. *)
Theorem webhook_malformed_request (w : World) (API_KEY : option string)
        (pw : nat -> Playwright) (request : Request) (s : state) (e : string) :
  method request <> "OPTIONS" ->
  unauthorized API_KEY request = false ->
  (get_json request = Raise e
   \/ (exists parsed,
         get_json request = Ok parsed /\ json_truthy parsed = true /\
         (forall members, parsed <> JObj members) /\
         e = "'" +:+ type_name parsed +:+ "' object has no attribute 'get'")
   \/ (exists members urls,
         get_json request = Ok (JObj members) /\
         member "urls" members = Some urls /\ json_truthy urls = true /\
         (forall items, urls <> JArr items) /\ (forall t, urls <> JStr t) /\
         (forall fields, urls <> JObj fields) /\
         e = "'" +:+ type_name urls +:+ "' object is not iterable")) ->
  exists payload s',
    webhook w API_KEY pw request s = (Ok {| body := payload; status := 500 |}, s') /\
    field (heap s') payload "success" = Some (VBool false) /\
    field (heap s') payload "error" = Some (VStr e) /\
    cache s' = cache s /\ events s' = events s.
Proof.
  intros Hm Hun Hcase.
  unfold webhook. apply String.eqb_neq in Hm. rewrite Hm, Hun.
  unfold try_except.
  assert (Hend : forall s1, cache s1 = cache s -> events s1 = events s ->
    exists payload s',
      (timestamp <- utc_now_isoformat w ;;
       payload <- alloc (ODict (<["timestamp" := VStr timestamp]>
                               (<["error" := VStr e]>
                               (<["success" := VBool false]> ∅)))) ;;
       ret {| body := payload; status := 500 |}) s1
      = (Ok {| body := payload; status := 500 |}, s') /\
      field (heap s') payload "success" = Some (VBool false) /\
      field (heap s') payload "error" = Some (VStr e) /\
      cache s' = cache s /\ events s' = events s).
  { intros s1 Hc He. do 2 (erewrite bind_Ok by reflexivity). unfold ret.
    eexists _, _. split; [reflexivity | ]. simpl. rewrite !field_ext0.
    split; [rewrite !lookup_insert_ne by done; apply lookup_insert_eq | ].
    split; [by rewrite lookup_insert_ne, lookup_insert_eq | ]. auto. }
  destruct Hcase as [Hraise | [(parsed & Hjson & Htr & Hnot & ->)
                              | (members & urls & Hjson & Hurls & Hu & N1 & N2 & N3 & ->)]].
  - erewrite bind_Raise by (unfold lift; rewrite Hraise; reflexivity). by apply Hend.
  - erewrite bind_Ok by (unfold lift; rewrite Hjson; reflexivity).
    cbv zeta. rewrite Htr.
    erewrite bind_Raise.
    2: { unfold lift, json_get. destruct parsed; try reflexivity. by edestruct Hnot. }
    by apply Hend.
  - erewrite bind_Ok by (unfold lift; rewrite Hjson; reflexivity).
    assert (Htr : json_truthy (JObj members) = true) by (destruct members; [discriminate | done]).
    cbv zeta. rewrite Htr.
    erewrite bind_Ok by reflexivity.
    erewrite bind_Ok by (unfold lift, json_get; rewrite Hurls; reflexivity).
    rewrite Hu. unfold negb.
    destruct (store_json_run (match member "pid" members with Some v => v | None => JNull end) s)
      as (ext0 & Hs0).
    erewrite bind_Ok by exact Hs0.
    erewrite bind_Raise.
    2: { unfold lift, json_iter.
         destruct urls; try reflexivity; [by edestruct N2 | by edestruct N1 | by edestruct N3]. }
    by apply Hend.
Qed.

(** X18, an instance: the body is a list. *)
Lemma webhook_malformed_request_witness :
  exists payload s',
    webhook demo_world None demo_browsers (demo_request (JArr [JInt 1])) initial_state
    = (Ok {| body := payload; status := 500 |}, s') /\
    field (heap s') payload "error" = Some (VStr "'list' object has no attribute 'get'").
Proof.
  destruct (webhook_malformed_request demo_world None demo_browsers
              (demo_request (JArr [JInt 1])) initial_state
              "'list' object has no attribute 'get'")
    as (payload & s' & H1 & _ & H2 & _).
  - discriminate.
  - reflexivity.
  - right. left. exists (JArr [JInt 1]).
    split; [reflexivity | ]. split; [reflexivity | ]. split; [discriminate | reflexivity].
  - exists payload, s'. split; [exact H1 | exact H2].
Defined.

(** X19: an authorized request whose body is empty ([null], [false],
    zero, an empty string, list or object), or is an object without
    [urls] or with an empty [urls] ([null], [false], zero, an empty
    string, list or object), is answered with status 400, [success] false,
    the error [No URLs provided] and the body read as [received_data];
    nothing is scraped, the cache, the clock and the trace of components
    are untouched. *)
Theorem webhook_without_urls (w : World) (API_KEY : option string)
        (pw : nat -> Playwright) (request : Request) (s : state) (parsed : json) :
  method request <> "OPTIONS" ->
  unauthorized API_KEY request = false ->
  get_json request = Ok parsed ->
  (json_truthy parsed = false
   \/ exists members,
        parsed = JObj members /\
        match member "urls" members with
        | Some urls => json_truthy urls = false
        | None => True
        end) ->
  exists payload s' received_data,
    webhook w API_KEY pw request s = (Ok {| body := payload; status := 400 |}, s') /\
    field (heap s') payload "success" = Some (VBool false) /\
    field (heap s') payload "error" = Some (VStr "No URLs provided") /\
    field (heap s') payload "received_data" = Some received_data /\
    received_data = fst (intern (if json_truthy parsed then parsed else JObj []) (heap s)) /\
    cache s' = cache s /\ ticks s' = ticks s /\ events s' = events s.
Proof.
  intros Hm Hun Hjson Hcase.
  unfold webhook. apply String.eqb_neq in Hm. rewrite Hm, Hun.
  unfold try_except.
  erewrite bind_Ok by (unfold lift; rewrite Hjson; reflexivity).
  cbv zeta.
  set (data := if json_truthy parsed then parsed else JObj []).
  assert (Hdata : exists members,
            data = JObj members /\
            json_truthy (match member "urls" members with
                         | Some urls => urls
                         | None => JArr []
                         end) = false).
  { unfold data. destruct Hcase as [-> | (members & -> & Hu)].
    - exists []. done.
    - exists members. destruct (json_truthy (JObj members)) eqn:Htr.
      + split; [done | ]. by destruct (member "urls" members).
      + destruct members; [done | discriminate]. }
  destruct Hdata as (members & Hd & Hu). rewrite Hd.
  do 2 (erewrite bind_Ok by reflexivity).
  rewrite Hu. unfold negb.
  destruct (store_json_run (JObj members) s) as (ext0 & Hs0).
  erewrite bind_Ok by exact Hs0.
  erewrite bind_Ok by reflexivity. unfold ret.
  eexists _, _, _. split; [reflexivity | ]. simpl. rewrite !field_ext0.
  split; [rewrite !lookup_insert_ne by done; apply lookup_insert_eq | ].
  split; [by rewrite lookup_insert_ne, lookup_insert_eq | ].
  split; [by rewrite lookup_insert_eq | ]. auto.
Qed.

(** X19, an instance: a body with a [pid] only. *)
Lemma webhook_without_urls_witness :
  exists payload s',
    webhook demo_world None demo_browsers (demo_request (JObj [("pid", JStr "P-1")]))
      initial_state
    = (Ok {| body := payload; status := 400 |}, s') /\
    field (heap s') payload "error" = Some (VStr "No URLs provided").
Proof.
  destruct (webhook_without_urls demo_world None demo_browsers
              (demo_request (JObj [("pid", JStr "P-1")])) initial_state
              (JObj [("pid", JStr "P-1")]))
    as (payload & s' & rd & H1 & _ & H2 & _).
  - discriminate.
  - reflexivity.
  - reflexivity.
  - right. exists [("pid", JStr "P-1")]. split; [reflexivity | exact I].
  - exists payload, s'. split; [exact H1 | exact H2].
Defined.


(** ** The states of the service *)

(** X20: in every state of the service, reached by any sequence of calls
    of the webhook and of the health check, [health] answers status 200
    with [status] healthy and as [cache_size] the number of entries of
    the store, which is at most 1001; the keys of the store are distinct,
    the time to live is still 300 seconds, and the check leaves the cache
    as it is. *)
Theorem health_reports_a_bounded_cache (w : World) (API_KEY : option string) (s : state) :
  serving w API_KEY s ->
  exists payload s' cache_size,
    health w s = (Ok {| body := payload; status := 200 |}, s') /\
    field (heap s') payload "status" = Some (VStr "healthy") /\
    field (heap s') payload "cache_size" = Some (VInt cache_size) /\
    cache_size = Z.of_nat (length (_store (cache s))) /\
    0 <= cache_size <= 1001 /\
    NoDup (fst <$> _store (cache s)) /\
    _ttl (cache s) = 300 /\
    cache s' = cache s.
Proof.
  intros Hs. apply serving_service_ok in Hs as (_ & [Hnd Hlen] & Httl).
  unfold health. do 3 (erewrite bind_Ok by reflexivity). unfold ret.
  eexists _, _, _. split; [reflexivity | ]. simpl.
  rewrite !field_ext0.
  split; [reflexivity | ]. split; [reflexivity | ]. split; [reflexivity | ].
  split; [lia | ]. split; [exact Hnd | ]. split; [exact Httl | reflexivity].
Qed.

(** X20, an instance: after one call of the webhook the cache holds one
    entry. *)
Lemma health_reports_a_bounded_cache_witness :
  exists payload s',
    health demo_world state_after_webhook = (Ok {| body := payload; status := 200 |}, s') /\
    field (heap s') payload "cache_size" = Some (VInt 1).
Proof.
  destruct (health_reports_a_bounded_cache demo_world None state_after_webhook)
    as (payload & s' & n & H1 & _ & H2 & -> & _).
  - eapply (serving_webhook _ _ initial_state demo_browsers (demo_request demo_body));
      [apply serving_start | apply surjective_pairing].
  - exists payload, s'. split; [exact H1 | exact H2].
Defined.

(** X21: in every state of the service, every value the cache holds is a
    success record without [pid], [comp_key], [cache_hit] and [error]:
    the tags the webhook puts on the records it returns, and the failures,
    never reach the cache. *)
Theorem cached_records_carry_no_tags (w : World) (API_KEY : option string) (s : state)
        (key : string) (v : val) :
  serving w API_KEY s ->
  stored key s = Some v ->
  field (heap s) v "success" = Some (VBool true) /\
  field (heap s) v "pid" = None /\
  field (heap s) v "comp_key" = None /\
  field (heap s) v "cache_hit" = None /\
  field (heap s) v "error" = None.
Proof.
  intros Hs Hv. apply serving_service_ok in Hs as (Hok & _).
  unfold stored in Hv.
  destruct (store_get key (_store (cache s))) as [[v' ts]|] eqn:Hget; [ | discriminate].
  injection Hv as ->.
  apply store_get_elem in Hget. unfold state_ok in Hok. rewrite Forall_forall in Hok.
  destruct (Hok _ Hget) as (l & u & title & price & pl & t & ms & text & E & Hl & _).
  simpl in E. subst v. unfold field. rewrite Hl.
  destruct (success_record_keys u title price (VRef pl) t ms)
    as (K1 & _ & _ & _ & _ & _ & _ & K8 & K9).
  split; [exact K1 | ]. unfold success_record.
  split; [by rewrite !lookup_insert_ne | ].
  split; [by rewrite !lookup_insert_ne | ].
  split; [exact K9 | exact K8].
Qed.

(** X21, an instance: the entry cached by a call of the webhook. *)
Lemma cached_records_carry_no_tags_witness :
  exists v,
    stored "https://shop.example.com/item" state_after_webhook = Some v /\
    field (heap state_after_webhook) v "pid" = None /\
    field (heap state_after_webhook) v "comp_key" = None.
Proof.
  exists (VRef 2%nat). split; [reflexivity | ].
  destruct (cached_records_carry_no_tags demo_world None state_after_webhook
              "https://shop.example.com/item" (VRef 2%nat))
    as (_ & H1 & H2 & _).
  - eapply (serving_webhook _ _ initial_state demo_browsers (demo_request demo_body));
      [apply serving_start | apply surjective_pairing].
  - reflexivity.
  - split; [exact H1 | exact H2].
Defined.
